(** * Telegram export analyser: the resilient extraction pipeline

    A shallow embedding of [tg_self_analyze.py]: the brace-depth object
    scanner, the conversation discovery and selection, the message index
    and the row correlator, with the properties its specification states.

    Conventions of the embedding.
    - A Python [str] is the list of its Unicode code points ([str]).
    - A text offset is a [nat]: every call site starts at [0] or at the end
      of a regular-expression match and only ever increases it.
    - A Python value produced by [json.loads] is a [json] tree; [None] and
      the JSON [null] are the same value, [JNull].
    - An exception is an explicit result, [Raise e], in the monad [exc].
    - [int()] of a run of ASCII digits, which the discovery of chats calls
      without a guard, raises for a run of more than 4300 digits, the
      limit of CPython as it is configured by default.
    - The library functions the program calls but does not define
      ([unicodedata.normalize], [str.lower], [json.loads], [str()] and
      [int()] on arbitrary values) are the fields of the class [Runtime];
      every general theorem holds for every runtime. *)

From Stdlib Require Import ZArith NArith Lia Bool.
From Stdlib Require Import Strings.String Strings.Ascii.
From Stdlib Require DecimalString DecimalPos DecimalZ.
From stdpp Require Import base option list gmap.

#[local] Set Warnings "-register-all".

Local Open Scope N_scope.

(** ** Text *)

Abbreviation char := N (only parsing).
Abbreviation str := (list N) (only parsing).

(** [s[a:b]] for [0 <= a], [0 <= b]. *)
Definition slice (s : str) (a b : nat) : str := take (b - a) (drop a s).

Definition str_eqb (a b : str) : bool := bool_decide (a = b).

(** [ch in set] for a one-character [ch]. *)
Definition char_in (ch : char) (set : str) : bool := existsb (N.eqb ch) set.

(** [a.startswith(p)] read the other way round: [p] starts [a]. *)
Fixpoint starts_with (p a : str) : bool :=
  match p, a with
  | [], _ => true
  | x :: p', y :: a' => (x =? y) && starts_with p' a'
  | _ :: _, [] => false
  end.

(** [q in a] for strings: [q] occurs in [a] as a contiguous block. *)
Fixpoint contains (q a : str) : bool :=
  starts_with q a ||
  match a with
  | [] => false
  | _ :: a' => contains q a'
  end.

(** *** Literals

    Source texts are written as Coq strings and decoded from UTF-8. A JSON
    text needs many double quotes, so [quoted] reads an apostrophe as a
    double quote: [quoted "{'id':1}"] is the text [{"id":1}]. *)

Fixpoint utf8_decode (bs : list N) : str :=
  match bs with
  | [] => []
  | b0 :: r =>
      if b0 <? 0x80 then b0 :: utf8_decode r
      else if b0 <? 0xE0 then
        match r with
        | b1 :: r' => ((b0 mod 0x20) * 0x40 + b1 mod 0x40) :: utf8_decode r'
        | _ => []
        end
      else if b0 <? 0xF0 then
        match r with
        | b1 :: b2 :: r' =>
            ((b0 mod 0x10) * 0x1000 + (b1 mod 0x40) * 0x40 + b2 mod 0x40)
              :: utf8_decode r'
        | _ => []
        end
      else
        match r with
        | b1 :: b2 :: b3 :: r' =>
            ((b0 mod 0x08) * 0x40000 + (b1 mod 0x40) * 0x1000
             + (b2 mod 0x40) * 0x40 + b3 mod 0x40) :: utf8_decode r'
        | _ => []
        end
  end.

Fixpoint bytes_of (s : string) : list N :=
  match s with
  | EmptyString => []
  | String a s' => N_of_ascii a :: bytes_of s'
  end.

Definition text (s : string) : str := utf8_decode (bytes_of s).

Definition quoted (s : string) : str :=
  map (fun c => if c =? 39 then 34 else c) (text s).

Definition QUOTE : char := 34.      (* the double quote *)
Definition BACKSLASH : char := 92.
Definition LBRACE : char := 123.
Definition RBRACE : char := 125.

(** ** Python values and exceptions *)

(** What [json.loads] builds. A JSON number with a fraction or an exponent
    becomes a Python [float]; it is kept as its lexeme. A [dict] keeps its
    keys in insertion order. *)
Inductive json :=
| JNull
| JBool (b : bool)
| JInt (z : Z)
| JFloat (lexeme : str)
| JStr (s : str)
| JList (l : list json)
| JDict (d : list (str * json)).

Inductive error :=
| AttributeError          (* [.get] on a value that is not a [dict] *)
| TypeError               (* [str.join] over an item that is not a [str] *)
| NoChatsList             (* ValueError: no [chats.list] block in the file *)
| NoChatFound             (* ValueError: not a single chat found in the file *)
| IntDigitsLimit          (* ValueError: [int()] of a text of too many digits *)
| ChatIdNotFound (chat_id : Z) (sample : list (str * option Z))
| ChatQueryNotFound (chat_query : str) (sample : list (str * option Z)).

Inductive exc (A : Type) :=
| Ok (a : A)
| Raise (e : error).
Arguments Ok {A} a.
Arguments Raise {A} e.

#[global] Instance exc_ret : MRet exc := fun A a => Ok a.
#[global] Instance exc_bind : MBind exc := fun A B f m =>
  match m with
  | Ok a => f a
  | Raise e => Raise e
  end.
#[global] Instance exc_fmap : FMap exc := fun A B f m =>
  match m with
  | Ok a => Ok (f a)
  | Raise e => Raise e
  end.

(** The library functions the program relies on. *)
Class Runtime := {
  (** [unicodedata.normalize("NFKC", s)] *)
  normalize_NFKC : str -> str;
  (** [s.lower()] *)
  str_lower : str -> str;
  (** [json.loads(s)], [None] when it raises *)
  json_loads : str -> option json;
  (** [str(v)] for a [float], a [list] or a [dict] *)
  py_repr : json -> str;
  (** [int(s)] for a [str], [None] when it raises *)
  int_of_str : str -> option Z;
  (** [bool(x)] and [int(x)] for the [float] with the given lexeme *)
  float_truthy : str -> bool;
  float_to_int : str -> option Z
}.

(** The decimal digits of an [int], as [str()] and an f-string print it. *)
Definition dec_of_Z (z : Z) : str :=
  bytes_of (DecimalString.NilZero.string_of_int (Z.to_int z)).

(** [d.get(key)] on the items of a [dict]. *)
Fixpoint items_get (key : str) (d : list (str * json)) : option json :=
  match d with
  | [] => None
  | (k, v) :: d' => if str_eqb k key then Some v else items_get key d'
  end.

(** [m.get(key, default)]; an attribute error when [m] is not a [dict]. *)
Definition dict_get (m : json) (key : str) (default : json) : exc json :=
  match m with
  | JDict d => Ok (from_option id default (items_get key d))
  | _ => Raise AttributeError
  end.

(** [v == s] for a [str] [s]. *)
Definition eq_str (v : json) (s : str) : bool :=
  match v with
  | JStr s' => str_eqb s' s
  | _ => false
  end.

(** White space as [str.isspace], [str.strip] and the [\s] of [re] see it. *)
Definition isspace (c : char) : bool :=
  ((9 <=? c) && (c <=? 13)) || ((28 <=? c) && (c <=? 32))
  || (c =? 0x85) || (c =? 0xA0) || (c =? 0x1680)
  || ((0x2000 <=? c) && (c <=? 0x200A))
  || (c =? 0x2028) || (c =? 0x2029) || (c =? 0x202F)
  || (c =? 0x205F) || (c =? 0x3000).

Fixpoint lstrip (s : str) : str :=
  match s with
  | c :: s' => if isspace c then lstrip s' else s
  | [] => []
  end.

Definition rstrip (s : str) : str := reverse (lstrip (reverse s)).

(** [s.strip()] *)
Definition strip (s : str) : str := rstrip (lstrip s).

(** [s.replace(a, b)] for one-character [a] and [b]. *)
Definition replace_char (a b : char) (s : str) : str :=
  map (fun c => if c =? a then b else c) s.

(** [re.sub(r"\s+", " ", s)]: every maximal run of white space becomes one
    space; [in_run] tells that the previous character was white space. *)
Fixpoint sub_spaces (in_run : bool) (s : str) : str :=
  match s with
  | [] => []
  | c :: s' =>
      if isspace c then
        if in_run then sub_spaces true s' else 32 :: sub_spaces true s'
      else c :: sub_spaces false s'
  end.

Section Program.

Context {R : Runtime}.

(** [bool(v)] *)
Definition truthy (v : json) : bool :=
  match v with
  | JNull => false
  | JBool b => b
  | JInt z => negb (z =? 0)%Z
  | JFloat x => float_truthy x
  | JStr s => negb (bool_decide (s = []))
  | JList l => negb (bool_decide (l = []))
  | JDict d => negb (bool_decide (d = []))
  end.

(** [a or b] *)
Definition py_or (a b : json) : json := if truthy a then a else b.

(** [str(v)] *)
Definition py_str (v : json) : str :=
  match v with
  | JStr s => s
  | JNull => text "None"
  | JBool true => text "True"
  | JBool false => text "False"
  | JInt z => dec_of_Z z
  | _ => py_repr v
  end.

(** [int(v)], [None] when it raises. *)
Definition py_int (v : json) : option Z :=
  match v with
  | JInt z => Some z
  | JBool b => Some (if b then 1 else 0)%Z
  | JFloat x => float_to_int x
  | JStr s => int_of_str s
  | _ => None
  end.

(** *** Utilities *)

Definition u_norm (s : json) : str :=
  match s with
  | JNull => []
  | _ =>
      let s := normalize_NFKC (py_str s) in
      let s := replace_char 0x202F 32 (replace_char 0x2009 32 (replace_char 0xA0 32 s)) in
      let s := sub_spaces false s in
      strip s
  end.

(** The [parts] list that the loop of [extract_text] fills. *)
Fixpoint text_parts (t : list json) : list json :=
  match t with
  | [] => []
  | JStr x :: t' => JStr x :: text_parts t'
  | JDict x :: t' => from_option id (JStr []) (items_get (text "text") x) :: text_parts t'
  | _ :: t' => text_parts t'
  end.

(** [sep.join(parts)] with the empty separator. *)
Fixpoint join (parts : list json) : exc str :=
  match parts with
  | [] => Ok []
  | JStr s :: parts' => app s <$> join parts'
  | _ :: _ => Raise TypeError
  end.

Definition extract_text (msg : json) : exc str :=
  t ← dict_get msg (text "text") (JStr []);
  match t with
  | JStr s => Ok s
  | JList l => join (text_parts l)
  | _ => Ok []
  end.

(** [s.lstrip("\ufeff")] *)
Fixpoint strip_bom (s : str) : str :=
  match s with
  | c :: s' => if c =? 0xFEFF then strip_bom s' else s
  | [] => []
  end.

Definition norm_sender (m : json) : exc str :=
  a ← dict_get m (text "from") JNull;
  b ← dict_get m (text "actor") JNull;
  c ← dict_get m (text "from_id") JNull;
  Ok (u_norm (py_or (py_or (py_or a b) c) (JStr []))).

Definition norm_from_id (m : json) : exc str :=
  fid ← dict_get m (text "from_id") JNull;
  match fid with
  | JNull => Ok []
  | _ => Ok (py_str fid)
  end.

Definition want_user_id_string (uid : option Z) : option str :=
  match uid with
  | None => None
  | Some uid => Some (text "user" ++ dec_of_Z uid)
  end.

End Program.

(** ** The object scanner *)

(** [SKIP = " \r\n\t,\ufeff\u00A0\u2009\u202F"] *)
Definition SKIP : str := [32; 13; 10; 9; 44; 0xFEFF; 0xA0; 0x2009; 0x202F].

(** [while idx < n and s[idx] in SKIP: idx += 1], with [rest = s[idx:]]. *)
Fixpoint skip_loop (rest : str) (idx : nat) : nat :=
  match rest with
  | ch :: rest' => if char_in ch SKIP then skip_loop rest' (S idx) else idx
  | [] => idx
  end.

(** The second loop of [stream_next_object], [while idx < n: ...], with
    [rest = s[idx:]]: one character per iteration. *)
Fixpoint scan_loop (s : str) (start : nat) (rest : str) (idx : nat)
    (depth : Z) (in_str esc : bool) : option str * nat :=
  match rest with
  | [] => (None, idx)
  | ch :: rest' =>
      if in_str then
        if esc then scan_loop s start rest' (S idx) depth true false
        else if ch =? BACKSLASH then scan_loop s start rest' (S idx) depth true true
        else if ch =? QUOTE then scan_loop s start rest' (S idx) depth false esc
        else scan_loop s start rest' (S idx) depth in_str esc
      else
        if ch =? QUOTE then scan_loop s start rest' (S idx) depth true esc
        else if ch =? LBRACE then
          scan_loop s start rest' (S idx) (depth + 1)%Z in_str esc
        else if ch =? RBRACE then
          let depth := (depth - 1)%Z in
          if (depth =? 0)%Z then (Some (slice s start (S idx)), S idx)
          else scan_loop s start rest' (S idx) depth in_str esc
        else scan_loop s start rest' (S idx) depth in_str esc
  end.

Definition stream_next_object (s : str) (idx : nat) : option str * nat :=
  let idx := skip_loop (drop idx s) idx in
  match s !! idx with
  | None => (None, idx)
  | Some ch =>
      if negb (ch =? LBRACE) then (None, idx)
      else scan_loop s idx (drop idx s) idx 0%Z false false
  end.

(** ** Format recognition

    The five regular expressions of the program are matched by hand. Each
    is a sequence of literal pieces separated by [\s*]; the character after
    every [\s*] is never white space, so matching [\s*] greedily loses no
    match. [re.search] tries the start positions from left to right. *)

(** A literal piece: what is left of [s] after [lit], if [lit] starts it. *)
Fixpoint eat (lit s : str) : option str :=
  match lit, s with
  | [], _ => Some s
  | x :: lit', y :: s' => if x =? y then eat lit' s' else None
  | _ :: _, [] => None
  end.

(** The longest block of characters satisfying [p] that starts [s], and
    what follows it: a greedy [[...]*]. *)
Fixpoint take_while (p : char -> bool) (s : str) : str :=
  match s with
  | c :: s' => if p c then c :: take_while p s' else []
  | [] => []
  end.

Fixpoint drop_while (p : char -> bool) (s : str) : str :=
  match s with
  | c :: s' => if p c then drop_while p s' else s
  | [] => []
  end.

(** [\s*] *)
Definition eat_spaces (s : str) : option str := Some (lstrip s).

(** [re.search] for a pattern given by its anchored matcher [m], which
    returns the captured group and the text after the match. The result is
    the group and [m.end()]; [pos] is the offset of [s] in the whole text. *)
Fixpoint re_search {G : Type} (m : str -> option (G * str)) (s : str)
    (pos : nat) : option (G * nat) :=
  match m s with
  | Some (g, rest) => Some (g, (pos + (length s - length rest))%nat)
  | None =>
      match s with
      | [] => None
      | _ :: s' => re_search m s' (S pos)
      end
  end.

(** ["chats"\s*:\s*\{\s*"list"\s*:\s*\[] *)
Definition chats_list_re (s : str) : option (unit * str) :=
  s ← eat (quoted "'chats'") s; s ← eat_spaces s;
  s ← eat (text ":") s; s ← eat_spaces s;
  s ← eat (text "{") s; s ← eat_spaces s;
  s ← eat (quoted "'list'") s; s ← eat_spaces s;
  s ← eat (text ":") s; s ← eat_spaces s;
  s ← eat (text "[") s;
  Some (tt, s).

(** The pattern of [chat_name_from_obj_str]: the key [name] in double
    quotes, [\s*:\s*], a double quote, the group (every character up to the
    next double quote, line breaks included) and that double quote. *)
Definition name_re (s : str) : option (str * str) :=
  s ← eat (quoted "'name'") s; s ← eat_spaces s;
  s ← eat (text ":") s; s ← eat_spaces s;
  s ← eat (quoted "'") s;
  let group := take_while (fun c => negb (c =? QUOTE)) s in
  s ← eat (quoted "'") (drop_while (fun c => negb (c =? QUOTE)) s);
  Some (group, s).

(** [[0-9]] *)
Definition isdigit (c : char) : bool := (48 <=? c) && (c <=? 57).

(** ["id"\s*:\s*([0-9]+)] *)
Definition id_re (s : str) : option (str * str) :=
  s ← eat (quoted "'id'") s; s ← eat_spaces s;
  s ← eat (text ":") s; s ← eat_spaces s;
  let group := take_while isdigit s in
  if bool_decide (group = []) then None
  else Some (group, drop_while isdigit s).

(** ["messages"\s*:\s*\[] *)
Definition messages_re (s : str) : option (unit * str) :=
  s ← eat (quoted "'messages'") s; s ← eat_spaces s;
  s ← eat (text ":") s; s ← eat_spaces s;
  s ← eat (text "[") s;
  Some (tt, s).

(** The number that a run of ASCII digits writes. *)
Definition digits_value (ds : str) : Z :=
  fold_left (fun acc c => (acc * 10 + Z.of_N (c - 48))%Z) ds 0%Z.

(** [sys.int_info.default_max_str_digits]: the longest run of digits that
    [int()] converts in CPython as it is configured by default; the
    program does not change it. *)
Definition INT_MAX_STR_DIGITS : nat := 4300.

(** [int(group)] for a group of ASCII digits: a [ValueError] when the
    group has more than [INT_MAX_STR_DIGITS] digits, leading zeros
    counted. *)
Definition int_of_digits (ds : str) : exc Z :=
  if bool_decide (INT_MAX_STR_DIGITS < length ds)%nat then Raise IntDigitsLimit
  else Ok (digits_value ds).

Definition has_chats_list (raw : str) : bool :=
  bool_decide (re_search chats_list_re raw 0 <> None).

Definition find_chats_list_start (raw : str) : exc nat :=
  match re_search chats_list_re raw 0 with
  | None => Raise NoChatsList
  | Some (_, m_end) => Ok m_end
  end.

Definition chat_name_from_obj_str (chat_obj_str : str) : str :=
  match re_search name_re chat_obj_str 0 with
  | Some (group, _) => group
  | None => []
  end.

Definition chat_id_from_obj_str (chat_obj_str : str) : exc (option Z) :=
  match re_search id_re chat_obj_str 0 with
  | Some (group, _) => Some <$> int_of_digits group
  | None => Ok None
  end.

Definition find_messages_array_in (container : str) : option nat :=
  match re_search messages_re container 0 with
  | Some (_, m_end) => Some m_end
  | None => None
  end.

(** [bool(x)] for an [Optional[int]] offset and for an [Optional[str]]. *)
Definition truthy_offset (x : option nat) : bool :=
  match x with
  | Some (S _) => true
  | _ => false
  end.

Definition truthy_str (x : option str) : bool :=
  match x with
  | Some (_ :: _) => true
  | _ => false
  end.

(** ** Messages of a container, chats of a file, rows of a chat *)

(** A discovered chat: [(obj_str, id, name)]. *)
Abbreviation chat := (list N * option Z * list N)%type (only parsing).

Record Row := {
  row_chat : str;
  row_id : json;
  row_date : json;
  row_from : str;
  row_from_id : str;
  row_text : str;
  row_reply_to_id : json;
  row_reply_from : str;
  row_reply_date : json;
  row_reply_text : str
}.

(** [a or b] for two [str]. *)
Definition str_or (a b : str) : str :=
  match a with
  | [] => b
  | _ :: _ => a
  end.

Definition NO_NAME : str := text "(без названия)".
Definition SINGLE_CHAT : str := text "(single chat export)".
Definition DEFAULT_CAP : Z := 10000.

Section Pipeline.

Context {R : Runtime}.

(** The loop of [stream_parse_messages_from_container]. Every iteration
    moves [idx] forward, so [length after - idx] iterations are enough;
    [fuel] counts the iterations left. *)
Fixpoint parse_loop (fuel : nat) (after : str) (idx : nat)
    (msgs : list json) : list json :=
  match fuel with
  | O => msgs
  | S fuel =>
      if bool_decide (idx < length after)%nat then
        match stream_next_object after idx with
        | (Some (c :: f), idx2) =>
            let obj_str := c :: f in
            let msgs :=
              match json_loads obj_str with
              | Some obj => msgs ++ [obj]
              | None => msgs
              end in
            parse_loop fuel after
              (if bool_decide (idx < idx2)%nat then idx2 else idx + 1)%nat msgs
        | (_, _) => parse_loop fuel after (idx + 1)%nat msgs
        end
      else msgs
  end.

Definition stream_parse_messages_from_container (container_str : str)
    : list json :=
  let start := find_messages_array_in container_str in
  if negb (truthy_offset start) then []
  else
    let after := drop (from_option id 0%nat start) container_str in
    parse_loop (length after) after 0 [].

Definition is_saved_chat (name : str) : bool :=
  let n := str_lower (u_norm (JStr name)) in
  contains (text "saved messages") n || contains (text "избранное") n
  || str_eqb n (text "саня").

(** The loop that walks the chats, the same in both modes of
    [list_all_chats]; [fuel] counts the iterations left. *)
Fixpoint chats_loop (fuel : nat) (raw : str) (cap : Z) (i : nat) (k : Z)
    (out : list chat) : exc (list chat) :=
  match fuel with
  | O => Ok out
  | S fuel =>
      if bool_decide (i < length raw)%nat && (k <? cap)%Z then
        match stream_next_object raw i with
        | (Some (c :: f), i2) =>
            let obj_str := c :: f in
            let i' := (if bool_decide (i < i2)%nat then i2 else i + 1)%nat in
            if truthy_offset (find_messages_array_in obj_str) then
              cid ← chat_id_from_obj_str obj_str;
              chats_loop fuel raw cap i' (k + 1)%Z
                (out ++ [(obj_str, cid,
                          str_or (chat_name_from_obj_str obj_str) NO_NAME)])
            else chats_loop fuel raw cap i' k out
        | (_, _) => chats_loop fuel raw cap (i + 1)%nat k out
        end
      else Ok out
  end.

Definition list_all_chats (raw : str) (cap : Z) : exc (list chat) :=
  if has_chats_list raw then
    i ← find_chats_list_start raw;
    chats_loop (length raw) raw cap i 0 []
  else
    out ← chats_loop (length raw) raw cap 0 0 [];
    match out with
    | [] =>
        cid ← chat_id_from_obj_str raw;
        Ok [(raw, cid, str_or (chat_name_from_obj_str raw) SINGLE_CHAT)]
    | _ :: _ => Ok out
    end.

(** [chats[:30]] as the error messages list it: name and id. *)
Definition sample (chats : list chat) : list (str * option Z) :=
  map (fun c => (c.2, c.1.2)) (take 30 chats).

(** [for obj_str, cid, name in chats: if p: return obj_str, name] *)
Definition first_chat (p : chat -> bool) (chats : list chat)
    : option (str * str) :=
  (fun c : chat => (c.1.1, c.2)) <$> find p chats.

(** The selection of one chat. The list of the chats found, which the
    program prints first, is not part of the result and is left out. *)
Definition pick_chat_container (raw : str) (chat_query : option str)
    (chat_id : option Z) : exc (str * str) :=
  chats ← list_all_chats raw DEFAULT_CAP;
  match chats with
  | [] => Raise NoChatFound
  | chat0 :: _ =>
      match chat_id with
      | Some chat_id =>
          match first_chat (fun c => bool_decide (c.1.2 = Some chat_id)) chats with
          | Some r => Ok r
          | None => Raise (ChatIdNotFound chat_id (sample chats))
          end
      | None =>
          if truthy_str chat_query then
            let query := from_option id [] chat_query in
            let q := str_lower (u_norm (JStr query)) in
            match first_chat (fun c => str_eqb (str_lower (u_norm (JStr c.2))) q) chats with
            | Some r => Ok r
            | None =>
            match first_chat (fun c => contains q (str_lower (u_norm (JStr c.2)))) chats with
            | Some r => Ok r
            | None =>
            match first_chat (fun c => starts_with q (str_lower (u_norm (JStr c.2)))) chats with
            | Some r => Ok r
            | None => Raise (ChatQueryNotFound query (sample chats))
            end end end
          else
            match first_chat (fun c => negb (is_saved_chat c.2)) chats with
            | Some r => Ok r
            | None => Ok (chat0.1.1, chat0.2)
            end
      end
  end.

(** The loop of [build_id_index], started from the index [idx]. *)
Fixpoint index_loop (messages : list json) (idx : gmap Z json)
    : exc (gmap Z json) :=
  match messages with
  | [] => Ok idx
  | m :: messages' =>
      ty ← dict_get m (text "type") JNull;
      if negb (eq_str ty (text "message")) then index_loop messages' idx
      else
        mid ← dict_get m (text "id") JNull;
        match mid with
        | JNull => index_loop messages' idx
        | _ =>
            match py_int mid with
            | None => index_loop messages' idx
            | Some mid => index_loop messages' (<[mid := m]> idx)
            end
        end
  end.

Definition build_id_index (messages : list json) : exc (gmap Z json) :=
  index_loop messages ∅.

(** The filter on the author, the first half of the loop body of
    [collect_rows_from_container]: [true] when the message is kept. *)
Definition author_matches (want_uid_str : option str) (uq : str)
    (user_query : option str) (exact : bool) (msg : json) : exc bool :=
  if truthy_str want_uid_str then
    fid ← norm_from_id msg;
    Ok (str_eqb fid (from_option id [] want_uid_str))
  else
    sender ← norm_sender msg;
    let s_norm := str_lower sender in
    if exact then
      Ok (str_eqb sender
            (if truthy_str user_query then from_option id [] user_query else []))
    else Ok (contains uq s_norm).

(** The reply context [(r_from, r_date, r_text)] of a message. *)
Definition reply_context (id_index : gmap Z json) (reply_id : json)
    : exc (str * json * str) :=
  let rmsg :=
    match reply_id with
    | JNull => None
    | _ =>
        match py_int reply_id with
        | Some n => id_index !! n
        | None => None
        end
    end in
  match rmsg with
  | Some rmsg =>
      if truthy rmsg then
        r_from ← norm_sender rmsg;
        r_date ← dict_get rmsg (text "date") JNull;
        r_text ← extract_text rmsg;
        Ok (r_from, py_or r_date (JStr []), strip r_text)
      else Ok ([], JStr [], [])
  | None => Ok ([], JStr [], [])
  end.

(** One iteration of the loop of [collect_rows_from_container]: the row
    appended for [msg], or [None] when the iteration ends in [continue]. *)
Definition collect_row (id_index : gmap Z json) (chat_name : str)
    (want_uid_str : option str) (uq : str) (user_query : option str)
    (exact : bool) (msg : json) : exc (option Row) :=
  ty ← dict_get msg (text "type") JNull;
  if negb (eq_str ty (text "message")) then Ok None
  else
    keep ← author_matches want_uid_str uq user_query exact msg;
    if negb keep then Ok None
    else
      t ← extract_text msg;
      let t := strip t in
      if bool_decide (t = []) then Ok None
      else
        mid ← dict_get msg (text "id") JNull;
        date ← dict_get msg (text "date") JNull;
        reply_id ← dict_get msg (text "reply_to_message_id") JNull;
        '(r_from, r_date, r_text) ← reply_context id_index reply_id;
        sender ← norm_sender msg;
        fid ← norm_from_id msg;
        Ok (Some {| row_chat := chat_name;
                    row_id := mid;
                    row_date := date;
                    row_from := sender;
                    row_from_id := fid;
                    row_text := t;
                    row_reply_to_id := reply_id;
                    row_reply_from := r_from;
                    row_reply_date := r_date;
                    row_reply_text := r_text |}).

Fixpoint rows_loop (id_index : gmap Z json) (chat_name : str)
    (want_uid_str : option str) (uq : str) (user_query : option str)
    (exact : bool) (messages : list json) (rows : list Row)
    : exc (list Row) :=
  match messages with
  | [] => Ok rows
  | msg :: messages' =>
      r ← collect_row id_index chat_name want_uid_str uq user_query exact msg;
      rows_loop id_index chat_name want_uid_str uq user_query exact messages'
        (match r with
         | Some row => rows ++ [row]
         | None => rows
         end)
  end.

Definition collect_rows_from_container (container_str chat_name : str)
    (user_id : option Z) (user_query : option str) (exact : bool)
    : exc (list Row) :=
  let messages := stream_parse_messages_from_container container_str in
  id_index ← build_id_index messages;
  let want_uid_str :=
    match user_id with
    | Some _ => want_user_id_string user_id
    | None => None
    end in
  let uq :=
    if truthy_str user_query then str_lower (from_option id [] user_query)
    else [] in
  rows_loop id_index chat_name want_uid_str uq user_query exact messages [].

End Pipeline.

(** ** A runtime to evaluate the examples

    The examples are texts of ASCII characters and precomposed Cyrillic
    letters, JSON numbers without fraction or exponent, and no [str()] of a
    list or a dict. On such inputs the functions below compute what CPython
    computes: NFKC normalisation changes nothing there, [lower] moves the
    capital Latin and Cyrillic letters, and [json_decode] follows the
    grammar [json.loads] accepts. Outside of that fragment they are only
    approximations, and the three fields about floats and about [str()] of
    a compound value are placeholders that no example reaches; no general
    theorem depends on this runtime. *)

Module Basic.

Definition lower_char (c : char) : char :=
  if (65 <=? c) && (c <=? 90) then c + 32          (* A-Z *)
  else if (0x410 <=? c) && (c <=? 0x42F) then c + 32   (* А-Я *)
  else if (0x400 <=? c) && (c <=? 0x40F) then c + 80   (* Ѐ-Џ *)
  else c.

Definition lower (s : str) : str := map lower_char s.

(** *** Decoding JSON *)

Definition json_ws (c : char) : bool :=
  (c =? 32) || (c =? 9) || (c =? 10) || (c =? 13).

Definition skip_ws (s : str) : str := drop_while json_ws s.

Definition hex_digit (c : char) : option N :=
  if (48 <=? c) && (c <=? 57) then Some (c - 48)
  else if (97 <=? c) && (c <=? 102) then Some (c - 87)
  else if (65 <=? c) && (c <=? 70) then Some (c - 55)
  else None.

Definition hex4 (a b c d : char) : option N :=
  a ← hex_digit a; b ← hex_digit b; c ← hex_digit c; d ← hex_digit d;
  Some (a * 4096 + b * 256 + c * 16 + d).

Definition unescape (e : char) : option char :=
  if e =? QUOTE then Some QUOTE
  else if e =? BACKSLASH then Some BACKSLASH
  else if e =? 47 then Some 47          (* / *)
  else if e =? 98 then Some 8           (* b *)
  else if e =? 102 then Some 12         (* f *)
  else if e =? 110 then Some 10         (* n *)
  else if e =? 114 then Some 13         (* r *)
  else if e =? 116 then Some 9          (* t *)
  else None.

(** The body of a string, after its opening quote: the decoded text and
    what follows the closing quote. *)
Fixpoint parse_string (s : str) (acc : str) : option (str * str) :=
  match s with
  | [] => None
  | c :: s1 =>
      if c =? QUOTE then Some (reverse acc, s1)
      else if c =? BACKSLASH then
        match s1 with
        | [] => None
        | e :: s2 =>
            if e =? 117 then                      (* \uXXXX *)
              match s2 with
              | h1 :: h2 :: h3 :: h4 :: s3 =>
                  match hex4 h1 h2 h3 h4 with
                  | None => None
                  | Some hi =>
                      match s3 with
                      | 92 :: 117 :: l1 :: l2 :: l3 :: l4 :: s4 =>
                          match hex4 l1 l2 l3 l4 with
                          | Some lo =>
                              if (0xD800 <=? hi) && (hi <=? 0xDBFF)
                                 && (0xDC00 <=? lo) && (lo <=? 0xDFFF)
                              then parse_string s4
                                (0x10000 + (hi - 0xD800) * 0x400 + (lo - 0xDC00) :: acc)
                              else parse_string s3 (hi :: acc)
                          | None => parse_string s3 (hi :: acc)
                          end
                      | _ => parse_string s3 (hi :: acc)
                      end
                  end
              | _ => None
              end
            else
              match unescape e with
              | Some ch => parse_string s2 (ch :: acc)
              | None => None
              end
        end
      else if c <? 32 then None
      else parse_string s1 (c :: acc)
  end.

(** The integer part [0|[1-9][0-9]*] of a number. *)
Definition int_part (s : str) : option (str * str) :=
  match s with
  | 48 :: s' => Some ([48], s')
  | c :: _ =>
      if isdigit c then Some (take_while isdigit s, drop_while isdigit s)
      else None
  | [] => None
  end.

(** The optional fraction [\.[0-9]+] and exponent [[eE][-+]?[0-9]+]. *)
Definition frac_part (s : str) : str * str :=
  match s with
  | 46 :: d :: s' =>
      if isdigit d then (46 :: take_while isdigit (d :: s'), drop_while isdigit s')
      else ([], s)
  | _ => ([], s)
  end.

Definition exp_part (s : str) : str * str :=
  match s with
  | e :: s1 =>
      if (e =? 101) || (e =? 69) then
        let '(sign, s2) :=
          match s1 with
          | c :: s2 => if (c =? 43) || (c =? 45) then ([c], s2) else ([], s1)
          | [] => ([], s1)
          end in
        match take_while isdigit s2 with
        | [] => ([], s)
        | ds => (e :: sign ++ ds, drop_while isdigit s2)
        end
      else ([], s)
  | [] => ([], s)
  end.

Definition parse_number (s : str) : option (json * str) :=
  let '(sign, s1) :=
    match s with
    | 45 :: s1 => ([45], s1)
    | _ => ([], s)
    end in
  '(ds, s2) ← int_part s1;
  let '(fr, s3) := frac_part s2 in
  let '(ex, s4) := exp_part s3 in
  match fr, ex with
  | [], [] =>
      match int_of_digits ds with
      | Ok z => Some (JInt (if bool_decide (sign = []) then z else - z)%Z, s4)
      | Raise _ => None
      end
  | _, _ => Some (JFloat (sign ++ ds ++ fr ++ ex), s4)
  end.

(** [d[k] = v]: a key that is already there keeps its place. *)
Fixpoint dict_set (k : str) (v : json) (d : list (str * json))
    : list (str * json) :=
  match d with
  | [] => [(k, v)]
  | (k', v') :: d' =>
      if str_eqb k' k then (k', v) :: d' else (k', v') :: dict_set k v d'
  end.

Definition literal (lit : string) (v : json) (s : str) : option (json * str) :=
  s' ← eat (text lit) s; Some (v, s').

Fixpoint parse_value (fuel : nat) (s : str) : option (json * str) :=
  match fuel with
  | O => None
  | S fuel =>
      match s with
      | [] => None
      | c :: s' =>
          if c =? QUOTE then
            '(v, r) ← parse_string s' []; Some (JStr v, r)
          else if c =? LBRACE then
            match skip_ws s' with
            | 125 :: r => Some (JDict [], r)
            | r => parse_members fuel r []
            end
          else if c =? 91 then
            match skip_ws s' with
            | 93 :: r => Some (JList [], r)
            | r => parse_elements fuel r []
            end
          else if c =? 110 then literal "null" JNull s
          else if c =? 116 then literal "true" (JBool true) s
          else if c =? 102 then literal "false" (JBool false) s
          else if c =? 78 then literal "NaN" (JFloat (text "NaN")) s
          else if c =? 73 then literal "Infinity" (JFloat (text "Infinity")) s
          else if starts_with (text "-Infinity") s then
            literal "-Infinity" (JFloat (text "-Infinity")) s
          else parse_number s
      end
  end
(** The members of an object from a key on, and the closing brace. *)
with parse_members (fuel : nat) (s : str) (d : list (str * json))
    : option (json * str) :=
  match fuel with
  | O => None
  | S fuel =>
      s ← eat [QUOTE] s;
      '(k, r) ← parse_string s [];
      r ← eat [58] (skip_ws r);
      '(v, r) ← parse_value fuel (skip_ws r);
      let d := dict_set k v d in
      match skip_ws r with
      | 125 :: r => Some (JDict d, r)
      | 44 :: r => parse_members fuel (skip_ws r) d
      | _ => None
      end
  end
(** The elements of an array from a value on, and the closing bracket. *)
with parse_elements (fuel : nat) (s : str) (l : list json)
    : option (json * str) :=
  match fuel with
  | O => None
  | S fuel =>
      '(v, r) ← parse_value fuel s;
      match skip_ws r with
      | 93 :: r => Some (JList (l ++ [v]), r)
      | 44 :: r => parse_elements fuel (skip_ws r) (l ++ [v])
      | _ => None
      end
  end.

(** [json.loads]: one value between optional white space, nothing else.
    Every call of the three parsers consumes a character before it calls
    another, so [S (length s)] levels are enough. *)
Definition json_decode (s : str) : option json :=
  '(v, r) ← parse_value (S (length s)) (skip_ws s);
  match skip_ws r with
  | [] => Some v
  | _ :: _ => None
  end.

(** [int(s)] for a decimal numeral with an optional sign. *)
Definition int_decimal (s : str) : option Z :=
  let s := strip s in
  let '(neg, ds) :=
    match s with
    | 45 :: ds => (true, ds)
    | 43 :: ds => (false, ds)
    | _ => (false, s)
    end in
  if bool_decide (ds = []) || negb (forallb isdigit ds) then None
  else
    match int_of_digits ds with
    | Ok z => Some (if neg then - z else z)%Z
    | Raise _ => None
    end.

#[export] Instance runtime : Runtime := {|
  normalize_NFKC := fun s => s;
  str_lower := lower;
  json_loads := json_decode;
  py_repr := fun _ => [];
  int_of_str := int_decimal;
  float_truthy := fun _ => true;
  float_to_int := fun _ => None
|}.

End Basic.

(** *** The scanner as the specification words it

    A string-mode flag toggled on an unescaped double quote, an escape flag
    set by a backslash inside a string and cleared by the next character,
    and a brace-depth counter moved by the braces outside strings. *)

Record lex_state := LexState {
  in_string : bool;
  escaped : bool;
  brace_depth : Z
}.

Definition lex_init : lex_state := LexState false false 0.

(** The state right after the opening brace of an object. *)
Definition lex_open : lex_state := LexState false false 1.

Definition lex_step (st : lex_state) (ch : char) : lex_state :=
  if in_string st then
    if escaped st then LexState true false (brace_depth st)
    else if ch =? BACKSLASH then LexState true true (brace_depth st)
    else if ch =? QUOTE then LexState false false (brace_depth st)
    else st
  else if ch =? QUOTE then LexState true (escaped st) (brace_depth st)
  else if ch =? LBRACE then LexState false (escaped st) (brace_depth st + 1)
  else if ch =? RBRACE then LexState false (escaped st) (brace_depth st - 1)
  else st.

Definition lex_run (st : lex_state) (w : str) : lex_state :=
  fold_left lex_step w st.

(** The brace depth once [s[start..j]], both ends included, is consumed. *)
Definition depth_through (s : str) (start j : nat) : Z :=
  brace_depth (lex_run lex_init (slice s start (S j))).

(** [j] is where the depth first returns to zero: the matching brace. *)
Definition closes_at (s : str) (start j : nat) : Prop :=
  (start <= j < length s)%nat /\
  depth_through s start j = 0%Z /\
  forall k, (start <= k < j)%nat -> depth_through s start k <> 0%Z.

(** Every character of [s[idx:start]] is in the skip set. *)
Definition skips_to (s : str) (idx start : nat) : Prop :=
  (idx <= start)%nat /\
  forall k, (idx <= k < start)%nat ->
    exists ch, s !! k = Some ch /\ char_in ch SKIP = true.

(** The matching brace, computed: the first offset from [start] on at which
    the depth is zero. *)
Definition matching_brace (s : str) (start : nat) : option nat :=
  find (fun j => (depth_through s start j =? 0)%Z)
       (seq start (length s - start)).

(** A text that is one balanced object and nothing else. *)
Definition balanced_object (f : str) : Prop :=
  f !! 0%nat = Some LBRACE /\ closes_at f 0 (length f - 1).

(** A caller loop as the specification describes it: it moves to the
    offset the scanner returns with a fragment and, without a fragment, to
    an offset [advance idx] of its own choice. *)
Definition caller_step (advance : nat -> nat) (s : str) (idx : nat) : nat :=
  match stream_next_object s idx with
  | (Some _, idx2) => idx2
  | (None, _) => advance idx
  end.

(** What decoding keeps of a scanned fragment. *)
Definition decoded {R : Runtime} (frag : str) : list json :=
  match json_loads frag with
  | Some obj => [obj]
  | None => []
  end.

(** The messages read from a text that follows the opening bracket of a
    message collection: the loop of [stream_parse_messages_from_container]
    run from the first character. *)
Definition messages_of {R : Runtime} (after : str) : list json :=
  parse_loop (length after) after 0 [].

(** [v is None] *)
Definition is_null (v : json) : bool :=
  match v with
  | JNull => true
  | _ => false
  end.

(** A record that [build_id_index] files under the identifier [n]: its
    type is [message] and [int()] reads its [id] as [n]. *)
Definition indexed_as {R : Runtime} (n : Z) (m : json) : bool :=
  match m with
  | JDict d =>
      let mid := from_option id JNull (items_get (text "id") d) in
      eq_str (from_option id JNull (items_get (text "type") d)) (text "message")
      && negb (is_null mid)
      && match py_int mid with
         | Some k => (k =? n)%Z
         | None => false
         end
  | _ => false
  end.

(** The record a reply to [n] resolves to: the last one in scan order. *)
Definition last_indexed {R : Runtime} (n : Z) (messages : list json)
    : option json :=
  last (List.filter (indexed_as n) messages).

(** The text of a message as the specification words it: a string as it
    is; the elements of a list one after the other, a string element as it
    is and an object element by its own [text] property. *)
Definition piece (x : json) : str :=
  match x with
  | JStr s => s
  | JDict d =>
      match items_get (text "text") d with
      | Some (JStr s) => s
      | _ => []
      end
  | _ => []
  end.

Definition flatten (t : json) : str :=
  match t with
  | JStr s => s
  | JList l => concat (map piece l)
  | _ => []
  end.

(** An element whose [text] property, if it has one, is a string. *)
Definition plain_element (x : json) : Prop :=
  match x with
  | JDict d =>
      match items_get (text "text") d with
      | Some (JStr _) | None => True
      | Some _ => False
      end
  | _ => True
  end.

(** A decoded record on which nothing raises: a [dict] whose [text], when
    it is a list, has plain elements only. *)
Definition well_formed (m : json) : Prop :=
  match m with
  | JDict d =>
      match from_option id (JStr []) (items_get (text "text") d) with
      | JList l => Forall plain_element l
      | _ => True
      end
  | _ => False
  end.

(** ** Example inputs *)

Module Examples.

Definition object_1 : str := quoted "{'id':1,'type':'message','text':'hi'}".
Definition object_2 : str := quoted "{'id':2,'type':'message','text':'bye'}".

Definition garbage_container : str :=
  quoted "{'name':'Chat','id':77,'messages':[" ++ object_1
  ++ text "GARBAGE" ++ object_2 ++ text "]}".

Definition message_1 : json :=
  JDict [(text "id", JInt 1); (text "type", JStr (text "message"));
         (text "text", JStr (text "hi"))].

Definition message_2 : json :=
  JDict [(text "id", JInt 2); (text "type", JStr (text "message"));
         (text "text", JStr (text "bye"))].

(** A chat with a reply to a message that is there, a reply to one that is
    not, a message whose text is only white space, a text given as a list,
    and a record that is not a message. *)
Definition reply_container : str :=
  quoted "{'name':'Team','id':1863959277,'messages':[
 {'id':5,'type':'message','date':'2024-01-01T10:00:00','from':'Alice','from_id':'user111','text':'original'},
 {'id':6,'type':'message','date':'2024-01-01T10:05:00','from':'Bob','from_id':'user305696040','text':'answer','reply_to_message_id':5},
 {'id':7,'type':'message','date':'2024-01-01T10:06:00','from':'Bob','from_id':'user305696040','text':'lost','reply_to_message_id':99},
 {'id':8,'type':'message','date':'2024-01-01T10:07:00','from':'Bob','from_id':'user305696040','text':['  ',{'type':'bold','text':' '}]},
 {'id':9,'type':'message','date':'2024-01-01T10:08:00','from':'Татьяна','from_id':'user222','text':['see ',{'type':'link','text':'here'},' now']},
 {'id':10,'type':'service','date':'2024-01-01T10:09:00','actor':'Bob','from_id':'user305696040','text':'joined'}
]}".

Definition reply_messages : list json :=
  Eval vm_compute in
    stream_parse_messages_from_container (R := Basic.runtime) reply_container.

Definition message_5 : json :=
  JDict [(text "id", JInt 5); (text "type", JStr (text "message"));
         (text "date", JStr (text "2024-01-01T10:00:00"));
         (text "from", JStr (text "Alice"));
         (text "from_id", JStr (text "user111"));
         (text "text", JStr (text "original"))].

Definition message_8 : json :=
  JDict [(text "id", JInt 8); (text "type", JStr (text "message"));
         (text "date", JStr (text "2024-01-01T10:07:00"));
         (text "from", JStr (text "Bob"));
         (text "from_id", JStr (text "user305696040"));
         (text "text",
          JList [JStr (text "  ");
                 JDict [(text "type", JStr (text "bold"));
                        (text "text", JStr (text " "))]])].

Definition message_9 : json :=
  JDict [(text "id", JInt 9); (text "type", JStr (text "message"));
         (text "date", JStr (text "2024-01-01T10:08:00"));
         (text "from", JStr (text "Татьяна"));
         (text "from_id", JStr (text "user222"));
         (text "text",
          JList [JStr (text "see ");
                 JDict [(text "type", JStr (text "link"));
                        (text "text", JStr (text "here"))];
                 JStr (text " now")])].

Definition row_6 : Row :=
  {| row_chat := text "Team";
     row_id := JInt 6;
     row_date := JStr (text "2024-01-01T10:05:00");
     row_from := text "Bob";
     row_from_id := text "user305696040";
     row_text := text "answer";
     row_reply_to_id := JInt 5;
     row_reply_from := text "Alice";
     row_reply_date := JStr (text "2024-01-01T10:00:00");
     row_reply_text := text "original" |}.

Definition row_7 : Row :=
  {| row_chat := text "Team";
     row_id := JInt 7;
     row_date := JStr (text "2024-01-01T10:06:00");
     row_from := text "Bob";
     row_from_id := text "user305696040";
     row_text := text "lost";
     row_reply_to_id := JInt 99;
     row_reply_from := [];
     row_reply_date := JStr [];
     row_reply_text := [] |}.

Definition row_9 : Row :=
  {| row_chat := text "Team";
     row_id := JInt 9;
     row_date := JStr (text "2024-01-01T10:08:00");
     row_from := text "Татьяна";
     row_from_id := text "user222";
     row_text := text "see here now";
     row_reply_to_id := JNull;
     row_reply_from := [];
     row_reply_date := JStr [];
     row_reply_text := [] |}.

(** A file with a chat list: the self-notes chat first, then a chat. *)
Definition two_chats : str :=
  quoted "{'chats':{'list':[
 {'name':'Saved Messages','type':'saved_messages','id':1,'messages':[]},
 {'name':'Alice','type':'personal_chat','id':2,'messages':[]}
]}}".

Definition saved_chat : str :=
  quoted "{'name':'Saved Messages','type':'saved_messages','id':1,'messages':[]}".
Definition alice_chat : str :=
  quoted "{'name':'Alice','type':'personal_chat','id':2,'messages':[]}".

(** A file without a chat list and without a message collection. *)
Definition bare_file : str := quoted "{'id': 42, 'name': 'Solo', 'xs': []}".

(** A file with a chat list in which no chat has a message collection. *)
Definition empty_chats : str :=
  quoted "{'chats':{'list':[{'name':'x','id':1}]}}".

(** The file [bare_file] with an identifier of 4301 digits. *)
Definition long_id_file : str :=
  quoted "{'id': " ++ replicate 4301 49%N ++ quoted ", 'name': 'Solo', 'xs': []}".

End Examples.

(** ** The driver over all chats

    The two loops of [main] that work on rows when no chat is selected. *)



(** [by_chat[r["chat"]].append(r)] on a [defaultdict(list)]. *)
Definition by_chat_append (by_chat : gmap (list N) (list Row)) (r : Row)
    : gmap (list N) (list Row) :=
  <[row_chat r := from_option id [] (by_chat !! row_chat r) ++ [r]]> by_chat.

(** [for r in all_rows: by_chat[r["chat"]].append(r)] *)
Definition group_by_chat (all_rows : list Row) : gmap (list N) (list Row) :=
  fold_left by_chat_append all_rows ∅.

(** [isinstance(m, dict)] *)
Definition is_dict (m : json) : bool :=
  match m with
  | JDict _ => true
  | _ => false
  end.

(** A text without white space at either end and with no white space
    inside but single spaces. *)
Definition clean_spaces (s : str) : Prop :=
  strip s = s /\
  Forall (fun c => isspace c = true -> c = 32) s /\
  forall i, s !! i = Some 32 -> s !! S i <> Some 32.

(** [u_norm(name).lower()], the form in which names are compared. *)
Definition chat_key {R : Runtime} (name : str) : str :=
  str_lower (u_norm (JStr name)).

(** A discovered chat as [list_all_chats] builds it: a name that is not
    empty, read from the text of the chat or else a placeholder, and the
    identifier read from the text. *)
Definition named_chat (c : list N * option Z * list N) : Prop :=
  c.2 <> [] /\
  chat_id_from_obj_str c.1.1 = Ok c.1.2 /\
  (c.2 = chat_name_from_obj_str c.1.1 \/
   chat_name_from_obj_str c.1.1 = [] /\ (c.2 = NO_NAME \/ c.2 = SINGLE_CHAT)).

(** A discovered chat that the scanner returned at an offset of [raw], past
    the end of the list marker when there is one, and that holds a message
    collection. *)
Definition scanned_chat (raw : str) (c : list N * option Z * list N) : Prop :=
  exists j j2,
    stream_next_object raw j = (Some c.1.1, j2) /\
    balanced_object c.1.1 /\
    truthy_offset (find_messages_array_in c.1.1) = true /\
    forall start, find_chats_list_start raw = Ok start -> (start <= j)%nat.

Module MoreExamples.

(** A chat in which the second message of the author carries a text
    entity whose text is a number. *)
Definition bad_text_container : str :=
  quoted "{'name':'Team','id':7,'messages':[
 {'id':1,'type':'message','from':'Bob','from_id':'user5','text':'fine'},
 {'id':2,'type':'message','from':'Bob','from_id':'user5','text':['a',{'type':'bold','text':5}]},
 {'id':3,'type':'message','from':'Bob','from_id':'user5','text':'never reached'}
]}".

(** What follows the opening brace of an outer object that is cut off
    after a complete inner one. *)
Definition truncated_rest : str := quoted "'a':{'id':1},'b':'cut".



(** Three chats for the selection by name: the first contains the query,
    the second is the query. *)
Definition name_tiers : str :=
  quoted "{'chats':{'list':[
 {'name':'Team Alpha','id':1,'messages':[]},
 {'name':'TEAM','id':2,'messages':[]},
 {'name':'Beta','id':2,'messages':[]}
]}}".

Definition name_tiers_chats : list (list N * option Z * list N) :=
  Eval vm_compute in
    match list_all_chats name_tiers DEFAULT_CAP with
    | Ok chats => chats
    | Raise _ => []
    end.

(** Three records, two of them filed under the identifier 1. *)
Definition twice_filed : list json :=
  [JDict [(text "id", JInt 1); (text "type", JStr (text "message"));
          (text "text", JStr (text "first"))];
   JDict [(text "id", JInt 2); (text "type", JStr (text "service"))];
   JDict [(text "id", JStr (text "1")); (text "type", JStr (text "message"));
          (text "text", JStr (text "second"))]].

(** The second message of [bad_text_container]. *)
Definition bad_message : json :=
  Eval vm_compute in
    from_option id JNull
      (stream_parse_messages_from_container (R := Basic.runtime)
         bad_text_container !! 1%nat).

End MoreExamples.

(* ================================================================== *)
(** * Properties *)
(* ================================================================== *)

Local Open Scope nat_scope.

(** ** The scanner *)

(** Case analysis on every test of a conditional in the goal. *)
Ltac case_ifs :=
  repeat match goal with
         | |- context [if ?b then _ else _] => destruct b
         end.

Section Scanner.

Implicit Types (s rest pre post : str) (st : lex_state).

Lemma lex_run_snoc st w ch :
  lex_run st (w ++ [ch]) = lex_step (lex_run st w) ch.
Proof. unfold lex_run. by rewrite fold_left_app. Qed.

Lemma lex_run_cons st w ch :
  lex_run st (ch :: w) = lex_run (lex_step st ch) w.
Proof. reflexivity. Qed.

Lemma skip_loop_ge rest idx : idx <= skip_loop rest idx.
Proof.
  revert idx. induction rest as [|ch rest IH]; intros idx;
    cbn [skip_loop length]; [lia|].
  destruct (char_in ch SKIP); [|lia]. specialize (IH (S idx)). lia.
Qed.

Lemma skip_loop_le rest idx : skip_loop rest idx <= idx + length rest.
Proof.
  revert idx. induction rest as [|ch rest IH]; intros idx;
    cbn [skip_loop length]; [lia|].
  destruct (char_in ch SKIP); [|lia]. specialize (IH (S idx)). lia.
Qed.

(** Skipping a block of skip characters in front of a character that is
    not one stops at that character. *)
Lemma skip_loop_app pre ch post idx :
  Forall (fun c => char_in c SKIP = true) pre ->
  char_in ch SKIP = false ->
  skip_loop (pre ++ ch :: post) idx = idx + length pre.
Proof.
  intros Hpre Hch. revert idx.
  induction Hpre as [|c pre Hc _ IH]; intros idx;
    cbn [skip_loop length app].
  - rewrite Hch. lia.
  - rewrite Hc, IH. lia.
Qed.

Lemma skip_loop_all pre idx :
  Forall (fun c => char_in c SKIP = true) pre ->
  skip_loop pre idx = idx + length pre.
Proof.
  intros Hpre. revert idx.
  induction Hpre as [|c pre Hc _ IH]; intros idx;
    cbn [skip_loop length]; [lia|].
  rewrite Hc, IH. lia.
Qed.

(** One iteration of the second loop is one [lex_step], unless it is the
    closing brace that brings the depth back to zero. *)
Lemma scan_loop_step s start ch rest idx st :
  brace_depth (lex_step st ch) <> 0%Z ->
  scan_loop s start (ch :: rest) idx
    (brace_depth st) (in_string st) (escaped st) =
  scan_loop s start rest (S idx)
    (brace_depth (lex_step st ch)) (in_string (lex_step st ch))
    (escaped (lex_step st ch)).
Proof.
  destruct st as [i e d]. unfold lex_step. simpl.
  destruct i; [destruct e|]; simpl; try reflexivity.
  - destruct (ch =? BACKSLASH)%N; [reflexivity|].
    destruct (ch =? QUOTE)%N; reflexivity.
  - destruct (ch =? QUOTE)%N; [reflexivity|].
    destruct (ch =? LBRACE)%N; [reflexivity|].
    destruct (ch =? RBRACE)%N; [|reflexivity]. simpl.
    intros Hd. destruct (Z.eqb_spec (d - 1) 0); [contradiction|reflexivity].
Qed.

Lemma lex_step_depth st ch :
  (brace_depth st - 1 <= brace_depth (lex_step st ch) <= brace_depth st + 1)%Z.
Proof.
  destruct st as [i e d]. unfold lex_step. cbn.
  case_ifs; cbn; lia.
Qed.

Lemma scan_loop_close s start ch rest idx st :
  (0 < brace_depth st)%Z ->
  brace_depth (lex_step st ch) = 0%Z ->
  scan_loop s start (ch :: rest) idx
    (brace_depth st) (in_string st) (escaped st) =
  (Some (slice s start (S idx)), S idx).
Proof.
  destruct st as [i e d]. unfold lex_step. cbn. intros Hd.
  destruct i; [destruct e|]; cbn; try lia.
  - destruct (ch =? BACKSLASH)%N; [cbn; lia|].
    destruct (ch =? QUOTE)%N; cbn; lia.
  - destruct (ch =? QUOTE)%N; [cbn; lia|].
    destruct (ch =? LBRACE)%N; [cbn; lia|].
    destruct (ch =? RBRACE)%N; [|cbn; lia]. cbn.
    intros ->. reflexivity.
Qed.

(** The loop runs through a block [pre] that keeps the depth away from
    zero and returns at the character [ch] that brings it to zero. *)
Lemma scan_loop_found s start pre ch post idx st :
  (0 < brace_depth st)%Z ->
  (forall k, k < length pre ->
     brace_depth (lex_run st (take (S k) pre)) <> 0%Z) ->
  brace_depth (lex_run st (pre ++ [ch])) = 0%Z ->
  scan_loop s start (pre ++ ch :: post) idx
    (brace_depth st) (in_string st) (escaped st) =
  (Some (slice s start (S (idx + length pre))), S (idx + length pre)).
Proof.
  revert idx st. induction pre as [|c pre IH]; intros idx st Hst Hpre Hch.
  - cbn [app length]. rewrite Nat.add_0_r. by apply scan_loop_close.
  - assert (Hc : brace_depth (lex_step st c) <> 0%Z).
    { apply (Hpre 0). cbn. lia. }
    cbn [app]. rewrite scan_loop_step by exact Hc.
    rewrite IH.
    + cbn [length].
      by replace (S idx + length pre) with (idx + S (length pre)) by lia.
    + pose proof (lex_step_depth st c). lia.
    + intros k Hk. apply (Hpre (S k)). cbn. lia.
    + exact Hch.
Qed.

(** If the depth never returns to zero the loop runs to the end of the
    input and reports no fragment. *)
Lemma scan_loop_exhausted s start rest idx st :
  (forall k, k < length rest ->
     brace_depth (lex_run st (take (S k) rest)) <> 0%Z) ->
  scan_loop s start rest idx
    (brace_depth st) (in_string st) (escaped st) =
  (None, idx + length rest).
Proof.
  revert idx st. induction rest as [|c rest IH]; intros idx st Hrest.
  - simpl. by rewrite Nat.add_0_r.
  - rewrite scan_loop_step.
    2:{ apply (Hrest 0). simpl. lia. }
    rewrite IH.
    + simpl length. f_equal. lia.
    + intros k Hk. apply (Hrest (S k)). simpl. lia.
Qed.

(** The loop never moves the offset back, and a fragment costs at least
    one character. *)
Lemma scan_loop_progress s start rest idx d i e :
  idx <= (scan_loop s start rest idx d i e).2 /\
  (forall frag, (scan_loop s start rest idx d i e).1 = Some frag ->
     idx < (scan_loop s start rest idx d i e).2).
Proof.
  revert idx d i e. induction rest as [|ch rest IH]; intros idx d i e.
  - simpl. split; [lia|discriminate].
  - assert (Hrec : forall d' i' e',
      idx <= (scan_loop s start rest (S idx) d' i' e').2 /\
      (forall frag, (scan_loop s start rest (S idx) d' i' e').1 = Some frag ->
         idx < (scan_loop s start rest (S idx) d' i' e').2)).
    { intros d' i' e'. destruct (IH (S idx) d' i' e') as [H1 H2].
      split; [lia|]. intros frag Hf. specialize (H2 frag Hf). lia. }
    simpl.
    case_ifs; simpl; try apply Hrec.
    split; [lia|]. intros _ _. lia.
Qed.

Lemma scan_loop_frag s start rest idx d i e frag idx2 :
  scan_loop s start rest idx d i e = (Some frag, idx2) ->
  frag = slice s start idx2 /\ idx < idx2 <= idx + length rest.
Proof.
  revert idx d i e. induction rest as [|ch rest IH]; intros idx d i e.
  - discriminate.
  - assert (Hrec : forall d' i' e',
      scan_loop s start rest (S idx) d' i' e' = (Some frag, idx2) ->
      frag = slice s start idx2 /\ idx < idx2 <= idx + length (ch :: rest)).
    { intros d' i' e' H. destruct (IH _ _ _ _ H) as [? ?].
      split; [done|]. cbn [length]. lia. }
    cbn [scan_loop].
    case_ifs; try apply Hrec.
    intros [= <- <-]. split; [done|]. cbn [length]. lia.
Qed.

Lemma char_in_skip_lbrace : char_in LBRACE SKIP = false.
Proof. reflexivity. Qed.

(** Where the skipping loop stops when a brace follows the skip block. *)
Lemma skip_loop_to_brace s idx start :
  skips_to s idx start -> s !! start = Some LBRACE ->
  skip_loop (drop idx s) idx = start.
Proof.
  intros [Hle Hskip] Hbrace.
  assert (Hlen : start < length s) by (by eapply lookup_lt_Some).
  assert (Hsplit : drop idx s =
            slice s idx start ++ LBRACE :: drop (S start) s).
  { unfold slice. rewrite <- (take_drop (start - idx) (drop idx s)) at 1.
    f_equal. rewrite drop_drop.
    replace (idx + (start - idx)) with start by lia.
    by apply drop_S. }
  rewrite Hsplit, skip_loop_app.
  - unfold slice. rewrite length_take, length_drop. lia.
  - apply Forall_lookup. intros k c Hk.
    unfold slice in Hk. apply lookup_take_Some in Hk as [Hk Hlt].
    rewrite lookup_drop in Hk.
    destruct (Hskip (idx + k)) as (c' & Hc' & Hin); [lia|].
    congruence.
  - exact char_in_skip_lbrace.
Qed.

(** From the opening brace on, the scanner runs a second loop whose first
    iteration only sets the depth to one. *)
Lemma stream_next_object_at_brace s idx start :
  skips_to s idx start -> s !! start = Some LBRACE ->
  stream_next_object s idx =
  scan_loop s start (drop (S start) s) (S start) 1 false false.
Proof.
  intros Hskip Hbrace. unfold stream_next_object.
  rewrite (skip_loop_to_brace s idx start Hskip Hbrace). cbn zeta.
  rewrite Hbrace. cbn [negb].
  replace (LBRACE =? LBRACE)%N with true by reflexivity. cbn [negb].
  by rewrite (drop_S _ _ _ Hbrace).
Qed.

Lemma depth_through_open s start k :
  s !! start = Some LBRACE -> start <= k ->
  depth_through s start k =
  brace_depth (lex_run lex_open (take (k - start) (drop (S start) s))).
Proof.
  intros Hbrace Hk. unfold depth_through, slice.
  rewrite (drop_S _ _ _ Hbrace).
  replace (S k - start) with (S (k - start)) by lia.
  reflexivity.
Qed.

Lemma stream_next_object_found s idx start j :
  skips_to s idx start -> s !! start = Some LBRACE ->
  closes_at s start j ->
  stream_next_object s idx = (Some (slice s start (S j)), S j).
Proof.
  intros Hskip Hbrace ([Hsj Hjn] & Hzero & Hmin).
  rewrite (stream_next_object_at_brace s idx start Hskip Hbrace).
  set (rest := drop (S start) s).
  assert (Hj : start < j).
  { destruct (decide (j = start)) as [->|]; [|lia].
    rewrite depth_through_open in Hzero by done.
    rewrite Nat.sub_diag in Hzero. discriminate. }
  assert (Hrest : length rest = length s - S start)
    by (unfold rest; apply length_drop).
  destruct (lookup_lt_is_Some_2 rest (j - S start)) as [ch Hch]; [lia|].
  assert (Hsplit : rest = take (j - S start) rest ++ ch :: drop (S (j - S start)) rest).
  { rewrite <- (take_drop (j - S start) rest) at 1. f_equal.
    by apply drop_S. }
  rewrite Hsplit.
  change 1%Z with (brace_depth lex_open).
  change false with (in_string lex_open) at 1.
  change false with (escaped lex_open).
  rewrite scan_loop_found.
  - rewrite length_take. replace (S start + (j - S start) `min` length rest) with j by lia.
    reflexivity.
  - cbn. lia.
  - intros k Hk. rewrite length_take in Hk.
    rewrite take_take. replace (S k `min` (j - S start)) with (S k) by lia.
    specialize (Hmin (S start + k)).
    rewrite depth_through_open in Hmin by (done || lia).
    replace (S start + k - start) with (S k) in Hmin by lia.
    apply Hmin. lia.
  - rewrite depth_through_open in Hzero by (done || lia).
    replace (j - start) with (S (j - S start)) in Hzero by lia.
    fold rest in Hzero. by rewrite (take_S_r _ _ _ Hch) in Hzero.
Qed.

Lemma stream_next_object_unbalanced s idx start :
  skips_to s idx start -> s !! start = Some LBRACE ->
  (forall j, start <= j < length s -> depth_through s start j <> 0%Z) ->
  stream_next_object s idx = (None, length s).
Proof.
  intros Hskip Hbrace Hnz.
  assert (Hlen : start < length s) by (by eapply lookup_lt_Some).
  rewrite (stream_next_object_at_brace s idx start Hskip Hbrace).
  change 1%Z with (brace_depth lex_open).
  change false with (in_string lex_open) at 1.
  change false with (escaped lex_open).
  rewrite scan_loop_exhausted.
  - rewrite length_drop. f_equal. lia.
  - intros k Hk. rewrite length_drop in Hk.
    specialize (Hnz (S start + k)).
    rewrite depth_through_open in Hnz by (done || lia).
    replace (S start + k - start) with (S k) in Hnz by lia.
    apply Hnz. lia.
Qed.

(** What a call returns, whatever the input: the offset never moves back,
    and a fragment is a non-empty slice that ends at the new offset. *)
Lemma stream_next_object_progress s idx :
  idx <= (stream_next_object s idx).2 /\
  (forall frag, (stream_next_object s idx).1 = Some frag ->
     idx < (stream_next_object s idx).2 <= length s /\ frag <> []).
Proof.
  unfold stream_next_object. cbn zeta.
  pose proof (skip_loop_ge (drop idx s) idx) as Hge.
  set (start := skip_loop (drop idx s) idx) in *.
  destruct (s !! start) as [ch|] eqn:Hch; [|split; [done|discriminate]].
  destruct (negb (ch =? LBRACE)%N); [split; [done|discriminate]|].
  assert (Hlen : start < length s) by (by eapply lookup_lt_Some).
  destruct (scan_loop s start (drop start s) start 0 false false)
    as [[frag|] idx2] eqn:Hscan.
  - apply scan_loop_frag in Hscan as [-> Hidx]. rewrite length_drop in Hidx.
    cbn. split; [lia|]. intros ? [= <-]. split; [lia|].
    intros Hnil. apply (f_equal length) in Hnil.
    unfold slice in Hnil. rewrite length_take, length_drop in Hnil.
    cbn in Hnil. lia.
  - pose proof (scan_loop_progress s start (drop start s) start 0 false false)
      as [H1 _]. rewrite Hscan in H1. cbn in *. split; [lia|discriminate].
Qed.

Lemma slice_snoc s start j ch :
  s !! j = Some ch -> start <= j ->
  slice s start (S j) = slice s start j ++ [ch].
Proof.
  intros Hj Hle. unfold slice.
  replace (S j - start) with (S (j - start)) by lia.
  apply take_S_r. rewrite lookup_drop.
  by replace (start + (j - start)) with j by lia.
Qed.

Lemma depth_through_S s start j ch :
  s !! S j = Some ch -> start <= j ->
  depth_through s start (S j) =
  brace_depth (lex_step (lex_run lex_init (slice s start (S j))) ch).
Proof.
  intros Hj Hle. unfold depth_through.
  rewrite (slice_snoc s start (S j) ch) by (done || lia).
  by rewrite lex_run_snoc.
Qed.

Lemma depth_through_start s start :
  s !! start = Some LBRACE -> depth_through s start start = 1%Z.
Proof.
  intros Hbrace. rewrite depth_through_open, Nat.sub_diag by done.
  reflexivity.
Qed.

(** Before the matching brace the depth is positive. *)
Lemma depth_through_pos s start j k :
  s !! start = Some LBRACE -> closes_at s start j ->
  start <= k < j -> (0 < depth_through s start k)%Z.
Proof.
  intros Hbrace ([_ Hjn] & _ & Hmin) [Hsk Hkj].
  induction k as [|k IH].
  - assert (start = 0) as -> by lia.
    rewrite depth_through_start by done. lia.
  - destruct (decide (start = S k)) as [->|Hne].
    + rewrite depth_through_start by done. lia.
    + assert (Hk : (0 < depth_through s start k)%Z) by (apply IH; lia).
      destruct (lookup_lt_is_Some_2 s (S k)) as [ch Hch]; [lia|].
      pose proof (Hmin (S k) ltac:(lia)) as Hnz.
      rewrite (depth_through_S s start k ch) in * by (done || lia).
      pose proof (lex_step_depth (lex_run lex_init (slice s start (S k))) ch).
      unfold depth_through in Hk. lia.
Qed.

Lemma lex_step_to_zero st ch :
  (0 < brace_depth st)%Z -> brace_depth (lex_step st ch) = 0%Z ->
  ch = RBRACE /\ in_string st = false.
Proof.
  destruct st as [i e d]. unfold lex_step. cbn. intros Hd.
  destruct i; [destruct e|]; cbn; try lia.
  - destruct (ch =? BACKSLASH)%N; [cbn; lia|].
    destruct (ch =? QUOTE)%N; cbn; lia.
  - destruct (ch =? QUOTE)%N; [cbn; lia|].
    destruct (ch =? LBRACE)%N; [cbn; lia|].
    destruct (N.eqb_spec ch RBRACE); [done|cbn; lia].
Qed.

(** The matching brace is a closing brace outside of every string. *)
Lemma closes_at_rbrace s start j :
  s !! start = Some LBRACE -> closes_at s start j ->
  s !! j = Some RBRACE /\
  in_string (lex_run lex_init (slice s start j)) = false.
Proof.
  intros Hbrace Hclose.
  pose proof Hclose as ([Hsj Hjn] & Hzero & Hmin).
  destruct j as [|j].
  { assert (start = 0) as -> by lia.
    rewrite depth_through_start in Hzero by done. discriminate. }
  destruct (decide (start = S j)) as [->|Hne].
  { rewrite depth_through_start in Hzero by done. discriminate. }
  destruct (lookup_lt_is_Some_2 s (S j)) as [ch Hch]; [lia|].
  pose proof (depth_through_pos s start (S j) j Hbrace Hclose ltac:(lia)) as Hpos.
  rewrite (depth_through_S s start j ch) in Hzero by (done || lia).
  destruct (lex_step_to_zero _ _ Hpos Hzero) as [-> Hout]. done.
Qed.

Lemma find_seq_first (p : nat -> bool) a n j :
  find p (seq a n) = Some j ->
  a <= j < a + n /\ p j = true /\ forall k, a <= k < j -> p k = false.
Proof.
  revert a. induction n as [|n IH]; intros a; cbn [seq find]; [discriminate|].
  destruct (p a) eqn:Hpa.
  - intros [= <-]. repeat split; [lia|lia|done|]. intros k Hk. lia.
  - intros Hfind. destruct (IH _ Hfind) as (Hr & Hp & Hmin).
    repeat split; [lia|lia|done|].
    intros k Hk. destruct (decide (k = a)) as [->|]; [done|].
    apply Hmin. lia.
Qed.

Lemma matching_brace_closes s start j :
  matching_brace s start = Some j -> closes_at s start j.
Proof.
  unfold matching_brace. intros Hfind.
  apply find_seq_first in Hfind as (Hr & Hp & Hmin).
  repeat split; [lia|lia|by apply Z.eqb_eq|].
  intros k Hk. apply Z.eqb_neq, Hmin. lia.
Qed.

End Scanner.

(** C1. When a brace follows the skipped characters, the scanner returns the
    text from that brace through the brace that brings the depth back to
    zero, with the offset just past it; that brace is a closing brace that
    lies outside of every string literal. *)
Theorem C1_balanced_extraction (s : str) (idx start j : nat) :
  skips_to s idx start -> s !! start = Some LBRACE -> closes_at s start j ->
  stream_next_object s idx = (Some (slice s start (S j)), S j) /\
  s !! j = Some RBRACE /\
  in_string (lex_run lex_init (slice s start j)) = false.
Proof.
  intros Hskip Hbrace Hclose. split.
  - by apply stream_next_object_found.
  - by apply closes_at_rbrace.
Qed.

(** The braces inside the string value do not cut the object short. *)
Lemma C1_balanced_extraction_witness :
  let s := quoted "{'text':'a{b}c'}" in
  skips_to s 0 0 /\ s !! 0 = Some LBRACE /\ closes_at s 0 15 /\
  stream_next_object s 0 = (Some s, 16).
Proof.
  intros s.
  assert (Hskip : skips_to s 0 0) by (split; [lia|intros k Hk; lia]).
  assert (Hbrace : s !! 0 = Some LBRACE) by reflexivity.
  assert (Hclose : closes_at s 0 15)
    by (apply matching_brace_closes; vm_compute; reflexivity).
  split; [exact Hskip|]. split; [exact Hbrace|]. split; [exact Hclose|].
  exact (proj1 (C1_balanced_extraction s 0 0 15 Hskip Hbrace Hclose)).
Defined.

(** ** The loops that drive the scanner *)

Section Loops.

Context {R : Runtime}.

Lemma find_seq_none (p : nat -> bool) a n :
  find p (seq a n) = None -> forall k, a <= k < a + n -> p k = false.
Proof.
  revert a. induction n as [|n IH]; intros a; cbn [seq find]; [lia|].
  destruct (p a) eqn:Hpa; [discriminate|].
  intros Hfind k Hk. destruct (decide (k = a)) as [->|]; [done|].
  apply (IH _ Hfind). lia.
Qed.

Lemma matching_brace_none (s : str) start :
  matching_brace s start = None ->
  forall j, start <= j < length s -> depth_through s start j <> 0%Z.
Proof.
  unfold matching_brace. intros Hfind j Hj.
  apply Z.eqb_neq, (find_seq_none _ _ _ Hfind). lia.
Qed.

Lemma caller_step_progress advance (s : str) idx :
  (forall i, i < advance i) -> idx < caller_step advance s idx.
Proof.
  intros Hadv. unfold caller_step.
  destruct (stream_next_object_progress s idx) as [_ Hfrag].
  destruct (stream_next_object s idx) as [[frag|] idx2]; [|apply Hadv].
  destruct (Hfrag frag eq_refl) as [Hlt _]. cbn in Hlt. lia.
Qed.

Lemma iter_progress (f : nat -> nat) n idx :
  (forall i, i < f i) -> idx + n <= Nat.iter n f idx.
Proof.
  intros Hf. induction n as [|n IH]; simpl; [lia|].
  specialize (Hf (Nat.iter n f idx)). lia.
Qed.

(** More fuel than the characters left changes nothing. *)
Lemma parse_loop_fuel fuel fuel' (after : str) idx msgs :
  length after - idx <= fuel -> length after - idx <= fuel' ->
  parse_loop fuel after idx msgs = parse_loop fuel' after idx msgs.
Proof.
  revert fuel' idx msgs.
  induction fuel as [|fuel IH]; intros fuel' idx msgs Hf Hf'.
  - destruct fuel' as [|fuel']; [done|]. cbn [parse_loop].
    rewrite bool_decide_eq_false_2 by lia. done.
  - destruct fuel' as [|fuel'].
    + cbn [parse_loop]. rewrite bool_decide_eq_false_2 by lia. done.
    + cbn [parse_loop]. case_bool_decide as Hlt; [|done].
      destruct (stream_next_object after idx) as [[[|c f]|] idx2];
        try (apply IH; lia).
      case_bool_decide; apply IH; lia.
Qed.

Lemma chats_loop_fuel fuel fuel' (raw : str) cap i k out :
  length raw - i <= fuel -> length raw - i <= fuel' ->
  chats_loop fuel raw cap i k out = chats_loop fuel' raw cap i k out.
Proof.
  revert fuel' i k out.
  induction fuel as [|fuel IH]; intros fuel' i k out Hf Hf'.
  - destruct fuel' as [|fuel']; [done|]. cbn [chats_loop].
    rewrite bool_decide_eq_false_2 by lia. done.
  - destruct fuel' as [|fuel'].
    + cbn [chats_loop]. rewrite bool_decide_eq_false_2 by lia. done.
    + cbn [chats_loop]. case_bool_decide as Hlt; [|done].
      destruct (k <? cap)%Z; [|done]. cbn [andb].
      destruct (stream_next_object raw i) as [[[|c f]|] i2];
        try (apply IH; lia).
      destruct (truthy_offset _); [|case_bool_decide; apply IH; lia].
      destruct (chat_id_from_obj_str (c :: f)) as [cid|e]; [|done].
      cbn [mbind exc_bind]. case_bool_decide; apply IH; lia.
Qed.

End Loops.

(** C2. A call of the scanner never moves the offset back and moves it
    forward when it returns a fragment; an object that is still open at
    the end of the input gives no fragment and the offset of the end; a
    caller that moves forward by itself when it gets no fragment has left
    the input after as many iterations as there were characters ahead, and
    so the two loops of the program, which count their iterations with
    [fuel], end within that many. *)
Theorem C2_scanner_progress (s : str) (idx : nat) :
  let r := stream_next_object s idx in
  idx <= r.2 /\
  (forall frag, r.1 = Some frag -> idx < r.2) /\
  (forall start,
     skips_to s idx start -> s !! start = Some LBRACE ->
     (forall j, start <= j < length s -> depth_through s start j <> 0%Z) ->
     r = (None, length s)) /\
  (forall advance, (forall i, i < advance i) ->
     length s <= Nat.iter (length s - idx) (caller_step advance s) idx) /\
  (forall (R : Runtime) fuel msgs, length s - idx <= fuel ->
     parse_loop fuel s idx msgs = parse_loop (length s - idx) s idx msgs) /\
  (forall fuel cap k out, length s - idx <= fuel ->
     chats_loop fuel s cap idx k out = chats_loop (length s - idx) s cap idx k out).
Proof.
  cbn zeta. destruct (stream_next_object_progress s idx) as [Hge Hfrag].
  split; [exact Hge|]. split; [|split; [|split; [|split]]].
  - intros frag Hf. by destruct (Hfrag frag Hf) as [[? _] _].
  - intros start Hskip Hbrace Hopen.
    by apply (stream_next_object_unbalanced s idx start).
  - intros advance Hadv.
    pose proof (iter_progress (caller_step advance s) (length s - idx) idx
                  (fun i => caller_step_progress advance s i Hadv)).
    lia.
  - intros R fuel msgs Hfuel. apply parse_loop_fuel; lia.
  - intros fuel cap k out Hfuel. apply chats_loop_fuel; lia.
Qed.

(** An object whose string never ends: no fragment, the offset at the end
    of the input, and a caller that steps by one is out after 7 steps. *)
Lemma C2_scanner_progress_witness :
  let s := quoted "{'a':'}" in
  stream_next_object s 0 = (None, 7) /\
  7 <= Nat.iter 7 (caller_step S s) 0.
Proof.
  intros s.
  pose proof (C2_scanner_progress s 0) as (_ & _ & Hopen & Hiter & _).
  split.
  - apply (Hopen 0).
    + split; [lia|]. intros k Hk. lia.
    + reflexivity.
    + apply matching_brace_none. vm_compute. reflexivity.
  - apply (Hiter S). intros i. lia.
Defined.

(** ** Messages of a container *)

Section Messages.

Context {R : Runtime}.

Lemma skip_loop_shift (rest : str) a b :
  skip_loop rest (a + b) = a + skip_loop rest b.
Proof.
  revert b. induction rest as [|ch rest IH]; intros b; cbn [skip_loop]; [done|].
  destruct (char_in ch SKIP); [|done].
  replace (S (a + b)) with (a + S b) by lia. apply IH.
Qed.

Lemma slice_drop (s : str) k a b :
  slice s (k + a) (k + b) = slice (drop k s) a b.
Proof.
  unfold slice. rewrite drop_drop. f_equal. lia.
Qed.

(** The scanner reads the text from the offset on and nothing before it. *)
Lemma scan_loop_shift (s : str) k start rest i d a e :
  scan_loop s (k + start) rest (k + i) d a e =
  ((scan_loop (drop k s) start rest i d a e).1,
   k + (scan_loop (drop k s) start rest i d a e).2).
Proof.
  revert i d a e. induction rest as [|ch rest IH]; intros i d a e.
  - reflexivity.
  - cbn [scan_loop]. replace (S (k + i)) with (k + S i) by lia.
    case_ifs; try apply IH.
    cbn [fst snd]. by rewrite slice_drop.
Qed.

Lemma stream_next_object_shift (s : str) idx :
  stream_next_object s idx =
  ((stream_next_object (drop idx s) 0).1,
   idx + (stream_next_object (drop idx s) 0).2).
Proof.
  unfold stream_next_object. cbn zeta. rewrite drop_0.
  replace (skip_loop (drop idx s) idx)
    with (idx + skip_loop (drop idx s) 0)
    by (rewrite <- skip_loop_shift; f_equal; lia).
  set (start := skip_loop (drop idx s) 0).
  rewrite lookup_drop.
  destruct (s !! (idx + start)) as [ch|]; [|done].
  destruct (negb (ch =? LBRACE)%N); [done|].
  rewrite drop_drop. apply scan_loop_shift.
Qed.

(** The messages read from a text, from its first character on. *)
Lemma parse_loop_drop fuel (after : str) idx msgs :
  length after - idx <= fuel ->
  parse_loop fuel after idx msgs =
  msgs ++ parse_loop (length (drop idx after)) (drop idx after) 0 [].
Proof.
  remember (length after - idx) as n eqn:Hn.
  revert after idx msgs fuel Hn.
  induction n as [n IH] using lt_wf_ind.
  intros after idx msgs fuel -> Hfuel.
  destruct (decide (idx < length after)) as [Hlt|Hge].
  2:{ rewrite drop_ge by lia. cbn [length parse_loop]. rewrite app_nil_r.
      destruct fuel; [done|]. cbn [parse_loop].
      by rewrite bool_decide_eq_false_2 by lia. }
  rewrite length_drop.
  destruct fuel as [|fuel]; [lia|].
  destruct (length after - idx) as [|m] eqn:Hm; [lia|].
  cbn [parse_loop].
  rewrite length_drop, !bool_decide_eq_true_2 by lia.
  rewrite (stream_next_object_shift after idx).
  pose proof (stream_next_object_progress (drop idx after) 0) as [_ Hfrag].
  destruct (stream_next_object (drop idx after) 0) as [[[|c f]|] idx2];
    cbn [fst snd] in *.
  - rewrite (IH (length after - (idx + 1))) by (reflexivity || lia).
    rewrite (IH (length (drop idx after) - (0 + 1)) ltac:(rewrite length_drop; lia)
               (drop idx after) (0 + 1) [] m eq_refl)
      by (rewrite length_drop; lia).
    rewrite drop_drop. done.
  - destruct (Hfrag _ eq_refl) as [[Hpos Hle] _].
    rewrite length_drop in Hle.
    rewrite !bool_decide_eq_true_2 by lia.
    rewrite (IH (length after - (idx + idx2))) by (reflexivity || lia).
    rewrite (IH (length (drop idx after) - idx2) ltac:(rewrite length_drop; lia)
               (drop idx after) idx2 _ m eq_refl)
      by (rewrite length_drop; lia).
    rewrite drop_drop.
    destruct (json_loads (c :: f)); cbn [app]; [|done].
    by rewrite <- app_assoc.
  - rewrite (IH (length after - (idx + 1))) by (reflexivity || lia).
    rewrite (IH (length (drop idx after) - (0 + 1)) ltac:(rewrite length_drop; lia)
               (drop idx after) (0 + 1) [] m eq_refl)
      by (rewrite length_drop; lia).
    rewrite drop_drop. done.
Qed.

Lemma messages_of_unfold (after : str) :
  after <> [] ->
  messages_of after =
  match stream_next_object after 0 with
  | (Some (c :: f), idx2) => decoded (c :: f) ++ messages_of (drop idx2 after)
  | _ => messages_of (drop 1 after)
  end.
Proof.
  intros Hne. unfold messages_of.
  destruct after as [|c0 after]; [done|].
  cbn [length parse_loop]. rewrite bool_decide_eq_true_2 by lia.
  pose proof (stream_next_object_progress (c0 :: after) 0) as [_ Hfrag].
  destruct (stream_next_object (c0 :: after) 0) as [[[|c f]|] idx2];
    cbn [fst snd] in *.
  - rewrite parse_loop_drop by (cbn [length]; lia). done.
  - destruct (Hfrag _ eq_refl) as [[Hpos Hle] _]. cbn [length] in Hle.
    rewrite bool_decide_eq_true_2 by lia.
    rewrite parse_loop_drop by (cbn [length]; lia).
    unfold decoded. by destruct (json_loads (c :: f)).
  - rewrite parse_loop_drop by (cbn [length]; lia). done.
Qed.

Lemma stream_next_object_skip c (rest : str) :
  char_in c SKIP = true ->
  stream_next_object (c :: rest) 0 =
  ((stream_next_object rest 0).1, 1 + (stream_next_object rest 0).2).
Proof.
  intros Hc.
  assert (Hsame : stream_next_object (c :: rest) 0 = stream_next_object (c :: rest) 1).
  { unfold stream_next_object. cbn zeta. rewrite drop_0.
    cbn [skip_loop drop]. rewrite Hc, drop_0. done. }
  rewrite Hsame, stream_next_object_shift. cbn [drop]. by rewrite drop_0.
Qed.

Lemma stream_next_object_other c (rest : str) :
  char_in c SKIP = false -> c <> LBRACE ->
  stream_next_object (c :: rest) 0 = (None, 0).
Proof.
  intros Hc Hne. unfold stream_next_object. cbn zeta. rewrite drop_0.
  cbn [skip_loop]. rewrite Hc. cbn [lookup list_lookup].
  destruct (N.eqb_spec c LBRACE); [done|]. done.
Qed.

(** A character that does not open an object is passed over. *)
Lemma messages_of_nonbrace c (rest : str) :
  c <> LBRACE -> messages_of (c :: rest) = messages_of rest.
Proof.
  intros Hne. rewrite messages_of_unfold by done.
  destruct (char_in c SKIP) eqn:Hc.
  - rewrite stream_next_object_skip by done.
    destruct (stream_next_object rest 0) as [[[|c' f]|] idx2] eqn:Hscan;
      cbn [fst snd drop]; try (by rewrite drop_0).
    rewrite (messages_of_unfold rest).
    + by rewrite Hscan.
    + intros ->. discriminate.
  - rewrite stream_next_object_other by done. cbn [drop]. by rewrite drop_0.
Qed.

Lemma messages_of_garbage (garbage rest : str) :
  Forall (fun c => c <> LBRACE) garbage ->
  messages_of (garbage ++ rest) = messages_of rest.
Proof.
  induction 1 as [|c garbage Hc _ IH]; [done|].
  cbn [app]. by rewrite messages_of_nonbrace.
Qed.

Lemma closes_at_app (f rest : str) j :
  closes_at f 0 j -> closes_at (f ++ rest) 0 j.
Proof.
  assert (Hdepth : forall k, k < length f ->
            depth_through (f ++ rest) 0 k = depth_through f 0 k).
  { intros k Hk. unfold depth_through, slice. rewrite !drop_0.
    by rewrite take_app_le by lia. }
  intros ([Hsj Hjn] & Hzero & Hmin). split; [|split].
  - rewrite length_app. lia.
  - by rewrite Hdepth.
  - intros k Hk. rewrite Hdepth by lia. by apply Hmin.
Qed.

Lemma stream_next_object_balanced (f rest : str) :
  balanced_object f ->
  stream_next_object (f ++ rest) 0 = (Some f, length f).
Proof.
  intros [Hbrace Hclose].
  assert (Hlen : 0 < length f) by (by eapply lookup_lt_Some).
  rewrite (stream_next_object_found (f ++ rest) 0 0 (length f - 1)).
  - replace (S (length f - 1)) with (length f) by lia.
    unfold slice. rewrite drop_0, Nat.sub_0_r.
    by rewrite take_app_length.
  - split; [lia|]. intros k Hk. lia.
  - by rewrite lookup_app_l.
  - by apply closes_at_app.
Qed.

(** A balanced object is decoded, kept if the decoder accepts it, and the
    reading goes on right after it. *)
Lemma messages_of_object (f rest : str) :
  balanced_object f ->
  messages_of (f ++ rest) = decoded f ++ messages_of rest.
Proof.
  intros Hbal.
  assert (Hlen : 0 < length f) by (destruct Hbal; by eapply lookup_lt_Some).
  rewrite messages_of_unfold by (destruct f; [cbn in Hlen; lia|done]).
  rewrite stream_next_object_balanced by done.
  destruct f as [|c f]; [cbn in Hlen; lia|].
  by rewrite drop_app_length.
Qed.

(** Where the message collection starts: past a match that is not empty. *)
Lemma eat_length (lit s r : str) :
  eat lit s = Some r -> length s = length lit + length r.
Proof.
  revert s. induction lit as [|x lit IH]; intros [|y s]; cbn [eat length];
    try discriminate; try (by intros [= <-]).
  destruct (x =? y)%N; [|discriminate]. intros Heat.
  rewrite (IH _ Heat). lia.
Qed.

Lemma lstrip_length (s : str) : length (lstrip s) <= length s.
Proof.
  induction s as [|c s IH]; cbn [lstrip length]; [lia|].
  destruct (isspace c); cbn [length]; lia.
Qed.

Lemma messages_re_length (s r : str) :
  messages_re s = Some (tt, r) -> length r < length s.
Proof.
  unfold messages_re, eat_spaces. intros Hm.
  repeat match type of Hm with
         | context [eat ?l ?x] =>
             let E := fresh "E" in
             destruct (eat l x) eqn:E; cbn [mbind option_bind] in Hm;
             [|discriminate];
             apply eat_length in E;
             let n := eval vm_compute in (length l) in
             change (length l) with n in E
         end.
  injection Hm as <-.
  repeat match goal with
         | E : context [lstrip ?x] |- _ =>
             pose proof (lstrip_length x); generalize dependent (lstrip x); intros
         end.
  lia.
Qed.

Lemma re_search_end {G} (m : str -> option (G * str)) (s : str) pos g e :
  (forall s g r, m s = Some (g, r) -> length r < length s) ->
  re_search m s pos = Some (g, e) -> pos < e <= pos + length s.
Proof.
  intros Hm. revert pos. induction s as [|c s IH]; intros pos; cbn [re_search].
  - destruct (m []) as [[g' r]|] eqn:Hmatch; [|discriminate].
    apply Hm in Hmatch. cbn in Hmatch. lia.
  - destruct (m (c :: s)) as [[g' r]|] eqn:Hmatch.
    + intros [= <- <-]. apply Hm in Hmatch. cbn [length] in *. lia.
    + intros Hs. apply IH in Hs. cbn [length]. lia.
Qed.

Lemma find_messages_array_in_pos (container : str) start :
  find_messages_array_in container = Some start ->
  0 < start <= length container.
Proof.
  unfold find_messages_array_in.
  destruct (re_search messages_re container 0) as [[[] e]|] eqn:Hs; [|discriminate].
  intros [= <-]. apply re_search_end in Hs; [lia|].
  intros s [] r. apply messages_re_length.
Qed.

Lemma stream_parse_messages_from_container_of (container : str) start :
  find_messages_array_in container = Some start ->
  stream_parse_messages_from_container container =
  messages_of (drop start container).
Proof.
  intros Hstart. pose proof (find_messages_array_in_pos _ _ Hstart) as Hpos.
  unfold stream_parse_messages_from_container. cbn zeta. rewrite Hstart.
  destruct start as [|start]; [lia|]. reflexivity.
Qed.

End Messages.

(** C3. Two balanced objects with text between them, and before them,
    that opens no object: both are read, each is kept when the decoder
    accepts it and dropped when it does not, and the reading goes on after
    the second one. The result is a plain list: no exception leaves the
    reader. *)
Theorem C3_tolerant_recovery {R : Runtime}
    (container lead f1 garbage f2 tail : str) (start : nat) :
  find_messages_array_in container = Some start ->
  drop start container = lead ++ f1 ++ garbage ++ f2 ++ tail ->
  balanced_object f1 -> balanced_object f2 ->
  Forall (fun c => c <> LBRACE) lead ->
  Forall (fun c => c <> LBRACE) garbage ->
  stream_parse_messages_from_container container =
  decoded f1 ++ decoded f2 ++ messages_of tail.
Proof.
  intros Hstart Hdrop Hf1 Hf2 Hlead Hgarbage.
  rewrite (stream_parse_messages_from_container_of _ _ Hstart), Hdrop.
  rewrite messages_of_garbage by done.
  rewrite messages_of_object by done.
  rewrite messages_of_garbage by done.
  by rewrite messages_of_object by done.
Qed.

(** The example of the specification: both messages come out. *)
Lemma C3_tolerant_recovery_witness :
  stream_parse_messages_from_container (R := Basic.runtime)
    Examples.garbage_container =
  [Examples.message_1; Examples.message_2].
Proof.
  rewrite (C3_tolerant_recovery (R := Basic.runtime)
             Examples.garbage_container [] Examples.object_1 (text "GARBAGE")
             Examples.object_2 (text "]}") 35).
  - vm_compute. reflexivity.
  - vm_compute. reflexivity.
  - vm_compute. reflexivity.
  - split; [reflexivity|]. apply matching_brace_closes. vm_compute. reflexivity.
  - split; [reflexivity|]. apply matching_brace_closes. vm_compute. reflexivity.
  - constructor.
  - apply (bool_decide_unpack _). vm_compute. exact I.
Defined.

(** ** The message index and the rows *)

Section Rows.

Context {R : Runtime}.

Implicit Types (id_index : gmap Z json) (msg rmsg : json) (row : Row).

Lemma indexed_as_truthy n m : indexed_as n m = true -> truthy m = true.
Proof.
  destruct m as [| | | | | |d]; try discriminate.
  destruct d as [|kv d]; [discriminate|reflexivity].
Qed.

Lemma last_indexed_cons n m messages :
  last_indexed n (m :: messages) =
  match last_indexed n messages with
  | Some y => Some y
  | None => if indexed_as n m then Some m else None
  end.
Proof.
  unfold last_indexed. cbn [List.filter].
  destruct (indexed_as n m); [apply last_cons|].
  by destruct (last _).
Qed.

Lemma last_indexed_Some n messages m :
  last_indexed n messages = Some m -> m ∈ messages /\ indexed_as n m = true.
Proof.
  induction messages as [|m' messages IH]; [discriminate|].
  rewrite last_indexed_cons.
  destruct (last_indexed n messages) as [y|].
  - intros [= ->]. destruct (IH eq_refl). split; [by right|done].
  - destruct (indexed_as n m') eqn:Hm'; [|discriminate].
    intros [= ->]. split; [by left|done].
Qed.

(** The index holds, under every identifier, the last record filed under
    it; a later record overwrites an earlier one. *)
Lemma index_loop_lookup messages id_index0 id_index n :
  index_loop messages id_index0 = Ok id_index ->
  id_index !! n =
  match last_indexed n messages with
  | Some m => Some m
  | None => id_index0 !! n
  end.
Proof.
  revert id_index0.
  induction messages as [|m messages IH]; intros id_index0.
  { by intros [= <-]. }
  rewrite last_indexed_cons. cbn [index_loop].
  destruct m as [| | | | | |d]; try discriminate.
  cbn [dict_get mbind exc_bind indexed_as]. cbn zeta.
  destruct (eq_str _ (text "message")); cbn [negb andb].
  2:{ intros Hloop. rewrite (IH _ Hloop). by destruct (last_indexed n messages). }
  destruct (from_option id JNull (items_get (text "id") d)) as [| | | | | |] eqn:Emid;
    cbn [is_null negb andb].
  1:{ intros Hloop. rewrite (IH _ Hloop). by destruct (last_indexed n messages). }
  all: match goal with
       | |- context [py_int ?v] => destruct (py_int v) as [k|] eqn:Ek
       end.
  all: intros Hloop; rewrite (IH _ Hloop);
       destruct (last_indexed n messages); try done.
  all: destruct (Z.eqb_spec k n) as [->|Hk];
       [by rewrite lookup_insert_eq|by rewrite lookup_insert_ne].
Qed.

Lemma build_id_index_lookup messages id_index n :
  build_id_index messages = Ok id_index ->
  id_index !! n = last_indexed n messages.
Proof.
  intros Hidx. rewrite (index_loop_lookup _ _ _ n Hidx).
  by destruct (last_indexed n messages).
Qed.

(** What the reply fields hold when the message refers to the record [n]. *)
Lemma reply_context_resolved id_index messages reply_id n r_from r_date r_text :
  (forall k, id_index !! k = last_indexed k messages) ->
  reply_id <> JNull -> py_int reply_id = Some n ->
  reply_context id_index reply_id = Ok (r_from, r_date, r_text) ->
  match last_indexed n messages with
  | Some rmsg =>
      norm_sender rmsg = Ok r_from /\
      (exists date, dict_get rmsg (text "date") JNull = Ok date /\
                    r_date = py_or date (JStr [])) /\
      (exists t, extract_text rmsg = Ok t /\ r_text = strip t)
  | None => r_from = [] /\ r_date = JStr [] /\ r_text = []
  end.
Proof.
  intros Hindex Hnull Hint. unfold reply_context.
  assert (Hlook : match reply_id with
                  | JNull => None
                  | _ => match py_int reply_id with
                         | Some n => id_index !! n
                         | None => None
                         end
                  end = last_indexed n messages).
  { rewrite Hint, Hindex. by destruct reply_id. }
  rewrite Hlook.
  destruct (last_indexed n messages) as [rmsg|] eqn:Hlast.
  - apply last_indexed_Some in Hlast as [_ Hrmsg].
    rewrite (indexed_as_truthy _ _ Hrmsg).
    destruct (norm_sender rmsg) as [rf|]; cbn [mbind exc_bind]; [|discriminate].
    destruct (dict_get rmsg (text "date") JNull) as [rd|];
      cbn [mbind exc_bind]; [|discriminate].
    destruct (extract_text rmsg) as [rt|]; cbn [mbind exc_bind]; [|discriminate].
    intros [= <- <- <-]. eauto 10.
  - by intros [= <- <- <-].
Qed.

(** What a row tells about the message it was made from. *)
Lemma collect_row_Some id_index chat_name want uq user_query exact msg row :
  collect_row id_index chat_name want uq user_query exact msg = Ok (Some row) ->
  (exists ty, dict_get msg (text "type") JNull = Ok ty /\
              eq_str ty (text "message") = true) /\
  author_matches want uq user_query exact msg = Ok true /\
  (exists t, extract_text msg = Ok t /\ strip t <> [] /\ row_text row = strip t) /\
  dict_get msg (text "reply_to_message_id") JNull = Ok (row_reply_to_id row) /\
  reply_context id_index (row_reply_to_id row) =
    Ok (row_reply_from row, row_reply_date row, row_reply_text row) /\
  norm_sender msg = Ok (row_from row) /\
  norm_from_id msg = Ok (row_from_id row) /\
  dict_get msg (text "id") JNull = Ok (row_id row) /\
  dict_get msg (text "date") JNull = Ok (row_date row) /\
  row_chat row = chat_name.
Proof.
  unfold collect_row. intros Hrow.
  destruct (dict_get msg (text "type") JNull) as [ty|] eqn:Ety;
    cbn [mbind exc_bind] in Hrow; [|discriminate].
  destruct (eq_str ty (text "message")) eqn:Hty; cbn [negb] in Hrow; [|discriminate].
  destruct (author_matches want uq user_query exact msg) as [[|]|] eqn:Hkeep;
    cbn [mbind exc_bind negb] in Hrow; try discriminate.
  destruct (extract_text msg) as [t|] eqn:Et;
    cbn [mbind exc_bind] in Hrow; [|discriminate].
  case_bool_decide as Hstrip; [discriminate|].
  destruct (dict_get msg (text "id") JNull) as [mid|] eqn:Emid;
    cbn [mbind exc_bind] in Hrow; [|discriminate].
  destruct (dict_get msg (text "date") JNull) as [date|] eqn:Edate;
    cbn [mbind exc_bind] in Hrow; [|discriminate].
  destruct (dict_get msg (text "reply_to_message_id") JNull) as [reply_id|] eqn:Ereply;
    cbn [mbind exc_bind] in Hrow; [|discriminate].
  destruct (reply_context id_index reply_id) as [[[r_from r_date] r_text]|] eqn:Ectx;
    cbn [mbind exc_bind] in Hrow; [|discriminate].
  destruct (norm_sender msg) as [sender|] eqn:Esender;
    cbn [mbind exc_bind] in Hrow; [|discriminate].
  destruct (norm_from_id msg) as [fid|] eqn:Efid;
    cbn [mbind exc_bind] in Hrow; [|discriminate].
  injection Hrow as <-. cbn. eauto 20.
Qed.

(** Every row comes from one message of the list, in one iteration. *)
Lemma rows_loop_elem id_index chat_name want uq user_query exact
    messages rows0 rows row :
  rows_loop id_index chat_name want uq user_query exact messages rows0 = Ok rows ->
  row ∈ rows ->
  row ∈ rows0 \/
  exists msg, msg ∈ messages /\
    collect_row id_index chat_name want uq user_query exact msg = Ok (Some row).
Proof.
  revert rows0. induction messages as [|m messages IH]; intros rows0.
  { intros [= <-]. by left. }
  cbn [rows_loop].
  destruct (collect_row id_index chat_name want uq user_query exact m)
    as [r|] eqn:Hm; cbn [mbind exc_bind]; [|discriminate].
  intros Hloop Hin. destruct (IH _ Hloop Hin) as [Hin0|(msg & Hmsg & Hrow)].
  - destruct r as [r|]; [|by left].
    apply elem_of_app in Hin0 as [Hin0|Hin0]; [by left|].
    apply list_elem_of_singleton in Hin0 as ->.
    right. exists m. split; [by left|done].
  - right. exists msg. split; [by right|done].
Qed.

(** The rows of a container, unfolded: the index, the wanted identifier
    and the lowered name fragment that the loop works with. *)
Lemma collect_rows_elem container chat_name user_id user_query exact rows row :
  collect_rows_from_container container chat_name user_id user_query exact = Ok rows ->
  row ∈ rows ->
  exists id_index msg,
    build_id_index (stream_parse_messages_from_container container) = Ok id_index /\
    msg ∈ stream_parse_messages_from_container container /\
    collect_row id_index chat_name
      (match user_id with Some _ => want_user_id_string user_id | None => None end)
      (if truthy_str user_query then str_lower (from_option id [] user_query) else [])
      user_query exact msg = Ok (Some row).
Proof.
  unfold collect_rows_from_container. cbn zeta.
  destruct (build_id_index _) as [id_index|] eqn:Hidx;
    cbn [mbind exc_bind]; [|discriminate].
  intros Hloop Hin.
  destruct (rows_loop_elem _ _ _ _ _ _ _ _ _ _ Hloop Hin) as [Hnil|(msg & Hmsg & Hrow)].
  - by apply elem_of_nil in Hnil.
  - eauto.
Qed.

End Rows.

(** C4. A row that refers to the record [n]: when a record of type
    [message] with that identifier was read from the same container, the
    reply fields are the normalised sender, the date and the flattened and
    trimmed text of that record (the last one, should several carry the
    identifier); when there is none, the three fields are empty and the
    identifier referred to is still in the row. *)
Theorem C4_reply_resolution {R : Runtime}
    (container chat_name : str) (user_id : option Z)
    (user_query : option str) (exact : bool) (rows : list Row) (row : Row) :
  collect_rows_from_container container chat_name user_id user_query exact
    = Ok rows ->
  row ∈ rows ->
  let messages := stream_parse_messages_from_container container in
  (exists msg, msg ∈ messages /\
     dict_get msg (text "reply_to_message_id") JNull = Ok (row_reply_to_id row)) /\
  forall n, row_reply_to_id row <> JNull -> py_int (row_reply_to_id row) = Some n ->
    match last_indexed n messages with
    | Some rmsg =>
        norm_sender rmsg = Ok (row_reply_from row) /\
        (exists date, dict_get rmsg (text "date") JNull = Ok date /\
                      row_reply_date row = py_or date (JStr [])) /\
        (exists t, extract_text rmsg = Ok t /\ row_reply_text row = strip t)
    | None =>
        row_reply_from row = [] /\ row_reply_date row = JStr [] /\
        row_reply_text row = []
    end.
Proof.
  intros Hrows Hin messages.
  destruct (collect_rows_elem _ _ _ _ _ _ _ Hrows Hin) as (id_index & msg & Hidx & Hmsg & Hrow).
  apply collect_row_Some in Hrow as (_ & _ & _ & Hreply & Hctx & _).
  split; [by exists msg|].
  intros n Hnull Hint.
  apply (reply_context_resolved id_index messages (row_reply_to_id row) n); try done.
  intros k. by apply build_id_index_lookup.
Qed.

(** The example of the specification: the reply to the record 5 carries
    its text, the reply to the absent record 99 carries nothing but the
    identifier. *)
Lemma C4_reply_resolution_witness :
  let rows := [Examples.row_6; Examples.row_7] in
  let messages :=
    stream_parse_messages_from_container (R := Basic.runtime)
      Examples.reply_container in
  collect_rows_from_container (R := Basic.runtime) Examples.reply_container
    (text "Team") (Some 305696040%Z) None false = Ok rows /\
  (last_indexed (R := Basic.runtime) 5 messages = Some Examples.message_5 /\
   row_reply_to_id Examples.row_6 = JInt 5 /\
   row_reply_text Examples.row_6 = text "original") /\
  (last_indexed (R := Basic.runtime) 99 messages = None /\
   row_reply_to_id Examples.row_7 = JInt 99 /\
   row_reply_text Examples.row_7 = []).
Proof.
  intros rows messages.
  assert (Hrows : collect_rows_from_container (R := Basic.runtime)
            Examples.reply_container (text "Team") (Some 305696040%Z) None false
            = Ok rows) by (vm_compute; reflexivity).
  assert (H5 : last_indexed (R := Basic.runtime) 5 messages = Some Examples.message_5)
    by (vm_compute; reflexivity).
  assert (H99 : last_indexed (R := Basic.runtime) 99 messages = None)
    by (vm_compute; reflexivity).
  split; [exact Hrows|]. split.
  - split; [exact H5|]. split; [reflexivity|].
    destruct (C4_reply_resolution (R := Basic.runtime) _ _ _ _ _ rows
                Examples.row_6 Hrows ltac:(by left)) as [_ Hres].
    specialize (Hres 5%Z ltac:(discriminate) eq_refl).
    fold messages in Hres. rewrite H5 in Hres.
    destruct Hres as (_ & _ & (t & Ht & ->)).
    vm_compute in Ht. injection Ht as <-. vm_compute. reflexivity.
  - split; [exact H99|]. split; [reflexivity|].
    destruct (C4_reply_resolution (R := Basic.runtime) _ _ _ _ _ rows
                Examples.row_7 Hrows ltac:(right; by left)) as [_ Hres].
    specialize (Hres 99%Z ltac:(discriminate) eq_refl).
    fold messages in Hres. rewrite H99 in Hres.
    by destruct Hres as (_ & _ & ->).
Defined.

(** ** The author filter *)

Section Filter.

Context {R : Runtime}.

Lemma want_user_id_string_truthy (U : Z) :
  truthy_str (want_user_id_string (Some U)) = true.
Proof. reflexivity. Qed.

(** With an author identifier the filter looks at [from_id] only. *)
Lemma author_matches_by_id (U : Z) uq user_query exact msg :
  author_matches (want_user_id_string (Some U)) uq user_query exact msg =
  fid ← norm_from_id msg; Ok (str_eqb fid (text "user" ++ dec_of_Z U)).
Proof.
  unfold author_matches. by rewrite want_user_id_string_truthy.
Qed.

Lemma collect_row_by_id id_index chat_name (U : Z) uq uq' user_query
    user_query' exact exact' msg :
  collect_row id_index chat_name (want_user_id_string (Some U))
    uq user_query exact msg =
  collect_row id_index chat_name (want_user_id_string (Some U))
    uq' user_query' exact' msg.
Proof.
  unfold collect_row.
  by rewrite (author_matches_by_id U uq user_query exact),
             (author_matches_by_id U uq' user_query' exact').
Qed.

Lemma rows_loop_by_id id_index chat_name (U : Z) uq uq' user_query
    user_query' exact exact' messages rows :
  rows_loop id_index chat_name (want_user_id_string (Some U))
    uq user_query exact messages rows =
  rows_loop id_index chat_name (want_user_id_string (Some U))
    uq' user_query' exact' messages rows.
Proof.
  revert rows. induction messages as [|m messages IH]; intros rows; [done|].
  cbn [rows_loop].
  rewrite (collect_row_by_id _ _ U uq uq' user_query user_query' exact exact').
  destruct (collect_row _ _ _ _ _ _ m) as [r|]; cbn [mbind exc_bind]; [|done].
  apply IH.
Qed.

(** Without an identifier the filter compares sender names. *)
Lemma author_matches_by_name (query : str) exact msg sender :
  query <> [] -> norm_sender msg = Ok sender ->
  author_matches None (str_lower query) (Some query) exact msg =
  Ok (if exact then str_eqb sender query
      else contains (str_lower query) (str_lower sender)).
Proof.
  intros Hq Hsender. unfold author_matches. cbn [truthy_str].
  rewrite Hsender. cbn [mbind exc_bind].
  destruct query as [|c query]; [done|]. by destruct exact.
Qed.

(** On a [dict] the filter never raises. *)
Lemma author_matches_dict want uq user_query exact d :
  exists keep, author_matches want uq user_query exact (JDict d) = Ok keep.
Proof.
  unfold author_matches, norm_from_id, norm_sender.
  cbn [dict_get mbind exc_bind].
  destruct (truthy_str want).
  - destruct (from_option id JNull (items_get (text "from_id") d)); eauto.
  - destruct exact; eauto.
Qed.

Lemma str_eqb_eq (a b : str) : str_eqb a b = true -> a = b.
Proof. unfold str_eqb. by intros ?%bool_decide_eq_true. Qed.

End Filter.

(** C5. With an author identifier [U], every row comes from a message
    whose [from_id], as a string, is ["user"] followed by the decimal
    digits of [U]; the filter is a function of [from_id] alone, and a name
    fragment or the exact flag given along with [U] change nothing. *)
Theorem C5_author_filter_by_id {R : Runtime}
    (container chat_name : str) (U : Z)
    (user_query : option str) (exact : bool) (rows : list Row) :
  collect_rows_from_container container chat_name (Some U) user_query exact
    = Ok rows ->
  (forall row, row ∈ rows ->
     row_from_id row = text "user" ++ dec_of_Z U /\
     exists msg, msg ∈ stream_parse_messages_from_container container /\
       norm_from_id msg = Ok (text "user" ++ dec_of_Z U)) /\
  (forall msg uq user_query' exact',
     author_matches (want_user_id_string (Some U)) uq user_query' exact' msg =
     fid ← norm_from_id msg; Ok (str_eqb fid (text "user" ++ dec_of_Z U))) /\
  (forall user_query' exact',
     collect_rows_from_container container chat_name (Some U) user_query' exact'
       = Ok rows) /\
  want_user_id_string (Some 305696040%Z) = Some (text "user305696040").
Proof.
  intros Hrows. split; [|split; [|split]].
  - intros row Hin.
    destruct (collect_rows_elem _ _ _ _ _ _ _ Hrows Hin)
      as (id_index & msg & _ & Hmsg & Hrow).
    apply collect_row_Some in Hrow as (_ & Hkeep & _ & _ & _ & _ & Hfid & _).
    rewrite author_matches_by_id, Hfid in Hkeep. cbn [mbind exc_bind] in Hkeep.
    injection Hkeep as Hkeep. apply str_eqb_eq in Hkeep.
    split; [exact Hkeep|]. exists msg. split; [exact Hmsg|].
    rewrite Hfid. f_equal. exact Hkeep.
  - intros msg uq user_query' exact'. apply author_matches_by_id.
  - intros user_query' exact'. rewrite <- Hrows.
    unfold collect_rows_from_container. cbn zeta.
    destruct (build_id_index _) as [id_index|]; cbn [mbind exc_bind]; [|done].
    apply rows_loop_by_id.
  - vm_compute. reflexivity.
Qed.

(** The author 305696040 in the example chat: two rows, both of
    [user305696040], and the same two whatever name is given along. *)
Lemma C5_author_filter_by_id_witness :
  let rows := [Examples.row_6; Examples.row_7] in
  collect_rows_from_container (R := Basic.runtime) Examples.reply_container
    (text "Team") (Some 305696040%Z) None false = Ok rows /\
  Forall (fun row => row_from_id row = text "user305696040") rows /\
  collect_rows_from_container (R := Basic.runtime) Examples.reply_container
    (text "Team") (Some 305696040%Z) (Some (text "Alice")) true = Ok rows.
Proof.
  intros rows.
  assert (Hrows : collect_rows_from_container (R := Basic.runtime)
            Examples.reply_container (text "Team") (Some 305696040%Z) None false
            = Ok rows) by (vm_compute; reflexivity).
  destruct (C5_author_filter_by_id (R := Basic.runtime) _ _ _ _ _ _ Hrows)
    as (Hfrom & _ & Hsame & _).
  split; [exact Hrows|]. split.
  - apply Forall_forall. intros row Hin. by destruct (Hfrom row Hin).
  - apply Hsame.
Defined.

(** C6, as the program has it. Without an author identifier and with a
    name [query]: in the exact mode a message passes when its normalised
    sender name is [query]; otherwise when the lowered [query] occurs in
    the lowered normalised sender name, code point by code point. Every
    row then comes from such a sender. *)
Theorem C6_author_filter_by_name {R : Runtime}
    (container chat_name query : str) (exact : bool) (rows : list Row) :
  query <> [] ->
  collect_rows_from_container container chat_name None (Some query) exact
    = Ok rows ->
  (forall msg sender, norm_sender msg = Ok sender ->
     author_matches None (str_lower query) (Some query) exact msg =
     Ok (if exact then str_eqb sender query
         else contains (str_lower query) (str_lower sender))) /\
  (forall row, row ∈ rows ->
     (exists msg, msg ∈ stream_parse_messages_from_container container /\
        norm_sender msg = Ok (row_from row)) /\
     if exact then row_from row = query
     else contains (str_lower query) (str_lower (row_from row)) = true).
Proof.
  intros Hq Hrows. split.
  - intros msg sender. by apply author_matches_by_name.
  - intros row Hin.
    destruct (collect_rows_elem _ _ _ _ _ _ _ Hrows Hin)
      as (id_index & msg & _ & Hmsg & Hrow).
    assert (Huq : (if truthy_str (Some query)
                   then str_lower (from_option id [] (Some query)) else [])
                  = str_lower query) by (by destruct query).
    rewrite Huq in Hrow.
    apply collect_row_Some in Hrow as (_ & Hkeep & _ & _ & _ & Hsender & _).
    rewrite (author_matches_by_name query exact msg _ Hq Hsender) in Hkeep.
    injection Hkeep as Hkeep.
    split; [by exists msg|].
    destruct exact; [by apply str_eqb_eq|done].
Qed.

(** The Cyrillic fragment [Тат] finds the sender [Татьяна]. *)
Lemma C6_author_filter_by_name_witness :
  text "Тат" <> [] /\
  collect_rows_from_container (R := Basic.runtime) Examples.reply_container
    (text "Team") None (Some (text "Тат")) false = Ok [Examples.row_9] /\
  contains (Basic.lower (text "Тат")) (Basic.lower (row_from Examples.row_9))
    = true.
Proof.
  assert (Hq : text "Тат" <> []) by discriminate.
  assert (Hrows : collect_rows_from_container (R := Basic.runtime)
            Examples.reply_container (text "Team") None (Some (text "Тат")) false
            = Ok [Examples.row_9]) by (vm_compute; reflexivity).
  split; [exact Hq|]. split; [exact Hrows|].
  destruct (C6_author_filter_by_name (R := Basic.runtime) _ _ _ _ _ Hq Hrows)
    as [_ Hrow].
  destruct (Hrow Examples.row_9 ltac:(by left)) as [_ Hmatch].
  exact Hmatch.
Defined.

(** The Latin fragment [tan] does not occur in the lowered [Татьяна]: the
    message of that sender does not pass the filter and no row is made. *)
Lemma C6_tan_counterexample :
  Examples.reply_messages !! 4 = Some Examples.message_9 /\
  norm_sender (R := Basic.runtime) Examples.message_9 = Ok (text "Татьяна") /\
  contains (Basic.lower (text "tan")) (Basic.lower (text "Татьяна")) = false /\
  author_matches (R := Basic.runtime) None (Basic.lower (text "tan"))
    (Some (text "tan")) false Examples.message_9 = Ok false /\
  collect_rows_from_container (R := Basic.runtime) Examples.reply_container
    (text "Team") None (Some (text "tan")) false = Ok [].
Proof. repeat split; vm_compute; reflexivity. Qed.

(** ** The text of a message *)

Section Text.

Context {R : Runtime}.

Lemma join_text_parts (l : list json) :
  Forall plain_element l -> join (text_parts l) = Ok (concat (map piece l)).
Proof.
  induction 1 as [|x l Hx _ IH]; [done|].
  destruct x as [| | | |s| |d]; cbn [text_parts map concat piece]; try done.
  - cbn [join]. by rewrite IH.
  - cbn [plain_element] in Hx.
    destruct (items_get (text "text") d) as [[| | | |s| |]|];
      try done; cbn [from_option id join]; by rewrite IH.
Qed.

Lemma extract_text_flatten (d : list (str * json)) :
  let t := from_option id (JStr []) (items_get (text "text") d) in
  match t with
  | JList l => Forall plain_element l
  | _ => True
  end ->
  extract_text (JDict d) = Ok (flatten t).
Proof.
  cbn zeta. unfold extract_text. cbn [dict_get mbind exc_bind].
  destruct (from_option id (JStr []) (items_get (text "text") d)); try done.
  apply join_text_parts.
Qed.

(** A message whose trimmed text is empty makes no row. *)
Lemma collect_row_empty_text id_index chat_name want uq user_query exact msg t :
  extract_text msg = Ok t -> strip t = [] ->
  collect_row id_index chat_name want uq user_query exact msg = Ok None.
Proof.
  intros Ht Hstrip. unfold collect_row.
  destruct msg as [| | | | | |d]; try discriminate.
  cbn [dict_get mbind exc_bind].
  destruct (eq_str _ (text "message")); cbn [negb]; [|done].
  destruct (author_matches_dict want uq user_query exact d) as [keep ->].
  cbn [mbind exc_bind]. destruct keep; cbn [negb]; [|done].
  rewrite Ht. cbn [mbind exc_bind].
  by rewrite bool_decide_eq_true_2.
Qed.

(** *** The rows are produced

    A decoded record is well formed when it is a [dict] whose [text] is a
    string, or a list whose object elements carry string texts, or no list
    at all. On well-formed records no exception is raised. *)

Lemma extract_text_well_formed m :
  well_formed m -> exists t, extract_text m = Ok t.
Proof.
  destruct m as [| | | | | |d]; try done. cbn [well_formed].
  intros Hwf. rewrite extract_text_flatten by done. eauto.
Qed.

Lemma index_loop_total messages id_index0 :
  Forall well_formed messages ->
  exists id_index, index_loop messages id_index0 = Ok id_index.
Proof.
  intros Hwf. revert id_index0.
  induction Hwf as [|m messages Hm _ IH]; intros id_index0; [by eexists|].
  destruct m as [| | | | | |d]; try done.
  cbn [index_loop dict_get mbind exc_bind].
  destruct (negb _); [apply IH|].
  destruct (from_option id JNull (items_get (text "id") d)); try apply IH.
  all: match goal with
       | |- context [py_int ?v] => destruct (py_int v)
       end; apply IH.
Qed.

Lemma reply_context_total id_index reply_id :
  (forall k m, id_index !! k = Some m -> well_formed m) ->
  exists r, reply_context id_index reply_id = Ok r.
Proof.
  intros Hwf. unfold reply_context.
  set (rmsg := match reply_id with JNull => None | _ => _ end).
  assert (Hr : forall m, rmsg = Some m -> well_formed m).
  { intros m. unfold rmsg.
    destruct reply_id; try discriminate.
    all: match goal with
         | |- context [py_int ?v] => destruct (py_int v) as [k|]
         end; try discriminate; apply Hwf. }
  destruct rmsg as [m|]; [|by eexists].
  specialize (Hr m eq_refl).
  destruct (truthy m); [|by eexists].
  destruct (extract_text_well_formed m Hr) as [t Ht].
  destruct m as [| | | | | |d]; try done.
  unfold norm_sender. cbn [dict_get mbind exc_bind].
  rewrite Ht. cbn [mbind exc_bind]. by eexists.
Qed.

Lemma collect_row_total id_index chat_name want uq user_query exact msg :
  (forall k m, id_index !! k = Some m -> well_formed m) ->
  well_formed msg ->
  exists r, collect_row id_index chat_name want uq user_query exact msg = Ok r.
Proof.
  intros Hidx Hwf. unfold collect_row.
  destruct (extract_text_well_formed msg Hwf) as [t Ht].
  destruct msg as [| | | | | |d]; try done.
  cbn [dict_get mbind exc_bind].
  destruct (negb _); [by eexists|].
  destruct (author_matches_dict want uq user_query exact d) as [keep ->].
  cbn [mbind exc_bind]. destruct (negb keep); [by eexists|].
  rewrite Ht. cbn [mbind exc_bind].
  destruct (bool_decide _); [by eexists|].
  destruct (reply_context_total id_index
              (from_option id JNull (items_get (text "reply_to_message_id") d)) Hidx)
    as [[[r_from r_date] r_text] ->].
  unfold norm_sender, norm_from_id. cbn [dict_get mbind exc_bind].
  destruct (from_option id JNull (items_get (text "from_id") d)); by eexists.
Qed.

Lemma rows_loop_total id_index chat_name want uq user_query exact messages rows0 :
  (forall k m, id_index !! k = Some m -> well_formed m) ->
  Forall well_formed messages ->
  exists rows,
    rows_loop id_index chat_name want uq user_query exact messages rows0 = Ok rows.
Proof.
  intros Hidx Hwf. revert rows0.
  induction Hwf as [|m messages Hm _ IH]; intros rows0; [by eexists|].
  cbn [rows_loop].
  destruct (collect_row_total id_index chat_name want uq user_query exact m Hidx Hm)
    as [r ->].
  cbn [mbind exc_bind]. apply IH.
Qed.

(** When every record read from the container is well formed, the rows
    are produced: no exception is raised. *)
Lemma collect_rows_from_container_total container chat_name user_id
    user_query exact :
  Forall well_formed (stream_parse_messages_from_container container) ->
  exists rows,
    collect_rows_from_container container chat_name user_id user_query exact
      = Ok rows.
Proof.
  intros Hwf. unfold collect_rows_from_container. cbn zeta.
  destruct (index_loop_total _ ∅ Hwf) as [id_index Hidx].
  unfold build_id_index. rewrite Hidx. cbn [mbind exc_bind].
  apply rows_loop_total; [|done].
  intros k m Hk.
  rewrite (build_id_index_lookup _ _ k Hidx) in Hk.
  apply last_indexed_Some in Hk as [Hin _].
  by eapply (proj1 (Forall_forall _ _) Hwf).
Qed.

End Text.

(** C9. The text of every row is not empty: it is the trimmed text of a
    message of the container; a message whose trimmed text is empty makes
    no row, whatever the author filter says; and the text of a message is
    its [text] string as it is or, for a list, the string elements and the
    [text] properties of the object elements, one after the other. *)
Theorem C9_nonempty_text {R : Runtime}
    (container chat_name : str) (user_id : option Z)
    (user_query : option str) (exact : bool) (rows : list Row) :
  collect_rows_from_container container chat_name user_id user_query exact
    = Ok rows ->
  (forall row, row ∈ rows ->
     row_text row <> [] /\
     exists msg t, msg ∈ stream_parse_messages_from_container container /\
       extract_text msg = Ok t /\ row_text row = strip t) /\
  (forall id_index want uq msg t,
     extract_text msg = Ok t -> strip t = [] ->
     collect_row id_index chat_name want uq user_query exact msg = Ok None) /\
  (forall d,
     let t := from_option id (JStr []) (items_get (text "text") d) in
     match t with
     | JList l => Forall plain_element l
     | _ => True
     end ->
     extract_text (JDict d) = Ok (flatten t)).
Proof.
  intros Hrows. split; [|split].
  - intros row Hin.
    destruct (collect_rows_elem _ _ _ _ _ _ _ Hrows Hin)
      as (id_index & msg & _ & Hmsg & Hrow).
    apply collect_row_Some in Hrow as (_ & _ & (t & Ht & Hne & Htext) & _).
    split; [by rewrite Htext|]. by exists msg, t.
  - intros id_index want uq msg t. apply collect_row_empty_text.
  - intros d. apply extract_text_flatten.
Qed.

(** In the example chat the message 8 of the wanted author has a text of
    white space only and makes no row; the list text of the message 9
    reads [see here now]. *)
Lemma C9_nonempty_text_witness :
  let rows := [Examples.row_6; Examples.row_7] in
  collect_rows_from_container (R := Basic.runtime) Examples.reply_container
    (text "Team") (Some 305696040%Z) None false = Ok rows /\
  Forall (fun row => row_text row <> []) rows /\
  (Examples.reply_messages !! 3 = Some Examples.message_8 /\
   norm_from_id (R := Basic.runtime) Examples.message_8
     = Ok (text "user305696040") /\
   collect_row (R := Basic.runtime) ∅ (text "Team")
     (Some (text "user305696040")) [] None false Examples.message_8 = Ok None) /\
  extract_text Examples.message_9 = Ok (text "see here now").
Proof.
  intros rows.
  assert (Hrows : collect_rows_from_container (R := Basic.runtime)
            Examples.reply_container (text "Team") (Some 305696040%Z) None false
            = Ok rows) by (vm_compute; reflexivity).
  destruct (C9_nonempty_text (R := Basic.runtime) _ _ _ _ _ _ Hrows)
    as (Hne & Hskip & Hflat).
  split; [exact Hrows|]. split; [|split; [split; [|split]|]].
  - apply Forall_forall. intros row Hin. by destruct (Hne row Hin).
  - reflexivity.
  - reflexivity.
  - apply (Hskip ∅ _ _ _ (text "   ")); reflexivity.
  - unfold Examples.message_9. rewrite Hflat; [reflexivity|].
    vm_compute. repeat constructor.
Defined.

(** ** Discovery and selection of chats *)

Section Chats.

Context {R : Runtime}.

Implicit Types (c : list N * option Z * list N)
  (chats : list (list N * option Z * list N)).

Lemma find_app_first {A} (p : A -> bool) (pre : list A) x post :
  Forall (fun y => p y = false) pre -> p x = true ->
  find p (pre ++ x :: post) = Some x.
Proof.
  intros Hpre Hx. induction Hpre as [|y pre Hy _ IH]; cbn [app find].
  - by rewrite Hx.
  - by rewrite Hy.
Qed.

Lemma find_all_false {A} (p : A -> bool) (l : list A) :
  Forall (fun y => p y = false) l -> find p l = None.
Proof.
  induction 1 as [|y l Hy _ IH]; cbn [find]; [done|]. by rewrite Hy.
Qed.

(** The selection when neither an identifier nor a name is asked for. *)
Lemma pick_chat_container_default raw chat_query chats :
  truthy_str chat_query = false ->
  list_all_chats raw DEFAULT_CAP = Ok chats ->
  pick_chat_container raw chat_query None =
  match chats with
  | [] => Raise NoChatFound
  | chat0 :: _ =>
      match find (fun c => negb (is_saved_chat c.2)) chats with
      | Some c => Ok (c.1.1, c.2)
      | None => Ok (chat0.1.1, chat0.2)
      end
  end.
Proof.
  intros Hq Hchats. unfold pick_chat_container.
  rewrite Hchats. cbn [mbind exc_bind]. rewrite Hq.
  destruct chats as [|chat0 chats]; [done|].
  unfold first_chat. by destruct (find _ (chat0 :: chats)).
Qed.

(** [re.search] returns the leftmost match. *)
Lemma re_search_leftmost {G} (m : str -> option (G * str)) (s : str) pos g e :
  re_search m s pos = Some (g, e) ->
  exists k rest, k <= length s /\ m (drop k s) = Some (g, rest) /\
    e = pos + k + (length (drop k s) - length rest) /\
    forall j, j < k -> m (drop j s) = None.
Proof.
  revert pos. induction s as [|c s IH]; intros pos; cbn [re_search].
  - destruct (m []) as [[g' r]|] eqn:Hm; [|discriminate].
    intros [= <- <-]. exists 0, r. cbn. repeat split; [lia| done|lia|lia].
  - destruct (m (c :: s)) as [[g' r]|] eqn:Hm.
    + intros [= <- <-]. exists 0, r. cbn [drop length].
      repeat split; [lia|done|lia|lia].
    + intros Hs. destruct (IH _ Hs) as (k & rest & Hk & Hmatch & -> & Hleft).
      exists (S k), rest. cbn [drop length].
      repeat split; [lia|done|lia|].
      intros [|j] Hj; [done|]. cbn [drop]. apply Hleft. lia.
Qed.

(** No chat comes out of the loop when no fragment of the input holds a
    message collection. *)
Lemma chats_loop_none fuel raw cap i k :
  (forall j f j2, stream_next_object raw j = (Some f, j2) ->
     truthy_offset (find_messages_array_in f) = false) ->
  chats_loop fuel raw cap i k [] = Ok [].
Proof.
  intros Hnone. revert i k.
  induction fuel as [|fuel IH]; intros i k; cbn [chats_loop]; [done|].
  destruct (bool_decide (i < length raw) && (k <? cap)%Z); [|done].
  destruct (stream_next_object raw i) as [[[|c f]|] i2] eqn:Hscan;
    try apply IH.
  rewrite (Hnone _ _ _ Hscan). apply IH.
Qed.

(** The loop never drops a chat it has added. *)
Lemma chats_loop_nonempty fuel raw cap i k out :
  out <> [] -> chats_loop fuel raw cap i k out <> Ok [].
Proof.
  revert i k out.
  induction fuel as [|fuel IH]; intros i k out Hout; cbn [chats_loop];
    [congruence|].
  destruct (bool_decide (i < length raw) && (k <? cap)%Z); [|congruence].
  destruct (stream_next_object raw i) as [[[|c f]|] i2]; try by apply IH.
  destruct (truthy_offset _); [|by apply IH].
  destruct (chat_id_from_obj_str (c :: f)) as [cid|e]; [|done].
  cbn [mbind exc_bind]. apply IH. by destruct out.
Qed.

(** [int()] of a group of digits: the number it writes, or the error for a
    group that is too long. *)
Lemma int_of_digits_Ok (ds : str) z :
  int_of_digits ds = Ok z ->
  z = digits_value ds /\ length ds <= INT_MAX_STR_DIGITS.
Proof.
  unfold int_of_digits. case_bool_decide; [discriminate|].
  intros [= <-]. split; [done|lia].
Qed.

Lemma int_of_digits_Raise (ds : str) e :
  int_of_digits ds = Raise e ->
  e = IntDigitsLimit /\ INT_MAX_STR_DIGITS < length ds.
Proof.
  unfold int_of_digits. case_bool_decide; [|discriminate].
  by intros [= <-].
Qed.

(** The identifier of a chat text is read at the leftmost place where the
    pattern matches. *)
Lemma chat_id_from_obj_str_Some (s : str) n :
  chat_id_from_obj_str s = Ok (Some n) ->
  exists k group rest,
    id_re (drop k s) = Some (group, rest) /\ n = digits_value group /\
    length group <= INT_MAX_STR_DIGITS /\
    forall j, j < k -> id_re (drop j s) = None.
Proof.
  unfold chat_id_from_obj_str.
  destruct (re_search id_re s 0) as [[group e]|] eqn:Hs; [|discriminate].
  destruct (int_of_digits group) as [z|e'] eqn:Hint; [|discriminate].
  intros [= <-]. apply int_of_digits_Ok in Hint as [-> Hlen].
  destruct (re_search_leftmost _ _ _ _ _ Hs) as (k & rest & _ & Hm & _ & Hleft).
  by exists k, group, rest.
Qed.

Lemma chat_id_from_obj_str_Raise (s : str) e :
  chat_id_from_obj_str s = Raise e ->
  e = IntDigitsLimit /\
  exists k group rest,
    id_re (drop k s) = Some (group, rest) /\
    INT_MAX_STR_DIGITS < length group /\
    forall j, j < k -> id_re (drop j s) = None.
Proof.
  unfold chat_id_from_obj_str.
  destruct (re_search id_re s 0) as [[group e0]|] eqn:Hs; [|discriminate].
  destruct (int_of_digits group) as [z|e'] eqn:Hint; [discriminate|].
  intros [= <-]. apply int_of_digits_Raise in Hint as [-> Hlen].
  split; [done|].
  destruct (re_search_leftmost _ _ _ _ _ Hs) as (k & rest & _ & Hm & _ & Hleft).
  by exists k, group, rest.
Qed.

Lemma has_chats_list_start raw :
  has_chats_list raw = true <-> exists start, find_chats_list_start raw = Ok start.
Proof.
  unfold has_chats_list, find_chats_list_start.
  destruct (re_search chats_list_re raw 0) as [[[] e]|]; split.
  - eauto.
  - intros _. by apply bool_decide_eq_true_2.
  - intros Hd. by apply bool_decide_eq_true_1 in Hd.
  - by intros [? [=]].
Qed.

End Chats.

(** C7. With no identifier and no name asked for, the selection is the
    first discovered chat whose name is not a self-notes name, and the very
    first chat when all of them are; a self-notes name is one whose
    normalised, lowered form contains [saved messages] or [избранное] or is
    [саня]. *)
Theorem C7_self_notes_default {R : Runtime}
    (raw : str) (chat_query : option str)
    (chats : list (list N * option Z * list N)) :
  truthy_str chat_query = false ->
  list_all_chats raw DEFAULT_CAP = Ok chats ->
  (forall pre obj_str cid name post,
     chats = pre ++ (obj_str, cid, name) :: post ->
     Forall (fun x => is_saved_chat x.2 = true) pre ->
     is_saved_chat name = false ->
     pick_chat_container raw chat_query None = Ok (obj_str, name)) /\
  (forall obj_str cid name rest,
     chats = (obj_str, cid, name) :: rest ->
     Forall (fun x => is_saved_chat x.2 = true) chats ->
     pick_chat_container raw chat_query None = Ok (obj_str, name)) /\
  (forall name,
     let n := str_lower (u_norm (JStr name)) in
     is_saved_chat name = true <->
     contains (text "saved messages") n = true \/
     contains (text "избранное") n = true \/
     n = text "саня").
Proof.
  intros Hq Hchats.
  pose proof (pick_chat_container_default raw chat_query chats Hq Hchats) as Hpick.
  split; [|split].
  - intros pre obj_str cid name post -> Hpre Hc. rewrite Hpick.
    rewrite (find_app_first _ pre (obj_str, cid, name) post).
    + by destruct pre.
    + eapply Forall_impl; [exact Hpre|]. cbn. by intros x ->.
    + cbn. by rewrite Hc.
  - intros obj_str cid name rest -> Hall. rewrite Hpick.
    rewrite find_all_false; [done|].
    eapply Forall_impl; [exact Hall|]. cbn. by intros x ->.
  - intros name. cbn zeta. unfold is_saved_chat, str_eqb.
    rewrite !orb_true_iff, bool_decide_eq_true. tauto.
Qed.

(** The example of the specification: [Saved Messages] first, [Alice]
    second, and the selection is the container of [Alice]. *)
Lemma C7_self_notes_default_witness :
  list_all_chats Examples.two_chats DEFAULT_CAP =
    Ok [(Examples.saved_chat, Some 1%Z, text "Saved Messages");
        (Examples.alice_chat, Some 2%Z, text "Alice")] /\
  is_saved_chat (R := Basic.runtime) (text "Saved Messages") = true /\
  is_saved_chat (R := Basic.runtime) (text "Alice") = false /\
  pick_chat_container (R := Basic.runtime) Examples.two_chats None None =
    Ok (Examples.alice_chat, text "Alice").
Proof.
  assert (Hchats : list_all_chats Examples.two_chats DEFAULT_CAP =
            Ok [(Examples.saved_chat, Some 1%Z, text "Saved Messages");
                (Examples.alice_chat, Some 2%Z, text "Alice")])
    by (vm_compute; reflexivity).
  assert (Hsaved : is_saved_chat (R := Basic.runtime) (text "Saved Messages") = true)
    by (vm_compute; reflexivity).
  assert (Halice : is_saved_chat (R := Basic.runtime) (text "Alice") = false)
    by (vm_compute; reflexivity).
  split; [exact Hchats|]. split; [exact Hsaved|]. split; [exact Halice|].
  destruct (C7_self_notes_default (R := Basic.runtime) Examples.two_chats None _
              eq_refl Hchats) as [Hfirst _].
  apply (Hfirst [(Examples.saved_chat, Some 1%Z, text "Saved Messages")]
           Examples.alice_chat (Some 2%Z) (text "Alice") []).
  - reflexivity.
  - constructor; [exact Hsaved|constructor].
  - exact Halice.
Defined.

(** C8. Without a chat list, when the walk over the whole input adds no
    chat, discovery turns to the whole input as the one chat, with the
    first name in it or else the placeholder [(single chat export)], and
    with the identifier of the leftmost ["id": digits] in it, if there is
    one. That identifier is converted by an unguarded [int()]: when its
    digits are more than [int()] converts, the conversion raises and
    discovery returns nothing at all; otherwise discovery returns that one
    chat. The walk adds no chat when no fragment of the input holds a
    message collection. What discovery returns without a chat list is
    never empty. *)
Theorem C8_single_chat_fallback (raw : str) :
  has_chats_list raw = false ->
  (chats_loop (length raw) raw DEFAULT_CAP 0 0 [] = Ok [] ->
   list_all_chats raw DEFAULT_CAP =
   (cid ← chat_id_from_obj_str raw;
    Ok [(raw, cid, str_or (chat_name_from_obj_str raw) SINGLE_CHAT)])) /\
  ((forall j f j2, stream_next_object raw j = (Some f, j2) ->
      truthy_offset (find_messages_array_in f) = false) ->
   chats_loop (length raw) raw DEFAULT_CAP 0 0 [] = Ok []) /\
  (forall n, chat_id_from_obj_str raw = Ok (Some n) ->
     exists k group rest,
       id_re (drop k raw) = Some (group, rest) /\ n = digits_value group /\
       length group <= INT_MAX_STR_DIGITS /\
       forall j, j < k -> id_re (drop j raw) = None) /\
  (forall e, chat_id_from_obj_str raw = Raise e ->
     e = IntDigitsLimit /\
     exists k group rest,
       id_re (drop k raw) = Some (group, rest) /\
       INT_MAX_STR_DIGITS < length group /\
       forall j, j < k -> id_re (drop j raw) = None) /\
  (forall cap chats, list_all_chats raw cap = Ok chats -> chats <> []).
Proof.
  intros Hlist. split; [|split; [|split; [|split]]].
  - intros Hloop. unfold list_all_chats. rewrite Hlist, Hloop. done.
  - apply chats_loop_none.
  - apply chat_id_from_obj_str_Some.
  - apply chat_id_from_obj_str_Raise.
  - intros cap chats. unfold list_all_chats. rewrite Hlist.
    destruct (chats_loop (length raw) raw cap 0 0 []) as [[|c out]|e];
      cbn [mbind exc_bind]; [|by intros [= <-]|discriminate].
    destruct (chat_id_from_obj_str raw); cbn [mbind exc_bind];
      [by intros [= <-]|discriminate].
Qed.

(** A file with a single object and no message collection is one chat;
    the same file with an identifier of 4301 digits is not read at all. *)
Lemma C8_single_chat_fallback_witness :
  (has_chats_list Examples.bare_file = false /\
   list_all_chats Examples.bare_file DEFAULT_CAP =
     Ok [(Examples.bare_file, Some 42%Z, text "Solo")]) /\
  (has_chats_list Examples.long_id_file = false /\
   chats_loop (length Examples.long_id_file) Examples.long_id_file
     DEFAULT_CAP 0 0 [] = Ok [] /\
   list_all_chats Examples.long_id_file DEFAULT_CAP = Raise IntDigitsLimit).
Proof.
  assert (Hbare : has_chats_list Examples.bare_file = false)
    by (vm_compute; reflexivity).
  assert (Hlong : has_chats_list Examples.long_id_file = false)
    by (vm_compute; reflexivity).
  assert (Hwalk : chats_loop (length Examples.long_id_file)
                    Examples.long_id_file DEFAULT_CAP 0 0 [] = Ok [])
    by (vm_compute; reflexivity).
  split.
  - split; [exact Hbare|].
    destruct (C8_single_chat_fallback Examples.bare_file Hbare) as [Hone _].
    rewrite Hone; vm_compute; reflexivity.
  - split; [exact Hlong|]. split; [exact Hwalk|].
    destruct (C8_single_chat_fallback Examples.long_id_file Hlong) as [Hone _].
    rewrite (Hone Hwalk). vm_compute. reflexivity.
Defined.

(** C10. With a chat list, when the walk from the end of the list marker
    adds no chat, discovery returns no chat at all (the whole input is not
    taken as a chat) and the selection of a chat fails with the error that
    no chat was found in the file. *)
Theorem C10_empty_chat_list {R : Runtime} (raw : str) (start : nat) :
  find_chats_list_start raw = Ok start ->
  chats_loop (length raw) raw DEFAULT_CAP start 0 [] = Ok [] ->
  has_chats_list raw = true /\
  list_all_chats raw DEFAULT_CAP = Ok [] /\
  forall chat_query chat_id,
    pick_chat_container raw chat_query chat_id = Raise NoChatFound.
Proof.
  intros Hstart Hloop.
  assert (Hlist : has_chats_list raw = true)
    by (apply has_chats_list_start; eauto).
  assert (Hall : list_all_chats raw DEFAULT_CAP = Ok []).
  { unfold list_all_chats. rewrite Hlist, Hstart. cbn [mbind exc_bind].
    exact Hloop. }
  split; [done|]. split; [done|].
  intros chat_query chat_id. unfold pick_chat_container.
  by rewrite Hall.
Qed.

(** A chat list whose only chat has no message collection. *)
Lemma C10_empty_chat_list_witness :
  find_chats_list_start Examples.empty_chats = Ok 18 /\
  list_all_chats Examples.empty_chats DEFAULT_CAP = Ok [] /\
  pick_chat_container (R := Basic.runtime) Examples.empty_chats None None
    = Raise NoChatFound.
Proof.
  assert (Hstart : find_chats_list_start Examples.empty_chats = Ok 18)
    by (vm_compute; reflexivity).
  destruct (C10_empty_chat_list (R := Basic.runtime) Examples.empty_chats 18
              Hstart ltac:(vm_compute; reflexivity)) as (_ & Hall & Hpick).
  split; [exact Hstart|]. split; [exact Hall|]. apply Hpick.
Defined.

(* ================================================================== *)
(** * Further properties of the program *)
(* ================================================================== *)

(** ** The scanner, case by case *)

Section ScannerCases.

Implicit Types (s rest : str).

(** Where the skipping loop stops: past skip characters only, and not on
    one. *)
Lemma skip_loop_stop rest s idx :
  drop idx s = rest ->
  skips_to s idx (skip_loop rest idx) /\
  forall c, s !! skip_loop rest idx = Some c -> char_in c SKIP = false.
Proof.
  revert idx. induction rest as [|ch rest IH]; intros idx Hdrop.
  - cbn [skip_loop]. split; [split; [lia|intros k Hk; lia]|].
    intros c Hc. pose proof (lookup_drop s idx 0) as Hl.
    rewrite Hdrop, Nat.add_0_r, Hc in Hl. discriminate.
  - assert (Hidx : s !! idx = Some ch).
    { pose proof (lookup_drop s idx 0) as Hl.
      by rewrite Hdrop, Nat.add_0_r in Hl. }
    assert (Hrest : drop (S idx) s = rest).
    { replace (S idx) with (idx + 1) by lia.
      by rewrite <- drop_drop, Hdrop. }
    cbn [skip_loop]. destruct (char_in ch SKIP) eqn:Hch.
    + destruct (IH _ Hrest) as [[Hle Hskip] Hstop]. split; [|done].
      split; [lia|]. intros k Hk.
      destruct (decide (k = idx)) as [->|]; [by exists ch|].
      apply Hskip. lia.
    + split; [split; [lia|intros k Hk; lia]|].
      intros c Hc. congruence.
Qed.

(** The three ways a call can end. *)
Lemma stream_next_object_cases s idx :
  exists start,
    skips_to s idx start /\
    (forall c, s !! start = Some c -> char_in c SKIP = false) /\
    ((s !! start <> Some LBRACE /\ stream_next_object s idx = (None, start)) \/
     (s !! start = Some LBRACE /\
      exists j, closes_at s start j /\
        stream_next_object s idx = (Some (slice s start (S j)), S j)) \/
     (s !! start = Some LBRACE /\
      (forall j, start <= j < length s -> depth_through s start j <> 0%Z) /\
      stream_next_object s idx = (None, length s))).
Proof.
  destruct (skip_loop_stop (drop idx s) s idx eq_refl) as [Hskip Hstop].
  exists (skip_loop (drop idx s) idx).
  split; [done|]. split; [done|].
  set (start := skip_loop (drop idx s) idx) in *.
  destruct (s !! start) as [ch|] eqn:Hch.
  - destruct (N.eqb_spec ch LBRACE) as [->|Hne].
    + right. destruct (matching_brace s start) as [j|] eqn:Hj.
      * left. split; [done|]. exists j.
        apply matching_brace_closes in Hj. split; [done|].
        by apply stream_next_object_found.
      * right. split; [done|].
        pose proof (matching_brace_none s start Hj) as Hopen.
        split; [done|].
        by apply (stream_next_object_unbalanced s idx start).
    + left. split; [congruence|].
      unfold stream_next_object. cbn zeta. fold start. rewrite Hch.
      by destruct (N.eqb_spec ch LBRACE).
  - left. split; [done|].
    unfold stream_next_object. cbn zeta. fold start. by rewrite Hch.
Qed.

(** A matching brace closes the slice it ends as well. *)
Lemma closes_at_slice s start j :
  s !! start = Some LBRACE -> closes_at s start j ->
  balanced_object (slice s start (S j)).
Proof.
  intros Hbrace ([Hsj Hjn] & Hzero & Hmin).
  assert (Hlen : length (slice s start (S j)) = S j - start).
  { unfold slice. rewrite length_take, length_drop. lia. }
  assert (Hdepth : forall k, k <= j - start ->
            depth_through (slice s start (S j)) 0 k
            = depth_through s start (start + k)).
  { intros k Hk. unfold depth_through, slice.
    rewrite drop_0, Nat.sub_0_r, take_take.
    replace (S k `min` (S j - start)) with (S k) by lia.
    f_equal. f_equal. f_equal. lia. }
  split.
  - unfold slice. rewrite lookup_take_lt by lia.
    by rewrite lookup_drop, Nat.add_0_r.
  - rewrite Hlen. split; [lia|]. split.
    + rewrite Hdepth by lia.
      by replace (start + (S j - start - 1)) with j by lia.
    + intros k Hk. rewrite Hdepth by lia. apply Hmin. lia.
Qed.

Lemma strip_bom_spec s :
  exists k, s = replicate k 0xFEFF%N ++ strip_bom s /\
            head (strip_bom s) <> Some 0xFEFF%N.
Proof.
  induction s as [|c s (k & Hs & Hhead)]; [by exists 0|].
  cbn [strip_bom]. destruct (N.eqb_spec c 0xFEFF) as [->|Hne].
  - exists (S k). cbn [replicate app]. by rewrite <- Hs.
  - exists 0. split; [done|]. cbn. congruence.
Qed.

Lemma stream_next_object_skips (pre s : str) :
  Forall (fun c => char_in c SKIP = true) pre ->
  stream_next_object (pre ++ s) 0 =
  ((stream_next_object s 0).1, length pre + (stream_next_object s 0).2).
Proof.
  induction 1 as [|c pre Hc _ IH];
    [cbn [app length]; by destruct (stream_next_object s 0)|].
  cbn [app length]. rewrite stream_next_object_skip by done.
  rewrite IH. cbn [fst snd]. f_equal.
Qed.

End ScannerCases.

(** X1. A fragment the scanner returns is the slice from the first
    character that is not a skip character, which is an opening brace,
    through the brace that closes it: the scanner never returns a text
    that is not brace-balanced, nor one that lies outside of the input. *)
Theorem X1_fragment_is_balanced (s : str) (idx : nat) (frag : str) (idx2 : nat) :
  stream_next_object s idx = (Some frag, idx2) ->
  exists start,
    skips_to s idx start /\ s !! start = Some LBRACE /\
    closes_at s start (idx2 - 1) /\ s !! (idx2 - 1) = Some RBRACE /\
    start < idx2 <= length s /\ frag = slice s start idx2.
Proof.
  intros Hscan.
  destruct (stream_next_object_cases s idx)
    as (start & Hskip & _ & [[_ Hr]|[(Hbrace & j & Hclose & Hr)|(_ & _ & Hr)]]);
    rewrite Hr in Hscan; try discriminate.
  injection Hscan as <- <-. exists start.
  replace (S j - 1) with j by lia.
  destruct (closes_at_rbrace s start j Hbrace Hclose) as [Hj _].
  pose proof Hclose as ([? ?] & _).
  split; [done|]. split; [done|]. split; [done|]. split; [done|].
  split; [lia|done].
Qed.

Lemma X1_fragment_is_balanced_witness :
  let s := quoted " ,{'a':'}'}tail" in
  stream_next_object s 0 = (Some (quoted "{'a':'}'}"), 11) /\
  exists start, s !! start = Some LBRACE /\ closes_at s start 10.
Proof.
  intros s.
  assert (Hscan : stream_next_object s 0 = (Some (quoted "{'a':'}'}"), 11))
    by (vm_compute; reflexivity).
  split; [exact Hscan|].
  destruct (X1_fragment_is_balanced s 0 _ _ Hscan)
    as (start & _ & Hbrace & Hclose & _).
  exists start. split; [exact Hbrace|exact Hclose].
Defined.

(** X2. A call that returns no fragment ended in one of two ways: on the
    first character that is not a skip character, or at the end of the
    input, when that is not an opening brace, and the offset returned is
    that place; or with an object that is still open at the end of the
    input, and the offset returned is the length of the input. *)
Theorem X2_no_fragment (s : str) (idx idx2 : nat) :
  stream_next_object s idx = (None, idx2) ->
  exists start,
    skips_to s idx start /\
    (forall c, s !! start = Some c -> char_in c SKIP = false) /\
    ((s !! start <> Some LBRACE /\ idx2 = start) \/
     (s !! start = Some LBRACE /\ idx2 = length s /\
      forall j, start <= j < length s -> depth_through s start j <> 0%Z)).
Proof.
  intros Hscan.
  destruct (stream_next_object_cases s idx)
    as (start & Hskip & Hstop & [[Hne Hr]|[(_ & j & _ & Hr)|(Hbrace & Hopen & Hr)]]);
    rewrite Hr in Hscan; try discriminate; injection Hscan as <-;
    exists start; split; try done; split; try done.
  - by left.
  - by right.
Qed.

Lemma X2_no_fragment_witness :
  let s := quoted "  x{'a':1}" in
  stream_next_object s 0 = (None, 2) /\
  exists start,
    skips_to s 0 start /\
    (forall c, s !! start = Some c -> char_in c SKIP = false) /\
    ((s !! start <> Some LBRACE /\ 2 = start) \/
     (s !! start = Some LBRACE /\ 2 = length s /\
      forall j, start <= j < length s -> depth_through s start j <> 0%Z)).
Proof.
  intros s.
  assert (Hscan : stream_next_object s 0 = (None, 2))
    by (vm_compute; reflexivity).
  split; [exact Hscan|]. exact (X2_no_fragment s 0 2 Hscan).
Defined.

(** X3. The scanner reads the input from the offset on and nothing before
    it: the call at [idx] returns the fragment that the call at the start
    of [s[idx:]] returns, and the offsets differ by [idx]. *)
Theorem X3_scanner_reads_suffix (s : str) (idx : nat) :
  stream_next_object s idx =
  ((stream_next_object (drop idx s) 0).1,
   idx + (stream_next_object (drop idx s) 0).2).
Proof. apply stream_next_object_shift. Qed.

(** X4. A fragment that the scanner returned is scanned again as a whole:
    at the start of any text that begins with it, the scanner returns the
    very same fragment and the offset of its end. *)
Theorem X4_fragment_rescans (s : str) (idx : nat) (frag : str) (idx2 : nat) :
  stream_next_object s idx = (Some frag, idx2) ->
  balanced_object frag /\
  forall rest, stream_next_object (frag ++ rest) 0 = (Some frag, length frag).
Proof.
  intros Hscan.
  destruct (stream_next_object_cases s idx)
    as (start & Hskip & _ & [[_ Hr]|[(Hbrace & j & Hclose & Hr)|(_ & _ & Hr)]]);
    rewrite Hr in Hscan; try discriminate.
  injection Hscan as <- <-.
  pose proof (closes_at_slice s start j Hbrace Hclose) as Hbal.
  split; [done|]. intros rest. by apply stream_next_object_balanced.
Qed.

Lemma X4_fragment_rescans_witness :
  stream_next_object (quoted "[{'a':{'b':2}},{'c':3}]") 1
    = (Some (quoted "{'a':{'b':2}}"), 14) /\
  stream_next_object (quoted "{'a':{'b':2}}" ++ text "anything") 0
    = (Some (quoted "{'a':{'b':2}}"), 13).
Proof.
  assert (Hscan : stream_next_object (quoted "[{'a':{'b':2}},{'c':3}]") 1
                  = (Some (quoted "{'a':{'b':2}}"), 14))
    by (vm_compute; reflexivity).
  split; [exact Hscan|].
  destruct (X4_fragment_rescans _ _ _ _ Hscan) as [_ Hagain].
  exact (Hagain (text "anything")).
Defined.

(** X5. [strip_bom] removes the byte order marks in front of a text and
    nothing else, and the text it leaves does not begin with one. The
    scanner skips the same marks by itself: it finds the same fragment at
    the start of the text with and without them. *)
Theorem X5_strip_bom (s : str) :
  exists k,
    s = replicate k 0xFEFF%N ++ strip_bom s /\
    head (strip_bom s) <> Some 0xFEFF%N /\
    stream_next_object s 0 =
    ((stream_next_object (strip_bom s) 0).1,
     k + (stream_next_object (strip_bom s) 0).2).
Proof.
  destruct (strip_bom_spec s) as (k & Hs & Hhead).
  exists k. split; [done|]. split; [done|].
  rewrite Hs at 1. rewrite stream_next_object_skips.
  - by rewrite length_replicate.
  - apply Forall_replicate. reflexivity.
Qed.

(** X6. An object that is opened and never closed does not hide what
    follows its opening brace: the reader steps over that one brace and
    reads the rest as if the brace were not there. *)
Theorem X6_truncated_object {R : Runtime} (rest : str) :
  (forall j, j < S (length rest) ->
     depth_through (LBRACE :: rest) 0 j <> 0%Z) ->
  messages_of (LBRACE :: rest) = messages_of rest.
Proof.
  intros Hopen. rewrite messages_of_unfold by done.
  rewrite (stream_next_object_unbalanced (LBRACE :: rest) 0 0).
  - cbn [drop]. by rewrite drop_0.
  - split; [lia|]. intros k Hk. lia.
  - reflexivity.
  - intros j Hj. apply Hopen. cbn [length] in Hj. lia.
Qed.

Lemma X6_truncated_object_witness :
  messages_of (R := Basic.runtime) (LBRACE :: MoreExamples.truncated_rest)
  = [JDict [(text "id", JInt 1)]].
Proof.
  rewrite (X6_truncated_object (R := Basic.runtime)).
  - vm_compute. reflexivity.
  - intros j Hj.
    apply (matching_brace_none (LBRACE :: MoreExamples.truncated_rest) 0).
    + vm_compute. reflexivity.
    + cbn [length]. lia.
Defined.

(** ** Text utilities *)

Section TextUtilities.

Implicit Types (s : str).

Lemma lstrip_suffix s :
  exists pre, s = pre ++ lstrip s /\ Forall (fun c => isspace c = true) pre.
Proof.
  induction s as [|c s (pre & Hs & Hpre)]; [by exists []|].
  cbn [lstrip]. destruct (isspace c) eqn:Hc.
  - exists (c :: pre). cbn [app]. rewrite <- Hs. by split; [|constructor].
  - by exists [].
Qed.

Lemma lstrip_head s c : head (lstrip s) = Some c -> isspace c = false.
Proof.
  induction s as [|c' s IH]; [discriminate|].
  cbn [lstrip]. destruct (isspace c') eqn:Hc'; [done|].
  cbn. congruence.
Qed.

Lemma lstrip_fixed s :
  (forall c, head s = Some c -> isspace c = false) -> lstrip s = s.
Proof.
  destruct s as [|c s]; [done|]. intros Hc. cbn [lstrip].
  by rewrite (Hc c eq_refl).
Qed.

Lemma lstrip_idemp s : lstrip (lstrip s) = lstrip s.
Proof. apply lstrip_fixed, lstrip_head. Qed.

Lemma rstrip_prefix s : exists post, s = rstrip s ++ post.
Proof.
  destruct (lstrip_suffix (reverse s)) as (pre & Hs & _).
  exists (reverse pre). unfold rstrip.
  rewrite <- reverse_app, <- Hs. by rewrite reverse_involutive.
Qed.

Lemma rstrip_idemp s : rstrip (rstrip s) = rstrip s.
Proof.
  unfold rstrip. by rewrite reverse_involutive, lstrip_idemp.
Qed.

(** What [strip] leaves is not stripped any further. *)
Lemma strip_idemp s : strip (strip s) = strip s.
Proof.
  unfold strip.
  assert (Hl : lstrip (rstrip (lstrip s)) = rstrip (lstrip s)).
  { apply lstrip_fixed. intros c Hc.
    destruct (rstrip_prefix (lstrip s)) as (post & Hpost).
    apply (lstrip_head s). rewrite Hpost.
    by destruct (rstrip (lstrip s)). }
  by rewrite Hl, rstrip_idemp.
Qed.

Lemma sub_spaces_only_spaces b s :
  Forall (fun c => isspace c = true -> c = 32%N) (sub_spaces b s).
Proof.
  revert b. induction s as [|c s IH]; intros b; cbn [sub_spaces]; [constructor|].
  destruct (isspace c) eqn:Hc.
  - destruct b; [apply IH|]. constructor; [done|apply IH].
  - constructor; [|apply IH]. congruence.
Qed.

Lemma sub_spaces_head s : head (sub_spaces true s) <> Some 32%N.
Proof.
  induction s as [|c s IH]; [done|]. cbn [sub_spaces].
  destruct (isspace c) eqn:Hc; [done|]. cbn. intros [= ->]. discriminate.
Qed.

Lemma sub_spaces_no_double b s i :
  sub_spaces b s !! i = Some 32%N -> sub_spaces b s !! S i <> Some 32%N.
Proof.
  revert b i. induction s as [|c s IH]; intros b i; [done|].
  cbn [sub_spaces]. destruct (isspace c) eqn:Hc.
  - destruct b; [apply IH|].
    destruct i as [|i]; [|apply IH].
    intros _. change (sub_spaces true s !! 0 <> Some 32%N).
    rewrite <- head_lookup. apply sub_spaces_head.
  - destruct i as [|i]; [|apply IH].
    cbn. intros [= ->]. discriminate.
Qed.

Lemma clean_strip_sub_spaces s : clean_spaces (strip (sub_spaces false s)).
Proof.
  set (t := sub_spaces false s).
  destruct (lstrip_suffix t) as (pre & Hpre & _).
  destruct (rstrip_prefix (lstrip t)) as (post & Hpost).
  fold (strip t) in Hpost.
  assert (Ht : t = pre ++ strip t ++ post) by (by rewrite <- Hpost).
  split; [apply strip_idemp|]. split.
  - pose proof (sub_spaces_only_spaces false s) as Hall. fold t in Hall.
    rewrite Ht in Hall.
    apply Forall_app in Hall as [_ Hall]. by apply Forall_app in Hall as [Hall _].
  - intros i Hi Hnext.
    apply (sub_spaces_no_double false s (length pre + i)); fold t; rewrite Ht.
    + rewrite lookup_app_r by lia.
      replace (length pre + i - length pre) with i by lia.
      by apply lookup_app_l_Some.
    + rewrite lookup_app_r by lia.
      replace (S (length pre + i) - length pre) with (S i) by lia.
      by apply lookup_app_l_Some.
Qed.

Lemma join_text_parts_raise (l : list json) :
  Exists (fun x => ~ plain_element x) l ->
  join (text_parts l) = Raise TypeError.
Proof.
  induction 1 as [x l Hx|x l _ IH].
  - destruct x as [| | | | | |d]; try (by destruct Hx).
    cbn [text_parts plain_element] in *.
    destruct (items_get (text "text") d) as [[| | | | | |]|];
      try (by destruct Hx); reflexivity.
  - destruct x as [| | | |s| |d]; cbn [text_parts]; try done.
    + cbn [join]. by rewrite IH.
    + destruct (from_option id (JStr []) (items_get (text "text") d));
        cbn [join]; try done. by rewrite IH.
Qed.

Lemma eat_app (lit s r : str) : eat lit s = Some r -> s = lit ++ r.
Proof.
  revert s. induction lit as [|x lit IH]; intros [|y s]; cbn [eat app];
    try discriminate; try (by intros [= <-]).
  destruct (N.eqb_spec x y) as [->|]; [|discriminate].
  intros Heat. by rewrite (IH _ Heat).
Qed.

Lemma take_while_Forall (p : N -> bool) s :
  Forall (fun c => p c = true) (take_while p s).
Proof.
  induction s as [|c s IH]; cbn [take_while]; [constructor|].
  destruct (p c) eqn:Hc; by constructor.
Qed.

Lemma digits_value_nonneg (ds : str) : (0 <= digits_value ds)%Z.
Proof.
  unfold digits_value.
  assert (Hacc : forall acc, (0 <= acc)%Z ->
            (0 <= fold_left (fun acc c => acc * 10 + Z.of_N (c - 48)) ds acc)%Z).
  { induction ds as [|c ds IH]; intros acc Hacc; cbn [fold_left]; [done|].
    apply IH. lia. }
  by apply Hacc.
Qed.

Lemma bytes_of_inj (a b : string) : bytes_of a = bytes_of b -> a = b.
Proof.
  revert b. induction a as [|x a IH]; intros [|y b]; cbn [bytes_of];
    try done.
  intros [= Hxy Hab]. f_equal; [|by apply IH].
  by rewrite <- (ascii_N_embedding x), <- (ascii_N_embedding y), Hxy.
Qed.

Lemma dec_of_Z_inj (a b : Z) : dec_of_Z a = dec_of_Z b -> a = b.
Proof.
  unfold dec_of_Z. intros Heq%bytes_of_inj.
  assert (Hproper : forall z, Z.to_int z <> Decimal.Pos Decimal.Nil /\
                              Z.to_int z <> Decimal.Neg Decimal.Nil).
  { intros [|p|p]; cbn; split; try discriminate;
      intros [= Hp]; by apply (DecimalPos.Unsigned.to_uint_nonnil p). }
  apply DecimalZ.to_int_inj.
  destruct (Hproper a) as [Ha1 Ha2], (Hproper b) as [Hb1 Hb2].
  pose proof (DecimalString.NilZero.isi _ Ha1 Ha2) as Ha.
  pose proof (DecimalString.NilZero.isi _ Hb1 Hb2) as Hb.
  rewrite Heq, Hb in Ha. by injection Ha.
Qed.

End TextUtilities.

(** X7. Whatever value it is given, [u_norm] returns a text with no white
    space at either end and no white space inside other than single
    spaces. *)
Theorem X7_u_norm_clean {R : Runtime} (v : json) : clean_spaces (u_norm v).
Proof.
  destruct v; cbn [u_norm]; try apply clean_strip_sub_spaces.
  split; [reflexivity|]. split; [constructor|]. intros i Hi. discriminate.
Qed.

(** X8. [extract_text] on something that is not a [dict] raises an
    attribute error. On a [dict] it returns the [text] string as it is
    and the empty text when [text] is missing, [null], a number or an
    object; for a list it returns the pieces joined, and raises a type
    error as soon as one object element carries a [text] that is not a
    string. *)
Theorem X8_extract_text_cases (msg : json) :
  match msg with
  | JDict d =>
      match from_option id (JStr []) (items_get (text "text") d) with
      | JStr s => extract_text msg = Ok s
      | JList l =>
          (Forall plain_element l ->
           extract_text msg = Ok (concat (map piece l))) /\
          (Exists (fun x => ~ plain_element x) l ->
           extract_text msg = Raise TypeError)
      | _ => extract_text msg = Ok []
      end
  | _ => extract_text msg = Raise AttributeError
  end.
Proof.
  destruct msg as [| | | | | |d]; try reflexivity.
  unfold extract_text. cbn [dict_get mbind exc_bind].
  destruct (from_option id (JStr []) (items_get (text "text") d));
    try reflexivity.
  split; [apply join_text_parts|apply join_text_parts_raise].
Qed.

(** The second message of the example: its list holds an object whose
    text is the number 5. *)
Lemma X8_extract_text_cases_witness :
  extract_text
    (JDict [(text "id", JInt 2);
            (text "text",
             JList [JStr (text "a");
                    JDict [(text "type", JStr (text "bold"));
                           (text "text", JInt 5)]])])
  = Raise TypeError.
Proof.
  pose proof (X8_extract_text_cases
    (JDict [(text "id", JInt 2);
            (text "text",
             JList [JStr (text "a");
                    JDict [(text "type", JStr (text "bold"));
                           (text "text", JInt 5)]])])) as Hcases.
  vm_compute in Hcases. destruct Hcases as [_ Hraise].
  apply Hraise. right. left. tauto.
Defined.

(** ** Format recognition *)

Section Recognition.

Implicit Types (s r : str).

(** What a match of the message collection pattern is made of. *)
Lemma messages_re_app s r :
  messages_re s = Some (tt, r) ->
  exists ws1 ws2,
    s = quoted "'messages'" ++ ws1 ++ text ":" ++ ws2 ++ text "[" ++ r /\
    Forall (fun c => isspace c = true) ws1 /\
    Forall (fun c => isspace c = true) ws2.
Proof.
  unfold messages_re, eat_spaces. intros Hm.
  destruct (eat (quoted "'messages'") s) as [s1|] eqn:E1;
    cbn [mbind option_bind] in Hm; [|discriminate].
  destruct (eat (text ":") (lstrip s1)) as [s2|] eqn:E2;
    cbn [mbind option_bind] in Hm; [|discriminate].
  destruct (eat (text "[") (lstrip s2)) as [s3|] eqn:E3;
    cbn [mbind option_bind] in Hm; [|discriminate].
  injection Hm as <-.
  apply eat_app in E1, E2, E3.
  destruct (lstrip_suffix s1) as (ws1 & H1 & Hws1).
  destruct (lstrip_suffix s2) as (ws2 & H2 & Hws2).
  exists ws1, ws2. split; [|done].
  by rewrite E1, H1, E2, H2, E3 at 1.
Qed.

Lemma name_re_group s g r :
  name_re s = Some (g, r) -> Forall (fun c => c <> QUOTE) g.
Proof.
  unfold name_re, eat_spaces. intros Hm.
  repeat match type of Hm with
         | context [eat ?l ?x] =>
             destruct (eat l x); cbn [mbind option_bind] in Hm; [|discriminate]
         end.
  injection Hm as <- _.
  eapply Forall_impl; [apply take_while_Forall|].
  intros c Hc. cbv beta in Hc. intros ->. discriminate.
Qed.

Lemma id_re_group s g r :
  id_re s = Some (g, r) -> g <> [] /\ Forall (fun c => isdigit c = true) g.
Proof.
  unfold id_re, eat_spaces. intros Hm.
  repeat match type of Hm with
         | context [eat ?l ?x] =>
             destruct (eat l x); cbn [mbind option_bind] in Hm; [|discriminate]
         end.
  case_bool_decide as Hg; [discriminate|].
  injection Hm as <- _. split; [done|apply take_while_Forall].
Qed.

End Recognition.

(** X9. When [find_messages_array_in] returns an offset, the text holds,
    at the leftmost place where that is so, the key [messages] in double
    quotes, white space, a colon, white space and an opening bracket, and
    the offset is the one just past that bracket; so it is never zero and
    never beyond the end of the text. *)
Theorem X9_messages_offset (container : str) (m_end : nat) :
  find_messages_array_in container = Some m_end ->
  0 < m_end <= length container /\
  exists k ws1 ws2,
    drop k container =
      quoted "'messages'" ++ ws1 ++ text ":" ++ ws2 ++ text "["
      ++ drop m_end container /\
    Forall (fun c => isspace c = true) ws1 /\
    Forall (fun c => isspace c = true) ws2 /\
    m_end = k + 12 + length ws1 + length ws2 /\
    forall j, j < k -> messages_re (drop j container) = None.
Proof.
  intros Hfind. split; [by apply find_messages_array_in_pos|].
  unfold find_messages_array_in in Hfind.
  destruct (re_search messages_re container 0) as [[[] e]|] eqn:Hs;
    [|discriminate].
  injection Hfind as ->.
  destruct (re_search_leftmost _ _ _ _ _ Hs) as (k & rest & Hk & Hm & He & Hleft).
  destruct (messages_re_app _ _ Hm) as (ws1 & ws2 & Happ & Hws1 & Hws2).
  exists k, ws1, ws2.
  assert (Hlen : length (drop k container)
                 = 12 + length ws1 + length ws2 + length rest).
  { rewrite Happ. rewrite !length_app.
    change (length (quoted "'messages'")) with 10.
    change (length (text ":")) with 1. change (length (text "[")) with 1. lia. }
  assert (Hend : m_end = k + 12 + length ws1 + length ws2) by lia.
  assert (Hrest : drop m_end container = rest).
  { rewrite Hend.
    replace (k + 12 + length ws1 + length ws2)
      with (k + (12 + length ws1 + length ws2)) by lia.
    rewrite <- drop_drop, Happ.
    rewrite !app_assoc.
    rewrite drop_app_length'; [done|].
    rewrite !length_app.
    change (length (quoted "'messages'")) with 10.
    change (length (text ":")) with 1. change (length (text "[")) with 1. lia. }
  rewrite Hrest. done.
Qed.

Lemma X9_messages_offset_witness :
  let container := quoted "{'id':1, 'messages' : [{'id':2}]}" in
  find_messages_array_in container = Some 23 /\
  0 < 23 <= length container.
Proof.
  intros container.
  assert (Hfind : find_messages_array_in container = Some 23)
    by (vm_compute; reflexivity).
  split; [exact Hfind|]. exact (proj1 (X9_messages_offset _ _ Hfind)).
Defined.

(** X10. The name that [chat_name_from_obj_str] reads never holds a double
    quote: a name is cut at the first double quote after its opening one,
    an escaped one included. *)
Theorem X10_chat_name_no_quote (chat_obj_str : str) :
  Forall (fun c => c <> QUOTE) (chat_name_from_obj_str chat_obj_str).
Proof.
  unfold chat_name_from_obj_str.
  destruct (re_search name_re chat_obj_str 0) as [[g e]|] eqn:Hs; [|constructor].
  destruct (re_search_leftmost _ _ _ _ _ Hs) as (k & rest & _ & Hm & _).
  by apply name_re_group in Hm.
Qed.

(** X11. The identifier that [chat_id_from_obj_str] reads is never
    negative: a sign is not part of the digits the pattern takes. *)
Theorem X11_chat_id_nonnegative (chat_obj_str : str) (n : Z) :
  chat_id_from_obj_str chat_obj_str = Ok (Some n) -> (0 <= n)%Z.
Proof.
  intros (k & group & rest & _ & -> & _)%chat_id_from_obj_str_Some.
  apply digits_value_nonneg.
Qed.

(** An identifier with a sign is passed over; the next one is read. *)
Lemma X11_chat_id_nonnegative_witness :
  chat_id_from_obj_str (quoted "{'id': -100, 'peer': {'id': 42}}")
    = Ok (Some 42%Z) /\
  (0 <= 42)%Z.
Proof.
  assert (Hid : chat_id_from_obj_str (quoted "{'id': -100, 'peer': {'id': 42}}")
                = Ok (Some 42%Z)) by (vm_compute; reflexivity).
  split; [exact Hid|]. exact (X11_chat_id_nonnegative _ _ Hid).
Defined.

(** X12. Two author identifiers give the same wanted [from_id] string only
    when they are the same identifier, so the filter by identifier never
    takes one author for another. *)
Theorem X12_want_user_id_string_inj (a b : option Z) :
  want_user_id_string a = want_user_id_string b -> a = b.
Proof.
  destruct a as [a|], b as [b|]; cbn [want_user_id_string]; try done.
  intros Heq. f_equal. apply dec_of_Z_inj.
  apply (app_inv_head (text "user")). congruence.
Qed.

Lemma X12_want_user_id_string_inj_witness :
  want_user_id_string (Some 12%Z) <> want_user_id_string (Some 1%Z).
Proof.
  intros Heq. apply X12_want_user_id_string_inj in Heq. discriminate.
Defined.

(** ** Discovery of chats *)

Section Discovery.

Implicit Types (raw : str) (out chats : list (list N * option Z * list N)).

(** What every chat added by the loop satisfies, given that the chats
    already there do: the loop adds fragments of [raw] that the scanner
    returned at or after the place it was started at, and that hold a
    message collection. *)
Lemma chats_loop_inv (P : list N * option Z * list N -> Prop)
    fuel raw cap lo i k out chats :
  lo <= i ->
  (forall j j2 c f cid,
     lo <= j ->
     stream_next_object raw j = (Some (c :: f), j2) ->
     truthy_offset (find_messages_array_in (c :: f)) = true ->
     chat_id_from_obj_str (c :: f) = Ok cid ->
     P (c :: f, cid, str_or (chat_name_from_obj_str (c :: f)) NO_NAME)) ->
  Forall P out ->
  chats_loop fuel raw cap i k out = Ok chats -> Forall P chats.
Proof.
  intros Hlo Hstep. revert i k out Hlo.
  induction fuel as [|fuel IH]; intros i k out Hlo Hout; cbn [chats_loop];
    [by intros [= <-]|].
  destruct (bool_decide (i < length raw) && (k <? cap)%Z); [|by intros [= <-]].
  destruct (stream_next_object raw i) as [[[|c f]|] i2] eqn:Hscan;
    try (apply IH; [lia|done]).
  destruct (truthy_offset _) eqn:Hmarker.
  - destruct (chat_id_from_obj_str (c :: f)) as [cid|e] eqn:Hcid;
      cbn [mbind exc_bind]; [|discriminate].
    apply IH; [case_bool_decide; lia|].
    apply Forall_app. split; [done|]. constructor; [|done].
    by apply (Hstep i i2).
  - apply IH; [case_bool_decide; lia|done].
Qed.

(** The loop stops adding chats at the cap. *)
Lemma chats_loop_length fuel raw cap i k out chats :
  chats_loop fuel raw cap i k out = Ok chats ->
  length chats <= length out + Z.to_nat (cap - k).
Proof.
  revert i k out.
  induction fuel as [|fuel IH]; intros i k out; cbn [chats_loop];
    [intros [= <-]; lia|].
  destruct (bool_decide (i < length raw)); cbn [andb]; [|intros [= <-]; lia].
  destruct (Z.ltb_spec k cap) as [Hk|Hk]; [|intros [= <-]; lia].
  destruct (stream_next_object raw i) as [[[|c f]|] i2]; try apply IH.
  destruct (truthy_offset _); [|apply IH].
  destruct (chat_id_from_obj_str (c :: f)) as [cid|e];
    cbn [mbind exc_bind]; [|discriminate].
  intros Hloop. apply IH in Hloop. rewrite length_app in Hloop.
  cbn [length] in Hloop. lia.
Qed.

(** The loop fails only where the identifier of a chat it is about to add
    cannot be converted. *)
Lemma chats_loop_Raise fuel raw cap i k out e :
  chats_loop fuel raw cap i k out = Raise e ->
  exists j j2 obj_str,
    stream_next_object raw j = (Some obj_str, j2) /\
    truthy_offset (find_messages_array_in obj_str) = true /\
    chat_id_from_obj_str obj_str = Raise e.
Proof.
  revert i k out.
  induction fuel as [|fuel IH]; intros i k out; cbn [chats_loop];
    [discriminate|].
  destruct (bool_decide (i < length raw) && (k <? cap)%Z); [|discriminate].
  destruct (stream_next_object raw i) as [[[|c f]|] i2] eqn:Hscan;
    try apply IH.
  destruct (truthy_offset _) eqn:Hmarker; [|apply IH].
  destruct (chat_id_from_obj_str (c :: f)) as [cid|e'] eqn:Hcid;
    cbn [mbind exc_bind]; [apply IH|].
  intros [= <-]. by exists i, i2, (c :: f).
Qed.

Lemma list_all_chats_Raise raw cap e :
  list_all_chats raw cap = Raise e ->
  exists obj_str,
    (has_chats_list raw = false /\ obj_str = raw \/
     exists j j2, stream_next_object raw j = (Some obj_str, j2) /\
       truthy_offset (find_messages_array_in obj_str) = true) /\
    chat_id_from_obj_str obj_str = Raise e.
Proof.
  unfold list_all_chats. destruct (has_chats_list raw) eqn:Hlist.
  - apply has_chats_list_start in Hlist as [start ->].
    cbn [mbind exc_bind]. intros Hloop.
    apply chats_loop_Raise in Hloop as (j & j2 & obj & Hscan & Hm & Hid).
    exists obj. split; [right; by exists j, j2|done].
  - destruct (chats_loop (length raw) raw cap 0 0 []) as [[|c out]|e'] eqn:Hloop;
      cbn [mbind exc_bind]; [|discriminate|].
    + destruct (chat_id_from_obj_str raw) as [cid|e'] eqn:Hid;
        cbn [mbind exc_bind]; [discriminate|].
      intros [= <-]. exists raw. split; [by left|done].
    + intros [= <-].
      apply chats_loop_Raise in Hloop as (j & j2 & obj & Hscan & Hm & Hid).
      exists obj. split; [right; by exists j, j2|done].
Qed.

(** A fragment the scanner returns is a balanced object. *)
Lemma stream_next_object_Some_balanced (s : str) idx frag idx2 :
  stream_next_object s idx = (Some frag, idx2) -> balanced_object frag.
Proof.
  intros Hscan.
  destruct (stream_next_object_cases s idx)
    as (start & Hskip & _ & [[_ Hr]|[(Hbrace & j & Hclose & Hr)|(_ & _ & Hr)]]);
    rewrite Hr in Hscan; try discriminate.
  injection Hscan as <- <-. by apply closes_at_slice.
Qed.

Lemma str_or_nonempty (a b : str) : b <> [] -> str_or a b <> [].
Proof. by destruct a. Qed.

End Discovery.

(** X13. [list_all_chats] fails in one way only: the identifier of a chat
    it is about to return has more digits than [int()] converts. That chat
    is a fragment of the input that holds a message collection or, without
    a chat list, the whole input. In particular the search for the start
    of the chat list never fails there: it is only made when the list
    marker is in the input. *)
Theorem X13_list_all_chats_errors (raw : str) (cap : Z) (e : error) :
  list_all_chats raw cap = Raise e ->
  e = IntDigitsLimit /\
  exists obj_str k group rest,
    (has_chats_list raw = false /\ obj_str = raw \/
     exists j j2, stream_next_object raw j = (Some obj_str, j2) /\
       truthy_offset (find_messages_array_in obj_str) = true) /\
    id_re (drop k obj_str) = Some (group, rest) /\
    INT_MAX_STR_DIGITS < length group /\
    forall j, j < k -> id_re (drop j obj_str) = None.
Proof.
  intros (obj & Hobj & Hid)%list_all_chats_Raise.
  apply chat_id_from_obj_str_Raise in Hid
    as (-> & k & group & rest & Hm & Hlen & Hleft).
  split; [done|]. by exists obj, k, group, rest.
Qed.

(** A file whose one object carries an identifier of 4301 digits. *)
Lemma X13_list_all_chats_errors_witness :
  list_all_chats Examples.long_id_file DEFAULT_CAP = Raise IntDigitsLimit /\
  exists obj_str k group rest,
    (has_chats_list Examples.long_id_file = false /\
     obj_str = Examples.long_id_file \/
     exists j j2,
       stream_next_object Examples.long_id_file j = (Some obj_str, j2) /\
       truthy_offset (find_messages_array_in obj_str) = true) /\
    id_re (drop k obj_str) = Some (group, rest) /\
    INT_MAX_STR_DIGITS < length group /\
    forall j, j < k -> id_re (drop j obj_str) = None.
Proof.
  assert (Hraise : list_all_chats Examples.long_id_file DEFAULT_CAP
                   = Raise IntDigitsLimit) by (vm_compute; reflexivity).
  split; [exact Hraise|].
  exact (proj2 (X13_list_all_chats_errors _ _ _ Hraise)).
Defined.

(** X14. Every chat that [list_all_chats] returns has a name that is not
    empty, the name read from its text or a placeholder when none is
    read, and the identifier read from its text. *)
Theorem X14_chat_names_nonempty (raw : str) (cap : Z)
    (chats : list (list N * option Z * list N)) :
  list_all_chats raw cap = Ok chats -> Forall named_chat chats.
Proof.
  assert (Hname : forall obj cid placeholder,
            placeholder <> [] ->
            placeholder = NO_NAME \/ placeholder = SINGLE_CHAT ->
            chat_id_from_obj_str obj = Ok cid ->
            named_chat (obj, cid,
                        str_or (chat_name_from_obj_str obj) placeholder)).
  { intros obj cid placeholder Hne Hp Hcid. unfold named_chat. cbn [fst snd].
    split; [by apply str_or_nonempty|]. split; [done|].
    destruct (chat_name_from_obj_str obj); [right|left]; done. }
  assert (Hloop : forall i out,
            chats_loop (length raw) raw cap i 0 [] = Ok out ->
            Forall named_chat out).
  { intros i out.
    apply (chats_loop_inv named_chat _ _ _ i); [lia| |constructor].
    intros j j2 c f cid _ _ _. apply Hname; [discriminate|by left]. }
  unfold list_all_chats.
  destruct (has_chats_list raw).
  - destruct (find_chats_list_start raw) as [start|];
      cbn [mbind exc_bind]; [|discriminate].
    apply Hloop.
  - destruct (chats_loop (length raw) raw cap 0 0 []) as [[|c out]|e] eqn:Hout;
      cbn [mbind exc_bind]; [| |discriminate].
    + destruct (chat_id_from_obj_str raw) as [cid|e] eqn:Hcid;
        cbn [mbind exc_bind]; [|discriminate].
      intros [= <-]. constructor; [|constructor].
      apply Hname; [discriminate|by right|done].
    + intros [= <-]. by apply (Hloop 0).
Qed.

(** A chat without a name gets the placeholder. *)
Lemma X14_chat_names_nonempty_witness :
  list_all_chats (quoted "{'id':3,'messages':[]}") DEFAULT_CAP
  = Ok [(quoted "{'id':3,'messages':[]}", Some 3%Z, NO_NAME)] /\
  Forall named_chat [(quoted "{'id':3,'messages':[]}", Some 3%Z, NO_NAME)].
Proof.
  assert (Hchats : list_all_chats (quoted "{'id':3,'messages':[]}") DEFAULT_CAP
            = Ok [(quoted "{'id':3,'messages':[]}", Some 3%Z, NO_NAME)])
    by (vm_compute; reflexivity).
  split; [exact Hchats|]. exact (X14_chat_names_nonempty _ _ _ Hchats).
Defined.

(** X15. [list_all_chats] returns at most [cap] chats when there is a chat
    list, and at most [cap] chats or the one chat of the fallback when
    there is none. *)
Theorem X15_chat_cap (raw : str) (cap : Z)
    (chats : list (list N * option Z * list N)) :
  list_all_chats raw cap = Ok chats ->
  length chats <= Nat.max 1 (Z.to_nat cap) /\
  (has_chats_list raw = true -> length chats <= Z.to_nat cap).
Proof.
  unfold list_all_chats. destruct (has_chats_list raw).
  - destruct (find_chats_list_start raw) as [start|];
      cbn [mbind exc_bind]; [|discriminate].
    intros Hlen%chats_loop_length.
    cbn [length] in Hlen. rewrite Z.sub_0_r in Hlen. split; [lia|]. intros _. lia.
  - destruct (chats_loop (length raw) raw cap 0 0 []) as [[|c out]|e] eqn:Hout;
      cbn [mbind exc_bind]; [| |discriminate].
    + destruct (chat_id_from_obj_str raw) as [cid|e];
        cbn [mbind exc_bind]; [|discriminate].
      intros [= <-]. cbn [length]. split; [lia|discriminate].
    + intros [= <-]. apply chats_loop_length in Hout.
      cbn [length] in Hout. rewrite Z.sub_0_r in Hout.
      split; [cbn [length]; lia|discriminate].
Qed.

(** With a cap of one, the second chat of the example is not reached. *)
Lemma X15_chat_cap_witness :
  list_all_chats Examples.two_chats 1
  = Ok [(Examples.saved_chat, Some 1%Z, text "Saved Messages")] /\
  length [(Examples.saved_chat, Some 1%Z, text "Saved Messages")] <= 1.
Proof.
  assert (Hchats : list_all_chats Examples.two_chats 1
            = Ok [(Examples.saved_chat, Some 1%Z, text "Saved Messages")])
    by (vm_compute; reflexivity).
  split; [exact Hchats|].
  destruct (X15_chat_cap _ _ _ Hchats) as [_ Hcap].
  apply Hcap. vm_compute. reflexivity.
Defined.

(** X16. Where the chats come from. With a chat list, every chat is a
    balanced object that the scanner returned at an offset of the input
    past the list marker, and it holds a message collection. Without a
    chat list every chat is such an object of the input, unless no such
    object was found and the one chat is the whole input. *)
Theorem X16_chat_provenance (raw : str) (cap : Z)
    (chats : list (list N * option Z * list N)) :
  list_all_chats raw cap = Ok chats ->
  Forall (scanned_chat raw) chats \/
  has_chats_list raw = false /\
  exists cid,
    chat_id_from_obj_str raw = Ok cid /\
    chats = [(raw, cid, str_or (chat_name_from_obj_str raw) SINGLE_CHAT)].
Proof.
  set (P := fun lo (c : list N * option Z * list N) =>
              exists j j2,
                stream_next_object raw j = (Some c.1.1, j2) /\
                balanced_object c.1.1 /\
                truthy_offset (find_messages_array_in c.1.1) = true /\
                lo <= j).
  assert (Hloop : forall lo out,
            chats_loop (length raw) raw cap lo 0 [] = Ok out ->
            Forall (P lo) out).
  { intros lo out.
    apply (chats_loop_inv (P lo) _ _ _ lo); [lia| |constructor].
    intros j j2 c f cid Hj Hscan Hmarker _. exists j, j2. cbn [fst snd].
    split; [done|]. split; [|done].
    by apply (stream_next_object_Some_balanced raw j _ j2). }
  unfold list_all_chats. destruct (has_chats_list raw) eqn:Hlist.
  - destruct (find_chats_list_start raw) as [start|] eqn:Hstart;
      cbn [mbind exc_bind]; [|discriminate].
    intros Hout. left.
    eapply Forall_impl; [apply (Hloop start _ Hout)|].
    intros c Hc. unfold P in Hc. destruct Hc as (j & j2 & ? & ? & ? & ?).
    exists j, j2.
    split; [done|]. split; [done|]. split; [done|].
    intros start' Hstart'. rewrite Hstart in Hstart'. by injection Hstart' as <-.
  - destruct (chats_loop (length raw) raw cap 0 0 []) as [[|c0 out]|e] eqn:Hout;
      cbn [mbind exc_bind]; [| |discriminate].
    { destruct (chat_id_from_obj_str raw) as [cid|e] eqn:Hcid;
        cbn [mbind exc_bind]; [|discriminate].
      intros [= <-]. right. split; [done|]. by exists cid. }
    intros [= <-]. left.
    eapply Forall_impl; [apply (Hloop 0 _ Hout)|].
    intros c Hc. unfold P in Hc. destruct Hc as (j & j2 & ? & ? & ? & ?).
    exists j, j2.
    split; [done|]. split; [done|]. split; [done|].
    intros start Hstart.
    assert (has_chats_list raw = true) by (apply has_chats_list_start; eauto).
    congruence.
Qed.

Lemma X16_chat_provenance_witness :
  let chats := [(Examples.saved_chat, Some 1%Z, text "Saved Messages");
                (Examples.alice_chat, Some 2%Z, text "Alice")] in
  list_all_chats Examples.two_chats DEFAULT_CAP = Ok chats /\
  has_chats_list Examples.two_chats = true /\
  Forall (scanned_chat Examples.two_chats) chats.
Proof.
  intros chats.
  assert (Hchats : list_all_chats Examples.two_chats DEFAULT_CAP = Ok chats)
    by (vm_compute; reflexivity).
  assert (Hlist : has_chats_list Examples.two_chats = true)
    by (vm_compute; reflexivity).
  split; [exact Hchats|]. split; [exact Hlist|].
  destruct (X16_chat_provenance _ _ _ Hchats) as [Hall|[Hno _]].
  - exact Hall.
  - rewrite Hlist in Hno. discriminate.
Defined.

(** ** Selection of a chat *)

Section Selection.

Context {R : Runtime}.

Implicit Types (raw : str) (chats : list (list N * option Z * list N)).

Lemma find_split {A} (p : A -> bool) (l : list A) x :
  find p l = Some x ->
  exists pre post, l = pre ++ x :: post /\
    Forall (fun y => p y = false) pre /\ p x = true.
Proof.
  induction l as [|y l IH]; cbn [find]; [discriminate|].
  destruct (p y) eqn:Hy.
  - intros [= <-]. by exists [], l.
  - intros Hfind. destruct (IH Hfind) as (pre & post & -> & Hpre & Hx).
    exists (y :: pre), post. split; [done|]. split; [by constructor|done].
Qed.

Lemma find_None_Forall {A} (p : A -> bool) (l : list A) :
  find p l = None -> Forall (fun y => p y = false) l.
Proof.
  induction l as [|y l IH]; cbn [find]; [constructor|].
  destruct (p y) eqn:Hy; [discriminate|]. intros Hfind. by constructor; [|apply IH].
Qed.

Lemma first_chat_Some p chats obj name :
  first_chat p chats = Some (obj, name) ->
  exists pre cid post,
    chats = pre ++ (obj, cid, name) :: post /\
    Forall (fun c => p c = false) pre /\ p (obj, cid, name) = true.
Proof.
  unfold first_chat. destruct (find p chats) as [[[o cid] n]|] eqn:Hfind;
    [|discriminate].
  cbn. intros [= <- <-].
  destruct (find_split _ _ _ Hfind) as (pre & post & ? & ? & ?).
  by exists pre, cid, post.
Qed.

Lemma first_chat_None p chats :
  first_chat p chats = None -> Forall (fun c => p c = false) chats.
Proof.
  unfold first_chat. destruct (find p chats) eqn:Hfind; [discriminate|].
  intros _. by apply find_None_Forall.
Qed.

Lemma first_chat_of_Forall p chats :
  Forall (fun c => p c = false) chats -> first_chat p chats = None.
Proof. intros Hall. unfold first_chat. by rewrite find_all_false. Qed.

Lemma first_chat_of_Exists p chats :
  Exists (fun c => p c = true) chats ->
  exists r, first_chat p chats = Some r.
Proof.
  intros Hex. unfold first_chat.
  destruct (find p chats) eqn:Hfind; [by eexists|].
  apply find_None_Forall in Hfind.
  apply Exists_exists in Hex as (c & Hc & Hp).
  rewrite Forall_forall in Hfind. specialize (Hfind c Hc). congruence.
Qed.

Lemma starts_with_refl (q : str) : starts_with q q = true.
Proof.
  induction q as [|c q IH]; [done|]. cbn [starts_with].
  by rewrite N.eqb_refl, IH.
Qed.

Lemma contains_of_starts_with (q a : str) :
  starts_with q a = true -> contains q a = true.
Proof. intros Hs. destruct a; cbn [contains]; by rewrite Hs. Qed.

Lemma contains_refl (q : str) : contains q q = true.
Proof. apply contains_of_starts_with, starts_with_refl. Qed.

Lemma sample_length chats : length (sample chats) <= 30.
Proof. unfold sample. rewrite length_map, length_take. lia. Qed.

(** The selection by name, unfolded. *)
Lemma pick_chat_container_by_name raw query chats :
  query <> [] ->
  list_all_chats raw DEFAULT_CAP = Ok chats -> chats <> [] ->
  pick_chat_container raw (Some query) None =
  match first_chat (fun c => str_eqb (chat_key c.2) (chat_key query)) chats with
  | Some r => Ok r
  | None =>
      match first_chat (fun c => contains (chat_key query) (chat_key c.2)) chats with
      | Some r => Ok r
      | None =>
          match first_chat (fun c => starts_with (chat_key query) (chat_key c.2)) chats with
          | Some r => Ok r
          | None => Raise (ChatQueryNotFound query (sample chats))
          end
      end
  end.
Proof.
  intros Hq Hchats Hne. unfold pick_chat_container.
  rewrite Hchats. cbn [mbind exc_bind].
  destruct chats as [|chat0 chats]; [done|].
  destruct query as [|c query]; [done|]. reflexivity.
Qed.

End Selection.

(** X17. With a chat identifier, the selection is the first discovered
    chat that carries it, whatever name is asked for along with it; when no
    chat carries it, the selection fails with the identifier and a sample
    of the chats. *)
Theorem X17_pick_by_id {R : Runtime} (raw : str) (chat_query : option str)
    (chat_id : Z) (chats : list (list N * option Z * list N)) :
  list_all_chats raw DEFAULT_CAP = Ok chats -> chats <> [] ->
  (forall chat_query',
     pick_chat_container raw chat_query' (Some chat_id) =
     pick_chat_container raw chat_query (Some chat_id)) /\
  ((exists pre obj_str name post,
      chats = pre ++ (obj_str, Some chat_id, name) :: post /\
      Forall (fun c => c.1.2 <> Some chat_id) pre /\
      pick_chat_container raw chat_query (Some chat_id) = Ok (obj_str, name)) \/
   (Forall (fun c => c.1.2 <> Some chat_id) chats /\
    pick_chat_container raw chat_query (Some chat_id) =
    Raise (ChatIdNotFound chat_id (sample chats)))).
Proof.
  intros Hchats Hne.
  assert (Hpick : forall q,
            pick_chat_container raw q (Some chat_id) =
            match first_chat (fun c => bool_decide (c.1.2 = Some chat_id)) chats with
            | Some r => Ok r
            | None => Raise (ChatIdNotFound chat_id (sample chats))
            end).
  { intros q. unfold pick_chat_container. rewrite Hchats.
    cbn [mbind exc_bind]. by destruct chats. }
  split; [intros q'; by rewrite !Hpick|].
  rewrite Hpick.
  destruct (first_chat _ chats) as [[obj name]|] eqn:Hfirst.
  - left. apply first_chat_Some in Hfirst
      as (pre & cid & post & -> & Hpre & Hcid).
    apply bool_decide_eq_true in Hcid. cbn in Hcid. subst cid.
    exists pre, obj, name, post. split; [done|]. split; [|done].
    eapply Forall_impl; [exact Hpre|]. cbn.
    intros c Hc. by apply bool_decide_eq_false in Hc.
  - right. split; [|done]. apply first_chat_None in Hfirst.
    eapply Forall_impl; [exact Hfirst|]. cbn.
    intros c Hc. by apply bool_decide_eq_false in Hc.
Qed.

(** The chat 2 of the example, with a name that fits no chat. *)
Lemma X17_pick_by_id_witness :
  pick_chat_container (R := Basic.runtime) Examples.two_chats
    (Some (text "no such chat")) (Some 2%Z)
  = Ok (Examples.alice_chat, text "Alice").
Proof.
  assert (Hchats : list_all_chats Examples.two_chats DEFAULT_CAP =
            Ok [(Examples.saved_chat, Some 1%Z, text "Saved Messages");
                (Examples.alice_chat, Some 2%Z, text "Alice")])
    by (vm_compute; reflexivity).
  destruct (X17_pick_by_id (R := Basic.runtime) Examples.two_chats None 2 _
              Hchats ltac:(discriminate)) as [Hsame _].
  rewrite Hsame. vm_compute. reflexivity.
Defined.

(** X18. With a name and no identifier: a chat whose normalised, lowered
    name is the query is selected before any chat that only contains the
    query; the selected chat always contains the query in its name; and
    the selection fails exactly when no chat name contains the query, so
    that the last tier, the names that begin with the query, never decides
    anything. *)
Theorem X18_pick_by_name {R : Runtime} (raw query : str)
    (chats : list (list N * option Z * list N)) :
  query <> [] ->
  list_all_chats raw DEFAULT_CAP = Ok chats -> chats <> [] ->
  (Exists (fun c => chat_key c.2 = chat_key query) chats ->
   exists obj_str name,
     pick_chat_container raw (Some query) None = Ok (obj_str, name) /\
     chat_key name = chat_key query) /\
  (forall obj_str name,
     pick_chat_container raw (Some query) None = Ok (obj_str, name) ->
     contains (chat_key query) (chat_key name) = true /\
     exists cid, (obj_str, cid, name) ∈ chats) /\
  (pick_chat_container raw (Some query) None =
     Raise (ChatQueryNotFound query (sample chats)) <->
   Forall (fun c => contains (chat_key query) (chat_key c.2) = false) chats).
Proof.
  intros Hq Hchats Hne.
  rewrite (pick_chat_container_by_name raw query chats Hq Hchats Hne).
  split; [|split].
  - intros Hex.
    destruct (first_chat_of_Exists
                (fun c => str_eqb (chat_key c.2) (chat_key query)) chats)
      as [[obj name] Hfirst].
    { eapply Exists_impl; [exact Hex|]. cbn. intros c ->.
      by apply bool_decide_eq_true_2. }
    rewrite Hfirst. exists obj, name. split; [done|].
    apply first_chat_Some in Hfirst as (_ & cid & _ & _ & _ & Hkey).
    by apply str_eqb_eq in Hkey.
  - intros obj name.
    destruct (first_chat _ chats) as [r1|] eqn:H1.
    { intros [= ->]. apply first_chat_Some in H1 as (pre & cid & post & -> & _ & Hkey).
      apply str_eqb_eq in Hkey. cbn in Hkey. split.
      - rewrite Hkey. apply contains_refl.
      - exists cid. apply elem_of_app. right. by left. }
    destruct (first_chat (fun c => contains _ _) chats) as [r2|] eqn:H2.
    { intros [= ->]. apply first_chat_Some in H2 as (pre & cid & post & -> & _ & Hkey).
      split; [done|]. exists cid. apply elem_of_app. right. by left. }
    destruct (first_chat (fun c => starts_with _ _) chats) as [r3|] eqn:H3;
      [|discriminate].
    intros [= ->]. apply first_chat_Some in H3 as (pre & cid & post & -> & _ & Hkey).
    split; [by apply contains_of_starts_with|].
    exists cid. apply elem_of_app. right. by left.
  - split.
    + destruct (first_chat _ chats) as [r1|] eqn:H1; [discriminate|].
      destruct (first_chat (fun c => contains _ _) chats) as [r2|] eqn:H2;
        [discriminate|].
      intros _. by apply first_chat_None in H2.
    + intros Hall.
      rewrite (first_chat_of_Forall (fun c => str_eqb _ _)).
      2:{ eapply Forall_impl; [exact Hall|]. cbn. intros c Hc.
          destruct (str_eqb (chat_key c.2) (chat_key query)) eqn:Heq; [|done].
          apply str_eqb_eq in Heq. rewrite Heq, contains_refl in Hc. done. }
      rewrite (first_chat_of_Forall (fun c => contains _ _)) by done.
      rewrite (first_chat_of_Forall (fun c => starts_with _ _)); [done|].
      eapply Forall_impl; [exact Hall|]. cbn. intros c Hc.
      destruct (starts_with (chat_key query) (chat_key c.2)) eqn:Hs; [|done].
      apply contains_of_starts_with in Hs. congruence.
Qed.

(** The query [team]: the first chat, [Team Alpha], contains it, the
    second, [TEAM], is it; the second is selected. *)
Lemma X18_pick_by_name_witness :
  exists obj_str,
    pick_chat_container (R := Basic.runtime) MoreExamples.name_tiers
      (Some (text "team")) None = Ok (obj_str, text "TEAM").
Proof.
  assert (Hchats : list_all_chats MoreExamples.name_tiers DEFAULT_CAP =
            Ok MoreExamples.name_tiers_chats) by (vm_compute; reflexivity).
  destruct (X18_pick_by_name (R := Basic.runtime) MoreExamples.name_tiers
              (text "team") _ ltac:(discriminate) Hchats ltac:(discriminate))
    as [Hexact _].
  destruct Hexact as (obj & name & Hpick & _).
  { right. left. vm_compute. reflexivity. }
  exists obj. rewrite Hpick. f_equal. f_equal.
  vm_compute in Hpick. by injection Hpick as _ <-.
Defined.

(** X19. Whatever is asked for, a chat that [pick_chat_container] returns
    is one of the discovered chats, and an error it raises is one of
    three: no chat at all was discovered; no chat carries the identifier
    asked for; no chat name fits the name asked for. The sample in an error
    lists at most 30 chats. *)
Theorem X19_pick_result {R : Runtime} (raw : str) (chat_query : option str)
    (chat_id : option Z) (chats : list (list N * option Z * list N)) :
  list_all_chats raw DEFAULT_CAP = Ok chats ->
  match pick_chat_container raw chat_query chat_id with
  | Ok (obj_str, name) => exists cid, (obj_str, cid, name) ∈ chats
  | Raise e =>
      (e = NoChatFound /\ chats = []) \/
      (exists i, chat_id = Some i /\ e = ChatIdNotFound i (sample chats)) \/
      (exists q, chat_query = Some q /\ chat_id = None /\
                 e = ChatQueryNotFound q (sample chats))
  end /\
  length (sample chats) <= 30.
Proof.
  intros Hchats. split; [|apply sample_length].
  assert (Hin : forall p obj name,
            first_chat p chats = Some (obj, name) ->
            exists cid, (obj, cid, name) ∈ chats).
  { intros p obj name Hfirst.
    apply first_chat_Some in Hfirst as (pre & cid & post & -> & _).
    exists cid. apply elem_of_app. right. by left. }
  unfold pick_chat_container. rewrite Hchats. cbn [mbind exc_bind].
  destruct chats as [|chat0 chats']; [by left|].
  set (chats := chat0 :: chats') in *.
  destruct chat_id as [i|].
  { destruct (first_chat _ chats) as [[obj name]|] eqn:H1; [by eapply Hin|].
    right. left. by exists i. }
  destruct chat_query as [[|c q]|]; cbn [truthy_str].
  - destruct (first_chat _ chats) as [[obj name]|] eqn:H1; [by eapply Hin|].
    destruct chat0 as [[o0 c0] n0]. exists c0. by left.
  - cbn [from_option id].
    destruct (first_chat _ chats) as [[obj name]|] eqn:H1; [by eapply Hin|].
    destruct (first_chat (fun c => contains _ _) chats) as [[obj name]|] eqn:H2;
      [by eapply Hin|].
    destruct (first_chat (fun c => starts_with _ _) chats) as [[obj name]|] eqn:H3;
      [by eapply Hin|].
    right. right. by exists (c :: q).
  - destruct (first_chat _ chats) as [[obj name]|] eqn:H1; [by eapply Hin|].
    destruct chat0 as [[o0 c0] n0]. exists c0. by left.
Qed.

(** A name that fits no chat of the example: the error is the third. *)
Lemma X19_pick_result_witness :
  exists chats,
    list_all_chats Examples.two_chats DEFAULT_CAP = Ok chats /\
    (match pick_chat_container (R := Basic.runtime) Examples.two_chats
             (Some (text "Bob")) None with
     | Ok (obj_str, name) => exists cid, (obj_str, cid, name) ∈ chats
     | Raise e =>
         (e = NoChatFound /\ chats = []) \/
         (exists i, @None Z = Some i /\ e = ChatIdNotFound i (sample chats)) \/
         (exists q, Some (text "Bob") = Some q /\ @None Z = None /\
                    e = ChatQueryNotFound q (sample chats))
     end /\
     length (sample chats) <= 30).
Proof.
  eexists. split; [vm_compute; reflexivity|].
  apply (X19_pick_result (R := Basic.runtime) Examples.two_chats
           (Some (text "Bob")) None).
  vm_compute. reflexivity.
Defined.

(** ** The index of messages *)

Section Index.

Context {R : Runtime}.

Implicit Types (messages : list json) (idx : gmap Z json).

(** The loop looks at the type of every record, so that it ends well
    exactly when every record is a [dict]. *)
Lemma index_loop_dicts messages idx0 :
  match index_loop messages idx0 with
  | Ok _ => Forall (fun m => is_dict m = true) messages
  | Raise e =>
      e = AttributeError /\ Exists (fun m => is_dict m = false) messages
  end.
Proof.
  revert idx0. induction messages as [|m messages IH]; intros idx0.
  { constructor. }
  destruct m as [| | | | | |d];
    try (split; [reflexivity|by left]).
  cbn [index_loop dict_get mbind exc_bind].
  assert (Hstep : forall idx1,
            match index_loop messages idx1 with
            | Ok _ => Forall (fun m => is_dict m = true) (JDict d :: messages)
            | Raise e =>
                e = AttributeError /\
                Exists (fun m => is_dict m = false) (JDict d :: messages)
            end).
  { intros idx1. specialize (IH idx1).
    destruct (index_loop messages idx1) as [idx|e].
    - by constructor.
    - destruct IH as [-> Hex]. split; [done|by right]. }
  destruct (negb _); [apply Hstep|].
  destruct (from_option id JNull (items_get (text "id") d)); try apply Hstep.
  all: match goal with
       | |- context [py_int ?v] => destruct (py_int v)
       end; apply Hstep.
Qed.

Lemma last_indexed_None n messages :
  last_indexed n messages = None ->
  Forall (fun m => indexed_as n m = false) messages.
Proof.
  induction messages as [|m messages IH]; [constructor|].
  rewrite last_indexed_cons.
  destruct (last_indexed n messages) as [y|]; [discriminate|].
  destruct (indexed_as n m) eqn:Hm; [discriminate|].
  intros _. constructor; [done|by apply IH].
Qed.

Lemma last_indexed_split n messages m :
  last_indexed n messages = Some m ->
  exists pre post,
    messages = pre ++ m :: post /\ indexed_as n m = true /\
    Forall (fun m' => indexed_as n m' = false) post.
Proof.
  induction messages as [|m' messages IH]; [discriminate|].
  rewrite last_indexed_cons.
  destruct (last_indexed n messages) as [y|] eqn:Hlast.
  - intros [= ->]. destruct (IH eq_refl) as (pre & post & -> & Hm & Hpost).
    by exists (m' :: pre), post.
  - destruct (indexed_as n m') eqn:Hm'; [|discriminate].
    intros [= ->]. exists [], messages.
    split; [done|]. split; [done|]. by apply last_indexed_None.
Qed.

Lemma index_loop_size messages idx0 idx :
  index_loop messages idx0 = Ok idx ->
  size idx <= size idx0 + length messages.
Proof.
  revert idx0. induction messages as [|m messages IH]; intros idx0.
  { intros [= <-]. lia. }
  destruct m as [| | | | | |d]; try discriminate.
  cbn [index_loop dict_get mbind exc_bind length].
  assert (Hskip : index_loop messages idx0 = Ok idx ->
                  size idx <= size idx0 + S (length messages)).
  { intros Hloop. specialize (IH _ Hloop). lia. }
  assert (Hput : forall k, index_loop messages (<[k := JDict d]> idx0) = Ok idx ->
                  size idx <= size idx0 + S (length messages)).
  { intros k Hloop. specialize (IH _ Hloop).
    assert (size (<[k := JDict d]> idx0) <= S (size idx0)); [|lia].
    destruct (idx0 !! k) eqn:Hk.
    - rewrite map_size_insert_Some by eauto. lia.
    - rewrite map_size_insert_None by done. lia. }
  destruct (negb _); [apply Hskip|].
  destruct (from_option id JNull (items_get (text "id") d)); try apply Hskip.
  all: match goal with
       | |- context [py_int ?v] => destruct (py_int v)
       end; first [apply Hskip|apply Hput].
Qed.

End Index.

(** X20. [build_id_index] returns an index exactly when every record is a
    [dict]; a record that is not makes it raise an attribute error. The
    index it returns holds, under every number, the last record of type
    [message] whose identifier [int()] reads as that number. *)
Theorem X20_build_id_index {R : Runtime} (messages : list json) :
  match build_id_index messages with
  | Ok idx =>
      Forall (fun m => is_dict m = true) messages /\
      forall n, idx !! n = last_indexed n messages
  | Raise e =>
      e = AttributeError /\ Exists (fun m => is_dict m = false) messages
  end.
Proof.
  pose proof (index_loop_dicts messages ∅) as Hdicts.
  unfold build_id_index.
  destruct (index_loop messages ∅) as [idx|e] eqn:Hloop; [|done].
  split; [done|]. intros n. by apply build_id_index_lookup.
Qed.

(** X21. What the index holds, in terms of the list: under [n] it holds a
    record of the list that is filed under [n] and is followed by no other
    such record; it holds nothing under [n] only when no record is filed
    under [n]; and it holds no more entries than there are records. *)
Theorem X21_index_last_wins {R : Runtime} (messages : list json)
    (idx : gmap Z json) :
  build_id_index messages = Ok idx ->
  (forall n m, idx !! n = Some m ->
     exists pre post,
       messages = pre ++ m :: post /\ indexed_as n m = true /\
       Forall (fun m' => indexed_as n m' = false) post) /\
  (forall n, idx !! n = None ->
     Forall (fun m => indexed_as n m = false) messages) /\
  size idx <= length messages.
Proof.
  intros Hidx. split; [|split].
  - intros n m. rewrite (build_id_index_lookup _ _ n Hidx).
    apply last_indexed_split.
  - intros n. rewrite (build_id_index_lookup _ _ n Hidx).
    apply last_indexed_None.
  - pose proof (index_loop_size _ _ _ Hidx) as Hsize.
    by rewrite map_size_empty in Hsize.
Qed.

(** Two records with the identifier 1, the second written as a string:
    the index holds the second. *)
Lemma X21_index_last_wins_witness :
  exists idx,
    build_id_index (R := Basic.runtime) MoreExamples.twice_filed = Ok idx /\
    idx !! 1%Z = MoreExamples.twice_filed !! 2 /\
    size idx <= 3.
Proof.
  eexists. split; [vm_compute; reflexivity|].
  match goal with
  | |- ?i !! _ = _ /\ _ =>
      destruct (X21_index_last_wins (R := Basic.runtime)
                  MoreExamples.twice_filed i ltac:(vm_compute; reflexivity))
        as (Hsome & _ & Hsize)
  end.
  split; [vm_compute; reflexivity|exact Hsize].
Defined.

(** ** The rows of a chat *)

Section RowsOfChat.

Context {R : Runtime}.

Implicit Types (messages : list json) (idx : gmap Z json) (rows : list Row).

(** The loop is a map of [collect_row] over the records, in order, that
    keeps the rows made. *)
Lemma rows_loop_spec idx chat_name want uq user_query exact messages rows0 rows :
  rows_loop idx chat_name want uq user_query exact messages rows0 = Ok rows <->
  exists rs,
    Forall2 (fun msg r =>
               collect_row idx chat_name want uq user_query exact msg = Ok r)
      messages rs /\
    rows = rows0 ++ omap id rs.
Proof.
  revert rows0. induction messages as [|m messages IH]; intros rows0.
  { cbn [rows_loop]. split.
    - intros [= <-]. exists []. split; [constructor|by rewrite app_nil_r].
    - intros (rs & HF & ->). inversion HF; subst. cbn. by rewrite app_nil_r. }
  cbn [rows_loop].
  destruct (collect_row idx chat_name want uq user_query exact m) as [r|e] eqn:Hm;
    cbn [mbind exc_bind].
  - rewrite IH. split.
    + intros (rs & HF & ->). exists (r :: rs). split; [by constructor|].
      destruct r; cbn; [by rewrite <- app_assoc|done].
    + intros (rs & HF & ->).
      inversion HF as [|? r' ? rs' Hr HF']; subst.
      rewrite Hm in Hr. injection Hr as <-.
      exists rs'. split; [done|].
      destruct r; cbn; [by rewrite <- app_assoc|done].
  - split; [discriminate|].
    intros (rs & HF & _). inversion HF; subst. congruence.
Qed.

Lemma omap_id_length {A} (rs : list (option A)) :
  length (omap id rs) <= length rs.
Proof.
  induction rs as [|[r|] rs IH]; cbn; lia.
Qed.

(** A failure of the loop is the failure of one record. *)
Lemma rows_loop_raise idx chat_name want uq user_query exact messages rows0 e :
  rows_loop idx chat_name want uq user_query exact messages rows0 = Raise e ->
  exists msg, msg ∈ messages /\
    collect_row idx chat_name want uq user_query exact msg = Raise e.
Proof.
  revert rows0. induction messages as [|m messages IH]; intros rows0;
    [discriminate|].
  cbn [rows_loop].
  destruct (collect_row idx chat_name want uq user_query exact m) as [r|e'] eqn:Hm;
    cbn [mbind exc_bind].
  - intros Hloop. destruct (IH _ Hloop) as (msg & Hin & Hmsg).
    exists msg. split; [by right|done].
  - intros [= ->]. exists m. split; [by left|done].
Qed.

Lemma join_raise (parts : list json) e :
  join parts = Raise e -> e = TypeError.
Proof.
  induction parts as [|p parts IH]; [discriminate|].
  destruct p; cbn [join]; try (by intros [= <-]).
  destruct (join parts) as [s'|e']; cbn; [discriminate|].
  intros [= <-]. by apply IH.
Qed.

Lemma extract_text_dict_raise d e :
  extract_text (JDict d) = Raise e -> e = TypeError.
Proof.
  unfold extract_text. cbn [dict_get mbind exc_bind].
  destruct (from_option id (JStr []) (items_get (text "text") d));
    try discriminate.
  apply join_raise.
Qed.

Lemma norm_sender_dict d : exists s, norm_sender (JDict d) = Ok s.
Proof. unfold norm_sender. cbn [dict_get mbind exc_bind]. eauto. Qed.

Lemma norm_from_id_dict d : exists s, norm_from_id (JDict d) = Ok s.
Proof.
  unfold norm_from_id. cbn [dict_get mbind exc_bind].
  destruct (from_option id JNull (items_get (text "from_id") d)); eauto.
Qed.

Lemma reply_context_raise idx reply_id e :
  (forall n m, idx !! n = Some m -> is_dict m = true) ->
  reply_context idx reply_id = Raise e ->
  e = TypeError /\
  exists n rmsg, idx !! n = Some rmsg /\ extract_text rmsg = Raise e.
Proof.
  intros Hdict. unfold reply_context.
  set (rmsg := match reply_id with JNull => None | _ => _ end).
  assert (Hr : forall m, rmsg = Some m -> exists n, idx !! n = Some m).
  { intros m. unfold rmsg.
    destruct reply_id; try discriminate.
    all: match goal with
         | |- context [py_int ?v] => destruct (py_int v) as [k|]
         end; try discriminate; eauto. }
  destruct rmsg as [m|]; [|discriminate].
  destruct (Hr m eq_refl) as [n Hn].
  pose proof (Hdict n m Hn) as Hm.
  destruct m as [| | | | | |d]; try discriminate.
  destruct (truthy (JDict d)); [|discriminate].
  destruct (norm_sender_dict d) as [s ->].
  cbn [dict_get mbind exc_bind].
  destruct (extract_text (JDict d)) as [t|e'] eqn:Ht; cbn [mbind exc_bind];
    [discriminate|].
  intros [= ->]. split; [by eapply extract_text_dict_raise|].
  by exists n, (JDict d).
Qed.

Lemma collect_row_raise idx chat_name want uq user_query exact d e :
  (forall n m, idx !! n = Some m -> is_dict m = true) ->
  collect_row idx chat_name want uq user_query exact (JDict d) = Raise e ->
  e = TypeError /\
  (extract_text (JDict d) = Raise e \/
   exists n rmsg, idx !! n = Some rmsg /\ extract_text rmsg = Raise e).
Proof.
  intros Hdict. unfold collect_row.
  cbn [dict_get mbind exc_bind].
  destruct (negb _); [discriminate|].
  destruct (author_matches_dict want uq user_query exact d) as [keep ->].
  cbn [mbind exc_bind]. destruct (negb keep); [discriminate|].
  destruct (extract_text (JDict d)) as [t|e'] eqn:Ht; cbn [mbind exc_bind].
  2:{ intros [= ->]. split; [by eapply extract_text_dict_raise|by left]. }
  case_bool_decide; [discriminate|].
  destruct (reply_context idx _) as [[[rf rd] rt]|e'] eqn:Hctx;
    cbn [mbind exc_bind].
  - destruct (norm_sender_dict d) as [s ->].
    destruct (norm_from_id_dict d) as [f ->].
    cbn [mbind exc_bind]. discriminate.
  - intros [= ->].
    destruct (reply_context_raise _ _ _ Hdict Hctx) as [-> Hex].
    split; [done|by right].
Qed.

(** The rows of a record that passes the two filters and whose text
    cannot be read: none, the loop stops there. *)
Lemma collect_row_bad_text idx chat_name want uq user_query exact msg ty e :
  dict_get msg (text "type") JNull = Ok ty ->
  eq_str ty (text "message") = true ->
  author_matches want uq user_query exact msg = Ok true ->
  extract_text msg = Raise e ->
  collect_row idx chat_name want uq user_query exact msg = Raise e.
Proof.
  intros Hty Heq Hkeep Ht. unfold collect_row.
  rewrite Hty. cbn [mbind exc_bind]. rewrite Heq. cbn [negb].
  rewrite Hkeep. cbn [mbind exc_bind negb]. by rewrite Ht.
Qed.

Lemma reply_context_none idx reply_id :
  reply_id = JNull \/ py_int reply_id = None ->
  reply_context idx reply_id = Ok ([], JStr [], []).
Proof.
  intros [->|Hint]; [done|].
  unfold reply_context. rewrite Hint. by destruct reply_id.
Qed.

(** The call returns only if every record makes a row or none. *)
Lemma rows_loop_Ok_each idx chat_name want uq user_query exact messages rows0 rows :
  rows_loop idx chat_name want uq user_query exact messages rows0 = Ok rows ->
  forall msg, msg ∈ messages ->
    exists r, collect_row idx chat_name want uq user_query exact msg = Ok r.
Proof.
  revert rows0. induction messages as [|m messages IH]; intros rows0.
  { intros _ msg Hin. by apply elem_of_nil in Hin. }
  cbn [rows_loop].
  destruct (collect_row idx chat_name want uq user_query exact m) as [r|e] eqn:Hm;
    cbn [mbind exc_bind]; [|discriminate].
  intros Hloop msg Hin. apply elem_of_cons in Hin as [->|Hin]; [by eexists|].
  by eapply IH.
Qed.

Lemma collect_rows_spec container chat_name user_id user_query exact rows :
  collect_rows_from_container container chat_name user_id user_query exact
    = Ok rows <->
  exists id_index rs,
    build_id_index (stream_parse_messages_from_container container)
      = Ok id_index /\
    Forall2 (fun msg r =>
               collect_row id_index chat_name
                 (match user_id with
                  | Some _ => want_user_id_string user_id
                  | None => None
                  end)
                 (if truthy_str user_query
                  then str_lower (from_option id [] user_query) else [])
                 user_query exact msg = Ok r)
      (stream_parse_messages_from_container container) rs /\
    rows = omap id rs.
Proof.
  unfold collect_rows_from_container. cbn zeta.
  destruct (build_id_index _) as [id_index|e] eqn:Hidx; cbn [mbind exc_bind].
  - rewrite rows_loop_spec. split.
    + intros (rs & HF & ->). by exists id_index, rs.
    + intros (id_index' & rs & [= <-] & HF & ->). by exists rs.
  - split; [discriminate|]. by intros (? & ? & ? & _).
Qed.

End RowsOfChat.

(** X22. The rows of a chat follow the records of the chat: with the
    index built from the records, [collect_rows_from_container] returns
    [rows] exactly when every record, taken alone, makes a row or none
    without raising, and [rows] are the rows made, in the order of the
    records. In particular there are no more rows than records. *)
Theorem X22_rows_in_scan_order {R : Runtime}
    (container chat_name : str) (user_id : option Z)
    (user_query : option str) (exact : bool) (rows : list Row) :
  let messages := stream_parse_messages_from_container container in
  let want := match user_id with
              | Some _ => want_user_id_string user_id
              | None => None
              end in
  let uq := if truthy_str user_query
            then str_lower (from_option id [] user_query) else [] in
  (collect_rows_from_container container chat_name user_id user_query exact
     = Ok rows <->
   exists id_index rs,
     build_id_index messages = Ok id_index /\
     Forall2 (fun msg r =>
                collect_row id_index chat_name want uq user_query exact msg = Ok r)
       messages rs /\
     rows = omap id rs) /\
  (collect_rows_from_container container chat_name user_id user_query exact
     = Ok rows ->
   length rows <= length messages).
Proof.
  intros messages want uq.
  split; [apply collect_rows_spec|].
  intros Hrows. apply collect_rows_spec in Hrows as (id_index & rs & _ & HF & ->).
  fold messages in HF.
  rewrite (Forall2_length _ _ _ HF). apply omap_id_length.
Qed.

(** The example chat: six records, two rows. *)
Lemma X22_rows_in_scan_order_witness :
  length [Examples.row_6; Examples.row_7] <=
  length (stream_parse_messages_from_container (R := Basic.runtime)
            Examples.reply_container).
Proof.
  apply (X22_rows_in_scan_order (R := Basic.runtime) Examples.reply_container
           (text "Team") (Some 305696040%Z) None false).
  vm_compute. reflexivity.
Defined.

(** X23. Where the fields of a row come from: the row is made from one
    record of the chat, a [dict] of type [message]; the chat name is the
    one passed in; the identifier, the date and the identifier replied to
    are the values of [id], [date] and [reply_to_message_id] of the record
    as they are ([null] when absent); the sender and the sender identifier
    are [norm_sender] and [norm_from_id] of the record. *)
Theorem X23_row_fields {R : Runtime}
    (container chat_name : str) (user_id : option Z)
    (user_query : option str) (exact : bool) (rows : list Row) (row : Row) :
  collect_rows_from_container container chat_name user_id user_query exact
    = Ok rows ->
  row ∈ rows ->
  exists d,
    JDict d ∈ stream_parse_messages_from_container container /\
    (exists ty, items_get (text "type") d = Some (JStr ty) /\
                ty = text "message") /\
    row_chat row = chat_name /\
    row_id row = from_option id JNull (items_get (text "id") d) /\
    row_date row = from_option id JNull (items_get (text "date") d) /\
    row_reply_to_id row =
      from_option id JNull (items_get (text "reply_to_message_id") d) /\
    norm_sender (JDict d) = Ok (row_from row) /\
    norm_from_id (JDict d) = Ok (row_from_id row).
Proof.
  intros Hrows Hin.
  destruct (collect_rows_elem _ _ _ _ _ _ _ Hrows Hin)
    as (id_index & msg & _ & Hmsg & Hrow).
  apply collect_row_Some in Hrow
    as ((ty & Hty & Heq) & _ & _ & Hreply & _ & Hfrom & Hfid & Hid & Hdate & Hchat).
  destruct msg as [| | | | | |d]; try discriminate.
  cbn [dict_get] in *.
  exists d. split; [done|]. split.
  { injection Hty as <-.
    destruct (items_get (text "type") d) as [[| | | |s| |]|]; try discriminate.
    cbn in Heq. apply str_eqb_eq in Heq. by exists s. }
  split; [done|].
  split; [congruence|]. split; [congruence|]. split; [congruence|].
  by split.
Qed.

(** The first row of the example chat is made from the record 6. *)
Lemma X23_row_fields_witness :
  exists d,
    JDict d ∈ stream_parse_messages_from_container (R := Basic.runtime)
                Examples.reply_container /\
    row_id Examples.row_6 = from_option id JNull (items_get (text "id") d).
Proof.
  destruct (X23_row_fields (R := Basic.runtime) Examples.reply_container
              (text "Team") (Some 305696040%Z) None false
              [Examples.row_6; Examples.row_7] Examples.row_6
              ltac:(vm_compute; reflexivity) ltac:(by left))
    as (d & Hin & _ & _ & Hid & _).
  by exists d.
Defined.

(** X24. A row made from a record without [reply_to_message_id], or with
    one that [int()] does not read, has empty reply fields. *)
Theorem X24_no_reply {R : Runtime}
    (container chat_name : str) (user_id : option Z)
    (user_query : option str) (exact : bool) (rows : list Row) (row : Row) :
  collect_rows_from_container container chat_name user_id user_query exact
    = Ok rows ->
  row ∈ rows ->
  row_reply_to_id row = JNull \/ py_int (row_reply_to_id row) = None ->
  row_reply_from row = [] /\ row_reply_date row = JStr [] /\
  row_reply_text row = [].
Proof.
  intros Hrows Hin Hnone.
  destruct (collect_rows_elem _ _ _ _ _ _ _ Hrows Hin)
    as (id_index & msg & _ & _ & Hrow).
  apply collect_row_Some in Hrow as (_ & _ & _ & _ & Hctx & _).
  rewrite (reply_context_none _ _ Hnone) in Hctx.
  by injection Hctx as <- <- <-.
Qed.

(** The one message of Alice in the example chat replies to nothing. *)
Lemma X24_no_reply_witness :
  exists row,
    collect_rows_from_container (R := Basic.runtime) Examples.reply_container
      (text "Team") None (Some (text "alice")) false = Ok [row] /\
    row_reply_from row = [] /\ row_reply_date row = JStr [] /\
    row_reply_text row = [].
Proof.
  eexists. split; [vm_compute; reflexivity|].
  eapply (X24_no_reply (R := Basic.runtime) Examples.reply_container
            (text "Team") None (Some (text "alice")) false).
  - vm_compute. reflexivity.
  - by left.
  - left. vm_compute. reflexivity.
Defined.

(** X25. When the records are [dict]s, the only way for
    [collect_rows_from_container] to fail is a type error raised while a
    text is read: it returns rows when every record is well formed, and
    when it raises, the error is [TypeError] and some record is not well
    formed. *)
Theorem X25_rows_errors {R : Runtime}
    (container chat_name : str) (user_id : option Z)
    (user_query : option str) (exact : bool) :
  let messages := stream_parse_messages_from_container container in
  Forall (fun m => is_dict m = true) messages ->
  (Forall well_formed messages ->
   exists rows,
     collect_rows_from_container container chat_name user_id user_query exact
       = Ok rows) /\
  (forall e,
     collect_rows_from_container container chat_name user_id user_query exact
       = Raise e ->
     e = TypeError /\
     exists msg, msg ∈ messages /\ extract_text msg = Raise TypeError).
Proof.
  intros messages Hdicts.
  split; [apply collect_rows_from_container_total|].
  intros e. unfold collect_rows_from_container. cbn zeta. fold messages.
  pose proof (index_loop_dicts messages ∅) as Hidx.
  unfold build_id_index.
  destruct (index_loop messages ∅) as [id_index|e'] eqn:Hloop;
    cbn [mbind exc_bind].
  2:{ destruct Hidx as [_ Hex]. apply Exists_exists in Hex as (m & Hm & Hno).
      rewrite Forall_forall in Hdicts. specialize (Hdicts m Hm). congruence. }
  intros Hrows.
  apply rows_loop_raise in Hrows as (msg & Hmsg & Hrow).
  assert (Hvalues : forall n m, id_index !! n = Some m ->
                      m ∈ messages /\ is_dict m = true).
  { intros n m Hn.
    rewrite (build_id_index_lookup _ _ n Hloop) in Hn.
    apply last_indexed_Some in Hn as [Hin _]. split; [done|].
    rewrite Forall_forall in Hdicts. by apply Hdicts. }
  pose proof Hdicts as Hd. rewrite Forall_forall in Hd. specialize (Hd msg Hmsg).
  destruct msg as [| | | | | |d]; try discriminate.
  apply collect_row_raise in Hrow as [-> Hwhere].
  2:{ intros n m Hn. by apply (Hvalues n m). }
  split; [done|].
  destruct Hwhere as [Ht|(n & rmsg & Hn & Ht)].
  - by exists (JDict d).
  - exists rmsg. split; [by apply (Hvalues n rmsg)|done].
Qed.

(** The example chat: every record is a well-formed [dict], and the rows
    are returned. *)
Lemma X25_rows_errors_witness :
  exists rows,
    collect_rows_from_container (R := Basic.runtime) Examples.reply_container
      (text "Team") (Some 305696040%Z) None false = Ok rows.
Proof.
  apply (X25_rows_errors (R := Basic.runtime) Examples.reply_container
           (text "Team") (Some 305696040%Z) None false).
  - apply Forall_forall. intros m Hm.
    apply list_elem_of_In in Hm. vm_compute in Hm.
    repeat (destruct Hm as [<-|Hm]; [reflexivity|]). destruct Hm.
  - apply Forall_forall. intros m Hm.
    apply list_elem_of_In in Hm. vm_compute in Hm.
    repeat (destruct Hm as [<-|Hm];
            [cbn; repeat constructor|]). destruct Hm.
Defined.

(** X26. Nothing is returned for a chat in which one record of type
    [message] passes the author filter and has a text that cannot be read:
    the call raises, also when rows were made from the records before
    it. *)
Theorem X26_bad_text_aborts {R : Runtime}
    (container chat_name : str) (user_id : option Z)
    (user_query : option str) (exact : bool) (msg ty : json) (e : error) :
  let messages := stream_parse_messages_from_container container in
  let want := match user_id with
              | Some _ => want_user_id_string user_id
              | None => None
              end in
  let uq := if truthy_str user_query
            then str_lower (from_option id [] user_query) else [] in
  msg ∈ messages ->
  dict_get msg (text "type") JNull = Ok ty ->
  eq_str ty (text "message") = true ->
  author_matches want uq user_query exact msg = Ok true ->
  extract_text msg = Raise e ->
  exists e',
    collect_rows_from_container container chat_name user_id user_query exact
      = Raise e'.
Proof.
  intros messages want uq Hmsg Hty Heq Hkeep Ht.
  destruct (collect_rows_from_container container chat_name user_id
              user_query exact) as [rows|e'] eqn:Hrows; [|by eexists].
  exfalso. revert Hrows.
  unfold collect_rows_from_container. cbn zeta. fold messages want uq.
  destruct (build_id_index messages) as [id_index|e'];
    cbn [mbind exc_bind]; [|discriminate].
  intros Hloop.
  destruct (rows_loop_Ok_each _ _ _ _ _ _ _ _ _ Hloop msg Hmsg) as [r Hr].
  rewrite (collect_row_bad_text _ _ _ _ _ _ _ _ _ Hty Heq Hkeep Ht) in Hr.
  discriminate.
Qed.

(** The example: the first message of Bob makes a row, the second has a
    text entity whose text is the number 5, and nothing is returned. *)
Lemma X26_bad_text_aborts_witness :
  exists e',
    collect_rows_from_container (R := Basic.runtime)
      MoreExamples.bad_text_container (text "Team") None
      (Some (text "bob")) false = Raise e'.
Proof.
  apply (X26_bad_text_aborts (R := Basic.runtime)
           MoreExamples.bad_text_container (text "Team") None
           (Some (text "bob")) false
           MoreExamples.bad_message (JStr (text "message")) TypeError).
  - apply list_elem_of_In. vm_compute. right. left. reflexivity.
  - vm_compute. reflexivity.
  - vm_compute. reflexivity.
  - vm_compute. reflexivity.
  - vm_compute. reflexivity.
Defined.

(** ** The driver over all chats *)

Section Driver.

Context {R : Runtime}.

Implicit Types (chats : list (list N * option Z * list N))
  (all_rows : list Row) (per_chat_counts : list (list N * nat)).



Lemma by_chat_fold (all_rows : list Row) (by_chat : gmap (list N) (list Row))
    (k : list N) :
  fold_left by_chat_append all_rows by_chat !! k =
  match List.filter (fun r => bool_decide (row_chat r = k)) all_rows with
  | [] => by_chat !! k
  | l => Some (from_option id [] (by_chat !! k) ++ l)
  end.
Proof.
  revert by_chat. induction all_rows as [|r all_rows IH]; intros by_chat; [done|].
  cbn [fold_left List.filter]. rewrite IH. unfold by_chat_append.
  case_bool_decide as Hk.
  - rewrite Hk, lookup_insert_eq. cbn [from_option id].
    destruct (List.filter _ all_rows); [done|].
    by rewrite <- app_assoc.
  - by rewrite lookup_insert_ne.
Qed.

End Driver.



(** X28. The grouping of the rows by chat name: the group of a name holds
    exactly the rows of that name, in their order, so that no row is lost
    or repeated and the rows of two chats with the same name end up in one
    group; a name without rows has no group. *)
Theorem X28_group_by_chat (all_rows : list Row) (k : list N) :
  group_by_chat all_rows !! k =
  match List.filter (fun r => bool_decide (row_chat r = k)) all_rows with
  | [] => None
  | l => Some l
  end.
Proof.
  unfold group_by_chat. rewrite by_chat_fold.
  rewrite lookup_empty. by destruct (List.filter _ all_rows).
Qed.
